(** * Column-exact text layout of the UI prototyper (src/index.ts)

    A shallow embedding of the visual-width model, the layout primitives
    and the batch renderer, with the properties of the specification
    stated and proved (or refuted) over it.

    Data representation
    - a JavaScript string is the list of its UTF-16 code units ([list Z]);
    - [[...text]] (the string iterator) is [spread]: it yields one string per
      code point, joining a high surrogate with the low surrogate after it;
    - a JavaScript number that the code uses as a width, a count or an
      index is an integer ([Z]);
    - [String.prototype.repeat] throws a RangeError on a negative count:
      functions that call it live in the [completion] monad;
    - the base width function is the npm package [wcwidth], which is not
      part of the sources: every definition takes it as a parameter, and so
      it takes the correction table that is loaded when the process
      starts. *)

From stdpp Require Import base option list gmap.
From Stdlib Require Import ZArith Lia.

Local Open Scope Z_scope.

(** ** JavaScript strings *)

Abbreviation jsstring := (list Z).

Definition is_high_surrogate (u : Z) : bool := (0xD800 <=? u) && (u <=? 0xDBFF).
Definition is_low_surrogate (u : Z) : bool := (0xDC00 <=? u) && (u <=? 0xDFFF).

(** [[...text]]: the string split into code points. *)
Fixpoint spread (text : jsstring) : list jsstring :=
  match text with
  | [] => []
  | u :: rest =>
      match rest with
      | v :: rest' =>
          if is_high_surrogate u && is_low_surrogate v
          then [u; v] :: spread rest'
          else [u] :: spread rest
      | [] => [[u]]
      end
  end.

(** [char.codePointAt(0)]; [None] is [undefined] (the empty string). *)
Definition codePointAt0 (char : jsstring) : option Z :=
  match char with
  | [] => None
  | [u] => Some u
  | u :: v :: _ =>
      if is_high_surrogate u && is_low_surrogate v
      then Some (0x10000 + (u - 0xD800) * 0x400 + (v - 0xDC00))
      else Some u
  end.

(** [c && c.codePointAt(0) === cp] for [c = chars[k]], which is [undefined]
    ([None]) past the end of the array. *)
Definition is_code_point (cp : Z) (c : option jsstring) : bool :=
  match c with
  | Some char => bool_decide (codePointAt0 char = Some cp)
  | None => false
  end.

Definition VS16 : Z := 0xFE0F.
Definition KEYCAP : Z := 0x20E3.
Definition SPACE : Z := 0x20.
Definition NEWLINE : Z := 0x0A.

(** [a + b] where [b = chars[k]] is known to be defined. *)
Definition str (c : option jsstring) : jsstring := default [] c.

(** ** Exceptions *)

Inductive exn := RangeError.

Inductive completion (A : Type) :=
  | Normal (a : A)
  | Throw (e : exn).
Arguments Normal {A} a.
Arguments Throw {A} e.

#[global] Instance completion_ret : MRet completion := fun A a => Normal a.
#[global] Instance completion_bind : MBind completion := fun A B f m =>
  match m with
  | Normal a => f a
  | Throw e => Throw e
  end.

(** [xs.map(f)] for an [f] that may throw. *)
Fixpoint mapC {A B} (f : A -> completion B) (xs : list A) : completion (list B) :=
  match xs with
  | [] => Normal []
  | x :: xs' => y ← f x; ys ← mapC f xs'; mret (y :: ys)
  end.

(** [s.repeat(count)]. *)
Definition js_repeat (s : jsstring) (count : Z) : completion jsstring :=
  if count <? 0 then Throw RangeError
  else Normal (concat (replicate (Z.to_nat count) s)).

(** [parts.join(sep)]. *)
Fixpoint js_join (sep : jsstring) (parts : list jsstring) : jsstring :=
  match parts with
  | [] => []
  | [p] => p
  | p :: ps => p ++ sep ++ js_join sep ps
  end.

(** [new Map(entries)]: entries are set in order, a later one wins. *)
Definition js_Map (entries : list (jsstring * Z)) : gmap jsstring Z :=
  fold_left (fun m kv => <[kv.1 := kv.2]> m) entries ∅.

(** The built-in correction table. *)
Definition DEFAULT_EMOJI_CORRECTIONS : gmap jsstring Z :=
  js_Map [
    ([0x0030; 0xFE0F; 0x20E3], 1);
    ([0x0031; 0xFE0F; 0x20E3], 1);
    ([0x0032; 0xFE0F; 0x20E3], 1);
    ([0x0033; 0xFE0F; 0x20E3], 1);
    ([0x0034; 0xFE0F; 0x20E3], 1);
    ([0x0035; 0xFE0F; 0x20E3], 1);
    ([0x0036; 0xFE0F; 0x20E3], 1);
    ([0x0037; 0xFE0F; 0x20E3], 1);
    ([0x0038; 0xFE0F; 0x20E3], 1);
    ([0x0039; 0xFE0F; 0x20E3], 1);
    ([0x0023; 0xFE0F; 0x20E3], 1);
    ([0x002A; 0xFE0F; 0x20E3], 1);
    ([0x2699; 0xFE0F], 1);
    ([0x270F; 0xFE0F], 1);
    ([0x2712; 0xFE0F], 1);
    ([0x2764; 0xFE0F], 1);
    ([0x2600; 0xFE0F], 1);
    ([0x2601; 0xFE0F], 1);
    ([0x2602; 0xFE0F], 1);
    ([0x26A1], 1);
    ([0x2744; 0xFE0F], 1);
    ([0x2603; 0xFE0F], 1);
    ([0x2734; 0xFE0F], 1);
    ([0x2747; 0xFE0F], 1);
    ([0x2049; 0xFE0F], 1);
    ([0x203C; 0xFE0F], 1);
    ([0x2B50], 1);
    ([0x26AA], 1);
    ([0x26AB], 1);
    ([0x2139; 0xFE0F], 1);
    ([0x2709; 0xFE0F], 1);
    ([0x260E; 0xFE0F], 1);
    ([0x23F1; 0xFE0F], 1);
    ([0x23F2; 0xFE0F], 1);
    ([0x2328; 0xFE0F], 1);
    ([0x25B2], 1);
    ([0x25BC], 1);
    ([0x25C0], 1);
    ([0x25B6], 1);
    ([0x25B3], 1);
    ([0x25BD], 1);
    ([0x20A9], 1)
  ].

Inductive Align := AlignLeft | AlignRight | AlignCenter.
Inductive Style := StyleTop | StyleMiddle | StyleBottom.

(** ** The width model and the layout primitives *)

Section Layout.

(** The base width function of the [wcwidth] package. *)
Variable wcwidth : jsstring -> Z.
(** The table returned by [loadEmojiConfig()]. *)
Variable EMOJI_CORRECTIONS : gmap jsstring Z.

(** One iteration of the [while] loop of [getVisualWidth]: from the index
    [i] and the accumulator to the next index and accumulator. *)
Definition getVisualWidth_body (chars : list jsstring) (i : nat) (totalWidth : Z)
  : nat * Z :=
  let char := str (chars !! i) in
  let nextChar := chars !! (i + 1)%nat in
  let thirdChar := chars !! (i + 2)%nat in
  let hasVS16 := is_code_point VS16 nextChar in
  let isKeycap := hasVS16 && is_code_point KEYCAP thirdChar in
  if isKeycap then
    let keycapEmoji := char ++ str nextChar ++ str thirdChar in
    let correction := default 1 (EMOJI_CORRECTIONS !! keycapEmoji) in
    ((i + 3)%nat, totalWidth + (wcwidth keycapEmoji + correction))
  else if hasVS16 then
    let vsEmoji := char ++ str nextChar in
    let correction := default 1 (EMOJI_CORRECTIONS !! vsEmoji) in
    ((i + 2)%nat, totalWidth + (wcwidth vsEmoji + correction))
  else
    match EMOJI_CORRECTIONS !! char with
    | Some correction => ((i + 1)%nat, totalWidth + (wcwidth char + correction))
    | None => ((i + 1)%nat, totalWidth + wcwidth char)
    end.

(** [while (i < chars.length) { ... }]; every iteration advances [i], so
    [length chars] iterations are enough (lemma [getVisualWidth_loop_fuel]). *)
Fixpoint getVisualWidth_loop (fuel : nat) (chars : list jsstring) (i : nat)
    (totalWidth : Z) : Z :=
  match fuel with
  | O => totalWidth
  | S fuel' =>
      if decide (i < length chars)%nat then
        let '(i', totalWidth') := getVisualWidth_body chars i totalWidth in
        getVisualWidth_loop fuel' chars i' totalWidth'
      else totalWidth
  end.

Definition getVisualWidth (text : jsstring) : Z :=
  match text with
  | [] => 0
  | _ =>
      let chars := spread text in
      getVisualWidth_loop (length chars) chars 0 0
  end.

(** The body of the [for] loop of [truncateByVisualWidth] up to the
    overflow test: the width of the cluster at [i], its text, and the
    index after the skips done inside the body. *)
Definition truncate_body (chars : list jsstring) (i : nat) : Z * jsstring * nat :=
  let char := str (chars !! i) in
  let nextChar := chars !! (i + 1)%nat in
  let thirdChar := chars !! (i + 2)%nat in
  let hasVS16 := is_code_point VS16 nextChar in
  let isKeycap := hasVS16 && is_code_point KEYCAP thirdChar in
  if isKeycap then
    let charsToAdd := char ++ str nextChar ++ str thirdChar in
    let correction := default 1 (EMOJI_CORRECTIONS !! charsToAdd) in
    (wcwidth charsToAdd + correction, charsToAdd, (i + 2)%nat)
  else if hasVS16 then
    let charsToAdd := char ++ str nextChar in
    let correction := default 1 (EMOJI_CORRECTIONS !! charsToAdd) in
    (wcwidth charsToAdd + correction, charsToAdd, (i + 1)%nat)
  else
    match EMOJI_CORRECTIONS !! char with
    | Some correction => (wcwidth char + correction, char, i)
    | None => (wcwidth char, char, i)
    end.

(** [for (let i = 0; i < chars.length; i++) { ...; if (...) break; ... }]. *)
Fixpoint truncate_loop (fuel : nat) (chars : list jsstring) (maxWidth : Z)
    (i : nat) (result : jsstring) (currentWidth : Z) : jsstring :=
  match fuel with
  | O => result
  | S fuel' =>
      if decide (i < length chars)%nat then
        let '(charWidth, charsToAdd, i') := truncate_body chars i in
        if currentWidth + charWidth >? maxWidth then result
        else truncate_loop fuel' chars maxWidth (i' + 1)%nat
               (result ++ charsToAdd) (currentWidth + charWidth)
      else result
  end.

Definition truncateByVisualWidth (text : jsstring) (maxWidth : Z) : jsstring :=
  match text with
  | [] => []
  | _ =>
      let chars := spread text in
      truncate_loop (length chars) chars maxWidth 0 [] 0
  end.

Definition padText (text : jsstring) (targetWidth : Z) (align : Align)
  : completion jsstring :=
  let currentWidth := getVisualWidth text in
  let padding := targetWidth - currentWidth in
  if padding <? 0 then
    let truncated := truncateByVisualWidth text targetWidth in
    let truncatedWidth := getVisualWidth truncated in
    let remainingPadding := targetWidth - truncatedWidth in
    fill ← js_repeat [SPACE] (Z.max 0 remainingPadding);
    mret (truncated ++ fill)
  else
    match align with
    | AlignRight =>
        fill ← js_repeat [SPACE] padding;
        mret (fill ++ text)
    | AlignCenter =>
        let leftPad := padding / 2 in
        l ← js_repeat [SPACE] leftPad;
        r ← js_repeat [SPACE] (padding - leftPad);
        mret (l ++ text ++ r)
    | AlignLeft =>
        fill ← js_repeat [SPACE] padding;
        mret (text ++ fill)
    end.

(** [a || b] on numbers: [undefined] and [0] are falsy. *)
Definition js_or_num (a : option Z) (b : Z) : Z :=
  match a with
  | Some n => if n =? 0 then b else n
  | None => b
  end.

(** [a || b] on strings: [undefined] and the empty string are falsy. *)
Definition js_or_str (a : option jsstring) (b : jsstring) : jsstring :=
  match a with
  | Some [] | None => b
  | Some s => s
  end.

(** [xs[idx]] for a number [idx]: [undefined] outside of the array. *)
Definition js_index {A} (xs : list A) (idx : Z) : option A :=
  if idx <? 0 then None else xs !! Z.to_nat idx.

(** [Math.max(...xs, 0)]. *)
Definition js_max0 (xs : list Z) : Z := foldr Z.max 0 xs.

(** [for (const x of xs) { acc = f(acc, x) }] for a body that may throw. *)
Fixpoint forOfC {A S} (f : S -> A -> completion S) (xs : list A) (acc : S)
  : completion S :=
  match xs with
  | [] => Normal acc
  | x :: xs' => acc' ← f acc x; forOfC f xs' acc'
  end.

(** [xs.map((x, i) => f(x, i))], the index starting at [i]. *)
Fixpoint mapiC_from {A B} (f : A -> nat -> completion B) (i : nat) (xs : list A)
  : completion (list B) :=
  match xs with
  | [] => Normal []
  | x :: xs' => y ← f x i; ys ← mapiC_from f (S i) xs'; mret (y :: ys)
  end.

(** [s.split("\n")]. *)
Fixpoint split_lines (s : jsstring) : list jsstring :=
  match s with
  | [] => [[]]
  | u :: rest =>
      if u =? NEWLINE then [] :: split_lines rest
      else match split_lines rest with
           | l :: ls => (u :: l) :: ls
           | [] => [[u]]
           end
  end.

(** White space and line terminators of ECMAScript, all in the BMP. *)
Definition is_js_space (u : Z) : bool :=
  (u =? 0x09) || (u =? 0x0A) || (u =? 0x0B) || (u =? 0x0C) || (u =? 0x0D)
  || (u =? 0x20) || (u =? 0xA0) || (u =? 0x1680)
  || ((0x2000 <=? u) && (u <=? 0x200A))
  || (u =? 0x2028) || (u =? 0x2029) || (u =? 0x202F) || (u =? 0x205F)
  || (u =? 0x3000) || (u =? 0xFEFF).

(** [line.trimEnd()]. *)
Fixpoint trimEnd (s : jsstring) : jsstring :=
  match s with
  | [] => []
  | u :: rest =>
      match trimEnd rest with
      | [] => if is_js_space u then [] else [u]
      | t => u :: t
      end
  end.

Definition DASH : Z := 0x2500.   (* ─ *)
Definition VBAR : Z := 0x2502.   (* │ *)

Definition createBox (title : jsstring) (lines : list jsstring) (width : Z)
  : completion jsstring :=
  let innerWidth := width - 4 in
  topBorder ← js_repeat [DASH] (Z.max 0 (width - 2 - getVisualWidth title - 3));
  let result := [0x250C; DASH; SPACE] ++ title ++ [SPACE] ++ topBorder ++ [0x2510; NEWLINE] in
  result ← forOfC (fun result line =>
              cell ← padText line innerWidth AlignLeft;
              mret (result ++ [VBAR; SPACE] ++ cell ++ [SPACE; VBAR; NEWLINE]))
            lines result;
  bottom ← js_repeat [DASH] (width - 2);
  mret (result ++ [0x2514] ++ bottom ++ [0x2518]).

Definition createTableRow (columns : list jsstring) (widths : list Z)
  : completion jsstring :=
  paddedCols ← mapiC_from (fun col i =>
                  padText col (js_or_num (widths !! i) 10) AlignLeft) 0 columns;
  mret ([VBAR; SPACE] ++ js_join [SPACE; VBAR; SPACE] paddedCols ++ [SPACE; VBAR]).

(** The glyph set [chars[style]]: left, mid, right, line. *)
Definition separator_chars (style : Style) : jsstring * jsstring * jsstring * jsstring :=
  match style with
  | StyleTop => ([0x250C], [0x252C], [0x2510], [DASH])
  | StyleMiddle => ([0x251C], [0x253C], [0x2524], [DASH])
  | StyleBottom => ([0x2514], [0x2534], [0x2518], [DASH])
  end.

Definition createTableSeparator (widths : list Z) (style : Style)
  : completion jsstring :=
  let '(c_left, c_mid, c_right, c_line) := separator_chars style in
  segments ← mapC (fun w => js_repeat c_line (w + 2)) widths;
  mret (c_left ++ js_join c_mid segments ++ c_right).

(** [boxes.map(box => box.split("\n").map(line => line.trimEnd()))]. *)
Definition boxLines_of (boxes : list jsstring) : list (list jsstring) :=
  map (fun box => map trimEnd (split_lines box)) boxes.

(** [Math.max(...boxLines.map(lines => lines.length), 0)]. *)
Definition maxLines_of (boxLines : list (list jsstring)) : nat :=
  foldr Nat.max 0%nat (map length boxLines).

(** [boxLines.map(lines => Math.max(...lines.map(getVisualWidth), 0))]. *)
Definition boxWidths_of (boxLines : list (list jsstring)) : list Z :=
  map (fun lines => js_max0 (map getVisualWidth lines)) boxLines.

(** The inner loop of [combineHorizontal] for row [i]: [rowParts]. *)
Definition rowParts_of (boxLines : list (list jsstring)) (boxWidths : list Z)
    (i : nat) : completion (list jsstring) :=
  mapC (fun j =>
          let line := js_or_str (boxLines !! j ≫= (.!! i)) [] in
          padText line (default 0 (boxWidths !! j)) AlignLeft)
       (seq 0 (length boxLines)).

(** The array [result] of [combineHorizontal] before the final join. *)
Definition combineHorizontal_rows (boxes : list jsstring) (gap : Z)
  : completion (list jsstring) :=
  let boxLines := boxLines_of boxes in
  let maxLines := maxLines_of boxLines in
  let boxWidths := boxWidths_of boxLines in
  gapStr ← js_repeat [SPACE] gap;
  mapC (fun i =>
          rowParts ← rowParts_of boxLines boxWidths i;
          mret (js_join gapStr rowParts))
       (seq 0 maxLines).

Definition combineHorizontal (boxes : list jsstring) (gap : Z) : completion jsstring :=
  result ← combineHorizontal_rows boxes gap;
  mret (js_join [NEWLINE] result).

Definition wrapFrame (content : jsstring) (width : Z) (title : option jsstring)
  : completion jsstring :=
  let lines := split_lines content in
  let trimmedLines := map trimEnd lines in
  let maxContentWidth := js_max0 (map getVisualWidth trimmedLines) in
  let minRequiredWidth := maxContentWidth + 4 in
  let actualWidth := Z.max width minRequiredWidth in
  let innerWidth := actualWidth - 4 in
  result ← match title with
            | Some ((_ :: _) as title) =>
                titleBorder ← js_repeat [DASH]
                                (Z.max 0 (actualWidth - 2 - getVisualWidth title - 3));
                mret ([0x250C; DASH; SPACE] ++ title ++ [SPACE] ++ titleBorder
                        ++ [0x2510; NEWLINE])
            | _ =>
                border ← js_repeat [DASH] (actualWidth - 2);
                mret ([0x250C] ++ border ++ [0x2510; NEWLINE])
            end;
  result ← forOfC (fun result line =>
              cell ← padText line innerWidth AlignLeft;
              mret (result ++ [VBAR; SPACE] ++ cell ++ [SPACE; VBAR; NEWLINE]))
            trimmedLines result;
  bottom ← js_repeat [DASH] (actualWidth - 2);
  mret (result ++ [0x2514] ++ bottom ++ [0x2518]).

End Layout.

(** ** The batch renderer *)

Inductive UIComponent :=
  | PadTextComponent (text : jsstring) (width : Z) (align : option Align)
  | BoxComponent (title : jsstring) (lines : list jsstring) (width : option Z)
  | TableRowComponent (columns : list jsstring) (widths : list Z)
  | TableSeparatorComponent (widths : list Z) (style : option Style)
  | CombineHorizontalComponent (items : list Z) (gap : option Z)
  | WrapFrameComponent (contentIndex : Z) (width : Z) (title : option jsstring)
  | RawTextComponent (text : jsstring).

Section Batch.

Variable wcwidth : jsstring -> Z.
Variable EMOJI_CORRECTIONS : gmap jsstring Z.

(** The [switch] of [batchRender]: the string pushed for [comp] when
    [results] holds the strings pushed so far. *)
Definition render (results : list jsstring) (comp : UIComponent)
  : completion jsstring :=
  match comp with
  | PadTextComponent text width align =>
      padText wcwidth EMOJI_CORRECTIONS text width (default AlignLeft align)
  | BoxComponent title lines width =>
      createBox wcwidth EMOJI_CORRECTIONS title lines (js_or_num width 40)
  | TableRowComponent columns widths =>
      createTableRow wcwidth EMOJI_CORRECTIONS columns widths
  | TableSeparatorComponent widths style =>
      createTableSeparator widths (default StyleMiddle style)
  | CombineHorizontalComponent items gap =>
      let boxes := map (fun idx => js_or_str (js_index results idx) []) items in
      combineHorizontal wcwidth EMOJI_CORRECTIONS boxes (js_or_num gap 2)
  | WrapFrameComponent contentIndex width title =>
      let content := js_or_str (js_index results contentIndex) [] in
      wrapFrame wcwidth EMOJI_CORRECTIONS content width title
  | RawTextComponent text => Normal text
  end.

(** [for (const comp of components) { ...; results.push(...) }]. *)
Definition batchRender (components : list UIComponent) : completion (list jsstring) :=
  forOfC (fun results comp => r ← render results comp; mret (results ++ [r]))
         components [].

End Batch.

(** ** The structural view of the two loops

    [getVisualWidth] and [truncateByVisualWidth] walk the array of code
    points with the same three-way test.  The walk is a segmentation into
    clusters of one, two or three code points; the loops are proved below
    to compute with exactly this segmentation. *)

Inductive cluster :=
  | Single (char : jsstring)
  | Selector (char nextChar : jsstring)
  | Keycap (char nextChar thirdChar : jsstring).

(** The code points of a cluster, and its text ([char + nextChar + thirdChar]). *)
Definition cluster_chars (c : cluster) : list jsstring :=
  match c with
  | Single char => [char]
  | Selector char nextChar => [char; nextChar]
  | Keycap char nextChar thirdChar => [char; nextChar; thirdChar]
  end.

Definition cluster_text (c : cluster) : jsstring := concat (cluster_chars c).

Definition is_cp (cp : Z) (char : jsstring) : bool := is_code_point cp (Some char).

(** The cluster that starts with [char] when [rest] follows it, and the
    code points left after it. *)
Definition next_cluster (char : jsstring) (rest : list jsstring)
  : cluster * list jsstring :=
  match rest with
  | nextChar :: rest2 =>
      if is_cp VS16 nextChar then
        match rest2 with
        | thirdChar :: rest3 =>
            if is_cp KEYCAP thirdChar
            then (Keycap char nextChar thirdChar, rest3)
            else (Selector char nextChar, rest2)
        | [] => (Selector char nextChar, rest2)
        end
      else (Single char, rest)
  | [] => (Single char, rest)
  end.

Fixpoint segment (chars : list jsstring) : list cluster :=
  match chars with
  | [] => []
  | char :: rest =>
      match rest with
      | nextChar :: rest2 =>
          if is_cp VS16 nextChar then
            match rest2 with
            | thirdChar :: rest3 =>
                if is_cp KEYCAP thirdChar
                then Keycap char nextChar thirdChar :: segment rest3
                else Selector char nextChar :: segment rest2
            | [] => Selector char nextChar :: segment rest2
            end
          else Single char :: segment rest
      | [] => [Single char]
      end
  end.

(** The grapheme clusters of a string. *)
Definition clusters (text : jsstring) : list cluster := segment (spread text).

Definition texts (cs : list cluster) : jsstring := concat (map cluster_text cs).

Section Clusters.

Variable wcwidth : jsstring -> Z.
Variable EMOJI_CORRECTIONS : gmap jsstring Z.

(** The width that both loops add for a cluster. *)
Definition clusterWidth (c : cluster) : Z :=
  match c with
  | Single char =>
      match EMOJI_CORRECTIONS !! char with
      | Some correction => wcwidth char + correction
      | None => wcwidth char
      end
  | _ => wcwidth (cluster_text c) + default 1 (EMOJI_CORRECTIONS !! cluster_text c)
  end.

Definition widths_sum (cs : list cluster) : Z :=
  foldr (fun c acc => clusterWidth c + acc) 0 cs.

(** The clusters kept by the truncation loop: the longest prefix that is
    taken before the running width would exceed [maxWidth]. *)
Fixpoint fit (maxWidth currentWidth : Z) (cs : list cluster) : list cluster :=
  match cs with
  | [] => []
  | c :: cs' =>
      if currentWidth + clusterWidth c >? maxWidth then []
      else c :: fit maxWidth (currentWidth + clusterWidth c) cs'
  end.

(** The environment in which a space takes one column. *)
Definition space_is_one_column : Prop := clusterWidth (Single [SPACE]) = 1.

(** The environment in which the glyph [g] takes one column. *)
Definition one_column (g : Z) : Prop := clusterWidth (Single [g]) = 1.

End Clusters.

(** ** Boundaries between concatenated strings *)

(** A code unit that can start a string placed after another one without
    joining its last code point: not a low surrogate. *)
Definition not_low (t : jsstring) : Prop :=
  match t with
  | [] => True
  | v :: _ => is_low_surrogate v = false
  end.

(** A code unit that is alone in its code point wherever it stands. *)
Definition bmp (u : Z) : Prop :=
  is_high_surrogate u = false /\ is_low_surrogate u = false.

(** Code points before which a cluster boundary stays where it is: the
    first is not the variation selector (it would join the code point
    before it) and not the keycap mark (it would join a selector cluster). *)
Definition plain_start (chars : list jsstring) : Prop :=
  match chars with
  | [] => True
  | c :: _ => is_cp VS16 c = false /\ is_cp KEYCAP c = false
  end.

(** ** A base width function for concrete evaluations *)

Definition in_range (lo hi u : Z) : bool := (lo <=? u) && (u <=? hi).

(** Zero-width code units: the combining marks that the inputs below use. *)
Definition is_combining (u : Z) : bool :=
  in_range 0x0300 0x036F u || in_range 0x200B 0x200F u
  || in_range 0x20D0 0x20EF u || in_range 0xFE00 0xFE0F u
  || in_range 0xFE20 0xFE23 u || (u =? 0xFEFF).

(** East Asian wide and full-width code units. *)
Definition is_wide (u : Z) : bool :=
  (0x1100 <=? u)
  && ((u <=? 0x115F) || (u =? 0x2329) || (u =? 0x232A)
      || (in_range 0x2E80 0xA4CF u && negb (u =? 0x303F))
      || in_range 0xAC00 0xD7A3 u || in_range 0xF900 0xFAFF u
      || in_range 0xFE10 0xFE19 u || in_range 0xFE30 0xFE6F u
      || in_range 0xFF00 0xFF60 u || in_range 0xFFE0 0xFFE6 u).

Definition wcwidth_unit (u : Z) : Z :=
  if u =? 0 then 0
  else if (u <? 32) || ((0x7F <=? u) && (u <? 0xA0)) then 0
  else if is_combining u then 0
  else if is_wide u then 2
  else 1.

(** Modelled from the spec: the base width function, which the sources
    import from the package [wcwidth] (not part of src/).  Section 4.1:
    narrow and neutral code points take 1 column, wide and full-width ones
    2, zero-width combining marks 0; section 4.3: box-drawing glyphs take 1.
    As the package does, the model works on UTF-16 code units and adds up
    their widths, so that the two halves of an astral emoji give 2.  It
    serves for evaluating the definitions on concrete inputs only: the
    theorems hold for every base width function. *)
Definition wcwidth_ref (s : jsstring) : Z :=
  foldr (fun u acc => wcwidth_unit u + acc) 0 s.

(** ** Words of the specification *)


(** The glyphs of a box and the space take one column each. *)
Definition box_glyphs_one_column (wcwidth : jsstring -> Z)
    (EMOJI_CORRECTIONS : gmap jsstring Z) : Prop :=
  Forall (one_column wcwidth EMOJI_CORRECTIONS)
         [SPACE; DASH; VBAR; 0x250C; 0x2510; 0x2514; 0x2518].

(** The rows of a box, as the templates of [createBox] print them. *)
Definition box_top (title : jsstring) (dashes : nat) : jsstring :=
  [0x250C; DASH; SPACE] ++ title ++ [SPACE] ++ replicate dashes DASH ++ [0x2510].

Definition box_row (cell : jsstring) : jsstring :=
  [VBAR; SPACE] ++ cell ++ [SPACE; VBAR].

Definition box_bottom (dashes : nat) : jsstring :=
  [0x2514] ++ replicate dashes DASH ++ [0x2518].


Section Blocks.

Variable wcwidth : jsstring -> Z.
Variable EMOJI_CORRECTIONS : gmap jsstring Z.

(** What a block contributes to a horizontal combination: its lines
    without trailing white space, its width (the widest such line), and
    for row [i] its line [i], or the empty line when it has fewer lines,
    filled with spaces up to the width of the block. *)
Definition block_lines (box : jsstring) : list jsstring :=
  map trimEnd (split_lines box).

Definition block_width (box : jsstring) : Z :=
  js_max0 (map (getVisualWidth wcwidth EMOJI_CORRECTIONS) (block_lines box)).

Definition block_part (box : jsstring) (i : nat) : jsstring :=
  let line := default [] (block_lines box !! i) in
  line ++ replicate
            (Z.to_nat (block_width box - getVisualWidth wcwidth EMOJI_CORRECTIONS line))
            SPACE.

End Blocks.

(** An instruction whose own sizes keep every [repeat] count non-negative:
    a box at least 2 wide (its bottom border has [width - 2] dashes), table
    separator columns of width at least -2, a gap that is not negative. *)
Definition sizes_ok (comp : UIComponent) : Prop :=
  match comp with
  | BoxComponent _ _ width => 2 <= js_or_num width 40
  | TableSeparatorComponent widths _ => Forall (fun w => -2 <= w) widths
  | CombineHorizontalComponent _ gap => 0 <= js_or_num gap 2
  | _ => True
  end.

(** What a reference [idx] made by instruction number [i] stands for, as
    the specification has it: the result at [idx] when [idx] is one of the
    [i] results produced so far, the empty string when it is out of these
    bounds. *)
Definition resolve (results : list jsstring) (i : nat) (idx : Z) : jsstring :=
  if decide (0 <= idx < Z.of_nat i)
  then default [] (results !! Z.to_nat idx)
  else [].

(** ** Further words for the statements below *)

(** The environment in which no cluster has a negative width: the base
    width plus the correction is at least 0 for every cluster. *)
Definition widths_nonneg (wcwidth : jsstring -> Z)
    (EMOJI_CORRECTIONS : gmap jsstring Z) : Prop :=
  forall c, 0 <= clusterWidth wcwidth EMOJI_CORRECTIONS c.

(** A string that can follow any other string without changing how either
    is measured: it does not start with a low surrogate, with the variation
    selector or with the keycap mark. *)
Definition starts_plain (t : jsstring) : Prop :=
  match t with
  | [] => True
  | u :: _ => is_low_surrogate u = false /\ u <> VS16 /\ u <> KEYCAP
  end.

(** [xs.reduce((a, b) => a + b, 0)]-style sum of a list of numbers. *)
Definition sum_Z (xs : list Z) : Z := foldr Z.add 0 xs.

(** The top border of a frame without a title. *)
Definition frame_top (dashes : nat) : jsstring :=
  [0x250C] ++ replicate dashes DASH ++ [0x2510].

(** The glyphs of a table separator of the given style take one column
    each. *)
Definition separator_glyphs_one_column (wcwidth : jsstring -> Z)
    (EMOJI_CORRECTIONS : gmap jsstring Z) (style : Style) : Prop :=
  let '(c_left, c_mid, c_right, c_line) := separator_chars style in
  Forall (one_column wcwidth EMOJI_CORRECTIONS) (c_left ++ c_mid ++ c_right ++ c_line).

Section Frames.

Variable wcwidth : jsstring -> Z.
Variable EMOJI_CORRECTIONS : gmap jsstring Z.

(** The lines of the content of a frame, and the width the frame takes:
    the requested one, or what the widest line needs. *)
Definition frame_lines (content : jsstring) : list jsstring :=
  map trimEnd (split_lines content).

Definition frame_width (content : jsstring) (width : Z) : Z :=
  Z.max width
    (js_max0 (map (getVisualWidth wcwidth EMOJI_CORRECTIONS) (frame_lines content)) + 4).

(** A content line of a frame, filled with spaces up to the inner width. *)
Definition frame_cell (content : jsstring) (width : Z) (line : jsstring) : jsstring :=
  line ++ replicate
            (Z.to_nat (frame_width content width - 4
                       - getVisualWidth wcwidth EMOJI_CORRECTIONS line))
            SPACE.

(** The top border of a frame: with the title when there is a non-empty
    one, plain otherwise. *)
Definition frame_border (content : jsstring) (width : Z) (title : option jsstring)
  : jsstring :=
  match title with
  | Some ((_ :: _) as t) =>
      box_top t (Z.to_nat (frame_width content width - 5
                           - getVisualWidth wcwidth EMOJI_CORRECTIONS t))
  | _ => frame_top (Z.to_nat (frame_width content width - 2))
  end.

End Frames.

(** ** The guidelines generator

    [generateGuidelines] looks for keywords in the lower-cased requirements,
    suggests sections for them and prints a fixed text around the
    requirements, the concept, the width and the numbered sections.  The
    string literals of the source are given by their UTF-16 code units. *)

(** [s.startsWith(sub)]. *)
Fixpoint js_startsWith (s sub : jsstring) : bool :=
  match sub, s with
  | [], _ => true
  | _ :: _, [] => false
  | b :: sub', a :: s' => (a =? b) && js_startsWith s' sub'
  end.

(** [s.includes(sub)]: [sub] occurs in [s] at some position. *)
Fixpoint js_includes (s sub : jsstring) : bool :=
  js_startsWith s sub
  || match s with
     | [] => false
     | _ :: s' => js_includes s' sub
     end.

Fixpoint uint_units (d : Decimal.uint) : jsstring :=
  match d with
  | Decimal.Nil => []
  | Decimal.D0 d => 0x30 :: uint_units d
  | Decimal.D1 d => 0x31 :: uint_units d
  | Decimal.D2 d => 0x32 :: uint_units d
  | Decimal.D3 d => 0x33 :: uint_units d
  | Decimal.D4 d => 0x34 :: uint_units d
  | Decimal.D5 d => 0x35 :: uint_units d
  | Decimal.D6 d => 0x36 :: uint_units d
  | Decimal.D7 d => 0x37 :: uint_units d
  | Decimal.D8 d => 0x38 :: uint_units d
  | Decimal.D9 d => 0x39 :: uint_units d
  end.

(** [String(i)] for an array index [i]: its decimal digits. *)
Definition js_index_to_string (i : nat) : jsstring := uint_units (Nat.to_uint i).

(** [String(n)] for an integer [n] (below 10^21 in absolute value, where
    JavaScript still prints all the digits). *)
Definition js_number_to_string (n : Z) : jsstring :=
  match Z.to_int n with
  | Decimal.Pos d => uint_units d
  | Decimal.Neg d => 0x2D :: uint_units d
  end.

(** The keywords, in the order of the source. *)
Definition kw_ko_header : jsstring :=   (* 헤더 *)
  [
   0xD5E4; 0xB354
  ].
Definition kw_header : jsstring :=   (* header *)
  [
   0x0068; 0x0065; 0x0061; 0x0064; 0x0065; 0x0072
  ].
Definition kw_ko_navigation : jsstring :=   (* 네비게이션 *)
  [
   0xB124; 0xBE44; 0xAC8C; 0xC774; 0xC158
  ].
Definition kw_ko_logo : jsstring :=   (* 로고 *)
  [
   0xB85C; 0xACE0
  ].
Definition kw_ko_sidebar : jsstring :=   (* 사이드바 *)
  [
   0xC0AC; 0xC774; 0xB4DC; 0xBC14
  ].
Definition kw_sidebar : jsstring :=   (* sidebar *)
  [
   0x0073; 0x0069; 0x0064; 0x0065; 0x0062; 0x0061; 0x0072
  ].
Definition kw_ko_menu : jsstring :=   (* 메뉴 *)
  [
   0xBA54; 0xB274
  ].
Definition kw_ko_dashboard : jsstring :=   (* 대시보드 *)
  [
   0xB300; 0xC2DC; 0xBCF4; 0xB4DC
  ].
Definition kw_dashboard : jsstring :=   (* dashboard *)
  [
   0x0064; 0x0061; 0x0073; 0x0068; 0x0062; 0x006F; 0x0061; 0x0072; 0x0064
  ].
Definition kw_ko_metric : jsstring :=   (* 지표 *)
  [
   0xC9C0; 0xD45C
  ].
Definition kw_ko_statistics : jsstring :=   (* 통계 *)
  [
   0xD1B5; 0xACC4
  ].
Definition kw_ko_table : jsstring :=   (* 테이블 *)
  [
   0xD14C; 0xC774; 0xBE14
  ].
Definition kw_table : jsstring :=   (* table *)
  [
   0x0074; 0x0061; 0x0062; 0x006C; 0x0065
  ].
Definition kw_ko_list : jsstring :=   (* 목록 *)
  [
   0xBAA9; 0xB85D
  ].
Definition kw_ko_list_loan : jsstring :=   (* 리스트 *)
  [
   0xB9AC; 0xC2A4; 0xD2B8
  ].
Definition kw_ko_chart : jsstring :=   (* 차트 *)
  [
   0xCC28; 0xD2B8
  ].
Definition kw_chart : jsstring :=   (* chart *)
  [
   0x0063; 0x0068; 0x0061; 0x0072; 0x0074
  ].
Definition kw_ko_graph : jsstring :=   (* 그래프 *)
  [
   0xADF8; 0xB798; 0xD504
  ].
Definition kw_ko_form : jsstring :=   (* 폼 *)
  [
   0xD3FC
  ].
Definition kw_form : jsstring :=   (* form *)
  [
   0x0066; 0x006F; 0x0072; 0x006D
  ].
Definition kw_ko_input : jsstring :=   (* 입력 *)
  [
   0xC785; 0xB825
  ].
Definition kw_ko_search : jsstring :=   (* 검색 *)
  [
   0xAC80; 0xC0C9
  ].
Definition kw_ko_card : jsstring :=   (* 카드 *)
  [
   0xCE74; 0xB4DC
  ].
Definition kw_card : jsstring :=   (* card *)
  [
   0x0063; 0x0061; 0x0072; 0x0064
  ].
Definition kw_ko_footer : jsstring :=   (* 푸터 *)
  [
   0xD478; 0xD130
  ].
Definition kw_footer : jsstring :=   (* footer *)
  [
   0x0066; 0x006F; 0x006F; 0x0074; 0x0065; 0x0072
  ].

(** The sections, in the order of the source. *)
Definition section_header : jsstring :=   (* 헤더 (로고, 네비게이션, 사용자 정보) *)
  [
   0xD5E4; 0xB354; 0x0020; 0x0028; 0xB85C; 0xACE0; 0x002C; 0x0020; 0xB124; 0xBE44;
   0xAC8C; 0xC774; 0xC158; 0x002C; 0x0020; 0xC0AC; 0xC6A9; 0xC790; 0x0020; 0xC815;
   0xBCF4; 0x0029
  ].
Definition section_sidebar : jsstring :=   (* 사이드바 (메뉴 항목, 아이콘) *)
  [
   0xC0AC; 0xC774; 0xB4DC; 0xBC14; 0x0020; 0x0028; 0xBA54; 0xB274; 0x0020; 0xD56D;
   0xBAA9; 0x002C; 0x0020; 0xC544; 0xC774; 0xCF58; 0x0029
  ].
Definition section_dashboard : jsstring :=   (* 대시보드 지표 카드 (숫자, 변화율, 아이콘) *)
  [
   0xB300; 0xC2DC; 0xBCF4; 0xB4DC; 0x0020; 0xC9C0; 0xD45C; 0x0020; 0xCE74; 0xB4DC;
   0x0020; 0x0028; 0xC22B; 0xC790; 0x002C; 0x0020; 0xBCC0; 0xD654; 0xC728; 0x002C;
   0x0020; 0xC544; 0xC774; 0xCF58; 0x0029
  ].
Definition section_table : jsstring :=   (* 데이터 테이블 (헤더, 행, 정렬) *)
  [
   0xB370; 0xC774; 0xD130; 0x0020; 0xD14C; 0xC774; 0xBE14; 0x0020; 0x0028; 0xD5E4;
   0xB354; 0x002C; 0x0020; 0xD589; 0x002C; 0x0020; 0xC815; 0xB82C; 0x0029
  ].
Definition section_chart : jsstring :=   (* 차트 영역 (ASCII 그래프) *)
  [
   0xCC28; 0xD2B8; 0x0020; 0xC601; 0xC5ED; 0x0020; 0x0028; 0x0041; 0x0053; 0x0043;
   0x0049; 0x0049; 0x0020; 0xADF8; 0xB798; 0xD504; 0x0029
  ].
Definition section_form : jsstring :=   (* 입력 폼 (텍스트 필드, 버튼) *)
  [
   0xC785; 0xB825; 0x0020; 0xD3FC; 0x0020; 0x0028; 0xD14D; 0xC2A4; 0xD2B8; 0x0020;
   0xD544; 0xB4DC; 0x002C; 0x0020; 0xBC84; 0xD2BC; 0x0029
  ].
Definition section_card : jsstring :=   (* 카드 컴포넌트 (제목, 내용, 액션) *)
  [
   0xCE74; 0xB4DC; 0x0020; 0xCEF4; 0xD3EC; 0xB10C; 0xD2B8; 0x0020; 0x0028; 0xC81C;
   0xBAA9; 0x002C; 0x0020; 0xB0B4; 0xC6A9; 0x002C; 0x0020; 0xC561; 0xC158; 0x0029
  ].
Definition section_footer : jsstring :=   (* 푸터 (저작권, 링크) *)
  [
   0xD478; 0xD130; 0x0020; 0x0028; 0xC800; 0xC791; 0xAD8C; 0x002C; 0x0020; 0xB9C1;
   0xD06C; 0x0029
  ].
Definition section_default_header : jsstring :=   (* 헤더 영역 *)
  [
   0xD5E4; 0xB354; 0x0020; 0xC601; 0xC5ED
  ].
Definition section_default_main : jsstring :=   (* 메인 콘텐츠 영역 *)
  [
   0xBA54; 0xC778; 0x0020; 0xCF58; 0xD150; 0xCE20; 0x0020; 0xC601; 0xC5ED
  ].
Definition section_default_footer : jsstring :=   (* 푸터 영역 *)
  [
   0xD478; 0xD130; 0x0020; 0xC601; 0xC5ED
  ].

(** The pieces of the template literal of [generateGuidelines], between
    its interpolations. *)
Definition guidelines_text_0 : jsstring :=
  [
   0x0023; 0x0023; 0x0020; 0xD83C; 0xDFA8; 0x0020; 0x0055; 0x0049; 0x0020; 0xD504;
   0xB85C; 0xD1A0; 0xD0C0; 0xC785; 0x0020; 0xAC00; 0xC774; 0xB4DC; 0xB77C; 0xC778;
   0x000A; 0x000A; 0x0023; 0x0023; 0x0023; 0x0020; 0xD83D; 0xDCCB; 0x0020; 0xC694;
   0xAD6C; 0xC0AC; 0xD56D; 0x0020; 0xBD84; 0xC11D; 0x000A
  ].
Definition guidelines_text_1 : jsstring :=
  [
   0x000A; 0x000A; 0x0023; 0x0023; 0x0023; 0x0020; 0xD83C; 0xDFAF; 0x0020; 0xB514;
   0xC790; 0xC778; 0x0020; 0xCEE8; 0xC149; 0x000A
  ].
Definition guidelines_text_2 : jsstring :=
  [
   0x000A; 0x000A; 0x0023; 0x0023; 0x0023; 0x0020; 0xD83D; 0xDCD0; 0x0020; 0xB808;
   0xC774; 0xC544; 0xC6C3; 0x0020; 0xAE30; 0xBCF8; 0x0020; 0xADDC; 0xCE59; 0x000A;
   0x000A; 0x002A; 0x002A; 0xB108; 0xBE44; 0x0020; 0xC124; 0xC815; 0x003A; 0x0020
  ].
Definition guidelines_text_3 : jsstring :=
  [
   0xC790; 0x002A; 0x002A; 0x000A; 0x000A; 0x007C; 0x0020; 0xBB38; 0xC790; 0x0020;
   0xC720; 0xD615; 0x0020; 0x007C; 0x0020; 0xB108; 0xBE44; 0x0020; 0x007C; 0x0020;
   0xC608; 0xC2DC; 0x0020; 0x007C; 0x000A; 0x007C; 0x002D; 0x002D; 0x002D; 0x002D;
   0x002D; 0x002D; 0x002D; 0x002D; 0x002D; 0x002D; 0x002D; 0x007C; 0x002D; 0x002D;
   0x002D; 0x002D; 0x002D; 0x002D; 0x007C; 0x002D; 0x002D; 0x002D; 0x002D; 0x002D;
   0x002D; 0x007C; 0x000A; 0x007C; 0x0020; 0xC601; 0xBB38; 0x002F; 0xC22B; 0xC790;
   0x002F; 0xAE30; 0xBCF8; 0xAE30; 0xD638; 0x0020; 0x007C; 0x0020; 0x0031; 0xCE78;
   0x0020; 0x007C; 0x0020; 0x0061; 0x002C; 0x0020; 0x0031; 0x002C; 0x0020; 0x002D;
   0x002C; 0x0020; 0x003D; 0x0020; 0x007C; 0x000A; 0x007C; 0x0020; 0xD55C; 0xAE00;
   0x0020; 0x007C; 0x0020; 0x0032; 0xCE78; 0x0020; 0x007C; 0x0020; 0xAC00; 0x002C;
   0x0020; 0xB098; 0x002C; 0x0020; 0xB2E4; 0x0020; 0x007C; 0x000A; 0x007C; 0x0020;
   0xC774; 0xBAA8; 0xC9C0; 0x0020; 0x007C; 0x0020; 0x0032; 0xCE78; 0x0020; 0x007C;
   0x0020; 0xD83D; 0xDCCA; 0x002C; 0x0020; 0x2728; 0x002C; 0x0020; 0xD83D; 0xDE80;
   0x0020; 0x007C; 0x000A; 0x007C; 0x0020; 0xBC15; 0xC2A4; 0x0020; 0xBB38; 0xC790;
   0x0020; 0x007C; 0x0020; 0x0031; 0xCE78; 0x0020; 0x007C; 0x0020; 0x2500; 0x002C;
   0x0020; 0x2502; 0x002C; 0x0020; 0x250C; 0x002C; 0x0020; 0x2510; 0x0020; 0x007C;
   0x000A; 0x000A; 0x0023; 0x0023; 0x0023; 0x0020; 0xD83E; 0xDDF1; 0x0020; 0xAD8C;
   0xC7A5; 0x0020; 0xC139; 0xC158; 0x0020; 0xAD6C; 0xC870; 0x000A
  ].
Definition guidelines_text_4 : jsstring :=
  [
   0x000A; 0x000A; 0x0023; 0x0023; 0x0023; 0x0020; 0xD83D; 0xDD27; 0x0020; 0xC0AC;
   0xC6A9; 0x0020; 0xAC00; 0xB2A5; 0xD55C; 0x0020; 0xB3C4; 0xAD6C; 0x000A; 0x000A;
   0x002A; 0x002A; 0x0062; 0x0061; 0x0074; 0x0063; 0x0068; 0x005F; 0x0072; 0x0065;
   0x006E; 0x0064; 0x0065; 0x0072; 0x002A; 0x002A; 0x0020; 0xB3C4; 0xAD6C; 0xB97C;
   0x0020; 0xC0AC; 0xC6A9; 0xD558; 0xBA74; 0x0020; 0xD55C; 0x0020; 0xBC88; 0xC758;
   0x0020; 0xD638; 0xCD9C; 0xB85C; 0x0020; 0xBAA8; 0xB4E0; 0x0020; 0xCEF4; 0xD3EC;
   0xB10C; 0xD2B8; 0xB97C; 0x0020; 0xC0DD; 0xC131; 0xD560; 0x0020; 0xC218; 0x0020;
   0xC788; 0xC2B5; 0xB2C8; 0xB2E4; 0x002E; 0x000A; 0x000A; 0xCEF4; 0xD3EC; 0xB10C;
   0xD2B8; 0x0020; 0xD0C0; 0xC785; 0x003A; 0x000A; 0x002D; 0x0020; 0x002A; 0x002A;
   0x0062; 0x006F; 0x0078; 0x002A; 0x002A; 0x003A; 0x0020; 0xBC15; 0xC2A4; 0x002F;
   0xCE74; 0xB4DC; 0x0020; 0x007B; 0x0020; 0x0074; 0x0079; 0x0070; 0x0065; 0x003A;
   0x0020; 0x0022; 0x0062; 0x006F; 0x0078; 0x0022; 0x002C; 0x0020; 0x0074; 0x0069;
   0x0074; 0x006C; 0x0065; 0x002C; 0x0020; 0x006C; 0x0069; 0x006E; 0x0065; 0x0073;
   0x002C; 0x0020; 0x0077; 0x0069; 0x0064; 0x0074; 0x0068; 0x0020; 0x007D; 0x000A;
   0x002D; 0x0020; 0x002A; 0x002A; 0x0074; 0x0061; 0x0062; 0x006C; 0x0065; 0x005F;
   0x0072; 0x006F; 0x0077; 0x002A; 0x002A; 0x003A; 0x0020; 0xD14C; 0xC774; 0xBE14;
   0x0020; 0xD589; 0x0020; 0x007B; 0x0020; 0x0074; 0x0079; 0x0070; 0x0065; 0x003A;
   0x0020; 0x0022; 0x0074; 0x0061; 0x0062; 0x006C; 0x0065; 0x005F; 0x0072; 0x006F;
   0x0077; 0x0022; 0x002C; 0x0020; 0x0063; 0x006F; 0x006C; 0x0075; 0x006D; 0x006E;
   0x0073; 0x002C; 0x0020; 0x0077; 0x0069; 0x0064; 0x0074; 0x0068; 0x0073; 0x0020;
   0x007D; 0x000A; 0x002D; 0x0020; 0x002A; 0x002A; 0x0074; 0x0061; 0x0062; 0x006C;
   0x0065; 0x005F; 0x0073; 0x0065; 0x0070; 0x0061; 0x0072; 0x0061; 0x0074; 0x006F;
   0x0072; 0x002A; 0x002A; 0x003A; 0x0020; 0xAD6C; 0xBD84; 0xC120; 0x0020; 0x007B;
   0x0020; 0x0074; 0x0079; 0x0070; 0x0065; 0x003A; 0x0020; 0x0022; 0x0074; 0x0061;
   0x0062; 0x006C; 0x0065; 0x005F; 0x0073; 0x0065; 0x0070; 0x0061; 0x0072; 0x0061;
   0x0074; 0x006F; 0x0072; 0x0022; 0x002C; 0x0020; 0x0077; 0x0069; 0x0064; 0x0074;
   0x0068; 0x0073; 0x002C; 0x0020; 0x0073; 0x0074; 0x0079; 0x006C; 0x0065; 0x0020;
   0x007D; 0x000A; 0x002D; 0x0020; 0x002A; 0x002A; 0x0063; 0x006F; 0x006D; 0x0062;
   0x0069; 0x006E; 0x0065; 0x005F; 0x0068; 0x006F; 0x0072; 0x0069; 0x007A; 0x006F;
   0x006E; 0x0074; 0x0061; 0x006C; 0x002A; 0x002A; 0x003A; 0x0020; 0xAC00; 0xB85C;
   0x0020; 0xACB0; 0xD569; 0x0020; 0x007B; 0x0020; 0x0074; 0x0079; 0x0070; 0x0065;
   0x003A; 0x0020; 0x0022; 0x0063; 0x006F; 0x006D; 0x0062; 0x0069; 0x006E; 0x0065;
   0x005F; 0x0068; 0x006F; 0x0072; 0x0069; 0x007A; 0x006F; 0x006E; 0x0074; 0x0061;
   0x006C; 0x0022; 0x002C; 0x0020; 0x0069; 0x0074; 0x0065; 0x006D; 0x0073; 0x003A;
   0x0020; 0x005B; 0xC778; 0xB371; 0xC2A4; 0x005D; 0x002C; 0x0020; 0x0067; 0x0061;
   0x0070; 0x0020; 0x007D; 0x000A; 0x002D; 0x0020; 0x002A; 0x002A; 0x0077; 0x0072;
   0x0061; 0x0070; 0x005F; 0x0066; 0x0072; 0x0061; 0x006D; 0x0065; 0x002A; 0x002A;
   0x003A; 0x0020; 0xD504; 0xB808; 0xC784; 0x0020; 0xAC10; 0xC2F8; 0xAE30; 0x0020;
   0x007B; 0x0020; 0x0074; 0x0079; 0x0070; 0x0065; 0x003A; 0x0020; 0x0022; 0x0077;
   0x0072; 0x0061; 0x0070; 0x005F; 0x0066; 0x0072; 0x0061; 0x006D; 0x0065; 0x0022;
   0x002C; 0x0020; 0x0063; 0x006F; 0x006E; 0x0074; 0x0065; 0x006E; 0x0074; 0x0049;
   0x006E; 0x0064; 0x0065; 0x0078; 0x002C; 0x0020; 0x0077; 0x0069; 0x0064; 0x0074;
   0x0068; 0x002C; 0x0020; 0x0074; 0x0069; 0x0074; 0x006C; 0x0065; 0x0020; 0x007D;
   0x000A; 0x002D; 0x0020; 0x002A; 0x002A; 0x0070; 0x0061; 0x0064; 0x005F; 0x0074;
   0x0065; 0x0078; 0x0074; 0x002A; 0x002A; 0x003A; 0x0020; 0xD14D; 0xC2A4; 0xD2B8;
   0x0020; 0xD328; 0xB529; 0x0020; 0x007B; 0x0020; 0x0074; 0x0079; 0x0070; 0x0065;
   0x003A; 0x0020; 0x0022; 0x0070; 0x0061; 0x0064; 0x005F; 0x0074; 0x0065; 0x0078;
   0x0074; 0x0022; 0x002C; 0x0020; 0x0074; 0x0065; 0x0078; 0x0074; 0x002C; 0x0020;
   0x0077; 0x0069; 0x0064; 0x0074; 0x0068; 0x002C; 0x0020; 0x0061; 0x006C; 0x0069;
   0x0067; 0x006E; 0x0020; 0x007D; 0x000A; 0x002D; 0x0020; 0x002A; 0x002A; 0x0072;
   0x0061; 0x0077; 0x002A; 0x002A; 0x003A; 0x0020; 0xC6D0; 0xBCF8; 0x0020; 0xD14D;
   0xC2A4; 0xD2B8; 0x0020; 0x007B; 0x0020; 0x0074; 0x0079; 0x0070; 0x0065; 0x003A;
   0x0020; 0x0022; 0x0072; 0x0061; 0x0077; 0x0022; 0x002C; 0x0020; 0x0074; 0x0065;
   0x0078; 0x0074; 0x0020; 0x007D; 0x000A; 0x000A; 0x0023; 0x0023; 0x0023; 0x0020;
   0x2705; 0x0020; 0x0062; 0x0061; 0x0074; 0x0063; 0x0068; 0x005F; 0x0072; 0x0065;
   0x006E; 0x0064; 0x0065; 0x0072; 0xB97C; 0x0020; 0xD65C; 0xC6A9; 0xD558; 0xC5EC;
   0x0020; 0xD55C; 0x0020; 0xBC88; 0xC5D0; 0x0020; 0x0055; 0x0049; 0xB97C; 0x0020;
   0xC0DD; 0xC131; 0xD558; 0xC138; 0xC694; 0x0021
  ].

(** The default concept of the [create_ui_prototype] tool. *)
Definition DEFAULT_CONCEPT : jsstring :=   (* 모던 UI *)
  [
   0xBAA8; 0xB358; 0x0020; 0x0055; 0x0049
  ].

Section Guidelines.

(** [String.prototype.toLowerCase], the case mapping of Unicode, is taken
    as it is. *)
Variable toLowerCase : jsstring -> jsstring.

(** The array [suggestedSections] that [generateGuidelines] builds from the
    lower-cased requirements: one [push] per group of keywords found, and
    the three default sections when nothing was pushed. *)
Definition suggestedSections_of (keywords : jsstring) : list jsstring :=
  let includes := js_includes keywords in
  let suggestedSections := [] in
  let suggestedSections :=
    if includes kw_ko_header || includes kw_header || includes kw_ko_navigation
       || includes kw_ko_logo
    then suggestedSections ++ [section_header] else suggestedSections in
  let suggestedSections :=
    if includes kw_ko_sidebar || includes kw_sidebar || includes kw_ko_menu
    then suggestedSections ++ [section_sidebar] else suggestedSections in
  let suggestedSections :=
    if includes kw_ko_dashboard || includes kw_dashboard || includes kw_ko_metric
       || includes kw_ko_statistics
    then suggestedSections ++ [section_dashboard] else suggestedSections in
  let suggestedSections :=
    if includes kw_ko_table || includes kw_table || includes kw_ko_list
       || includes kw_ko_list_loan
    then suggestedSections ++ [section_table] else suggestedSections in
  let suggestedSections :=
    if includes kw_ko_chart || includes kw_chart || includes kw_ko_graph
    then suggestedSections ++ [section_chart] else suggestedSections in
  let suggestedSections :=
    if includes kw_ko_form || includes kw_form || includes kw_ko_input
       || includes kw_ko_search
    then suggestedSections ++ [section_form] else suggestedSections in
  let suggestedSections :=
    if includes kw_ko_card || includes kw_card
    then suggestedSections ++ [section_card] else suggestedSections in
  let suggestedSections :=
    if includes kw_ko_footer || includes kw_footer
    then suggestedSections ++ [section_footer] else suggestedSections in
  if (length suggestedSections =? 0)%nat
  then suggestedSections
         ++ [section_default_header; section_default_main; section_default_footer]
  else suggestedSections.

(** [suggestedSections.map((s, i) => `   ${i + 1}. ${s}`).join("\n")]. *)
Definition sectionsText_of (suggestedSections : list jsstring) : jsstring :=
  js_join [NEWLINE]
    (imap (fun i s =>
             [SPACE; SPACE; SPACE] ++ js_index_to_string (i + 1) ++ [0x2E; SPACE] ++ s)
          suggestedSections).

Definition generateGuidelines (requirements concept : jsstring) (width : Z) : jsstring :=
  let keywords := toLowerCase requirements in
  let suggestedSections := suggestedSections_of keywords in
  let sectionsText := sectionsText_of suggestedSections in
  guidelines_text_0 ++ requirements ++ guidelines_text_1 ++ concept
    ++ guidelines_text_2 ++ js_number_to_string width ++ guidelines_text_3
    ++ sectionsText ++ guidelines_text_4.

End Guidelines.

(** ** Loading the correction table *)

(** What the [try] block of [loadEmojiConfig] meets at one path: no file
    ([existsSync] is false), a file that makes reading, parsing or
    [Object.entries(config.corrections)] throw, or a file with the listed
    corrections. *)
Inductive config_file :=
  | NoFile
  | Unusable
  | Corrections (entries : list (jsstring * Z)).

(** [for (const configPath of configPaths) { try { ... } catch { continue } }]
    and the final [return DEFAULT_EMOJI_CORRECTIONS]. *)
Fixpoint loadEmojiConfig_from (configPaths : list config_file) : gmap jsstring Z :=
  match configPaths with
  | [] => DEFAULT_EMOJI_CORRECTIONS
  | file :: rest =>
      match file with
      | NoFile => loadEmojiConfig_from rest
      | Unusable => loadEmojiConfig_from rest
      | Corrections entries =>
          fold_left (fun corrections kv => <[kv.1 := kv.2]> corrections) entries ∅
      end
  end.

(** [loadEmojiConfig()], given what is at the global and at the local
    path. *)
Definition loadEmojiConfig (global local : config_file) : gmap jsstring Z :=
  loadEmojiConfig_from [global; local].

(** The correction that a list of entries gives a key: the one of the last
    entry with this key. *)
Fixpoint last_entry (key : jsstring) (entries : list (jsstring * Z)) : option Z :=
  match entries with
  | [] => None
  | (k, v) :: rest =>
      match last_entry key rest with
      | Some later => Some later
      | None => if decide (k = key) then Some v else None
      end
  end.

(** ** The tool handler *)

(** A call of a tool: its name and its arguments, each of which may be
    missing. *)
Inductive ToolRequest :=
  | CreateUiPrototypeTool (requirements concept : option jsstring) (width : option Z)
  | BatchRenderTool (components : option (list UIComponent)) (returnIndex : option Z)
  | PadTextTool (text : option jsstring) (width : option Z) (align : option Align)
  | CreateBoxTool (title : option jsstring) (lines : option (list jsstring))
      (width : option Z)
  | CreateTableRowTool (columns : option (list jsstring)) (widths : option (list Z))
  | CreateTableSeparatorTool (widths : option (list Z)) (style : option Style)
  | CombineHorizontalTool (boxes : option (list jsstring)) (gap : option Z)
  | WrapFrameTool (content : option jsstring) (width : option Z) (title : option jsstring)
  | OtherTool (name : jsstring).

(** What the handler does: it returns a text, lets the exception of a
    layout function through, or throws [Error("Unknown tool: " + name)]. *)
Inductive ToolOutcome :=
  | ToolText (text : jsstring)
  | ToolThrows (e : exn)
  | UnknownTool (name : jsstring).

Definition tool_outcome (c : completion jsstring) : ToolOutcome :=
  match c with
  | Normal text => ToolText text
  | Throw e => ToolThrows e
  end.

(** [results.map((r, i) => `[${i}]\n${r}`).join("\n\n")]. *)
Definition batch_output (results : list jsstring) : jsstring :=
  js_join [NEWLINE; NEWLINE]
    (imap (fun i r => [0x5B] ++ js_index_to_string i ++ [0x5D; NEWLINE] ++ r) results).

Section Handler.

Variable wcwidth : jsstring -> Z.
Variable EMOJI_CORRECTIONS : gmap jsstring Z.
Variable toLowerCase : jsstring -> jsstring.

(** The [switch (name)] of the [CallToolRequestSchema] handler. *)
Definition callTool (request : ToolRequest) : ToolOutcome :=
  match request with
  | CreateUiPrototypeTool requirements concept width =>
      let requirements := js_or_str requirements [] in
      let concept := js_or_str concept DEFAULT_CONCEPT in
      let width := js_or_num width 80 in
      ToolText (generateGuidelines toLowerCase requirements concept width)
  | BatchRenderTool components returnIndex =>
      let components := default [] components in
      match batchRender wcwidth EMOJI_CORRECTIONS components with
      | Throw e => ToolThrows e
      | Normal results =>
          match returnIndex with
          | Some idx =>
              match js_index results idx with
              | Some ((_ :: _) as result) => ToolText result
              | _ => ToolText (batch_output results)
              end
          | None => ToolText (batch_output results)
          end
      end
  | PadTextTool text width align =>
      let text := js_or_str text [] in
      let width := js_or_num width 10 in
      let align := default AlignLeft align in
      tool_outcome (padText wcwidth EMOJI_CORRECTIONS text width align)
  | CreateBoxTool title lines width =>
      let title := js_or_str title [] in
      let lines := default [] lines in
      let width := js_or_num width 40 in
      tool_outcome (createBox wcwidth EMOJI_CORRECTIONS title lines width)
  | CreateTableRowTool columns widths =>
      let columns := default [] columns in
      let widths := default [] widths in
      tool_outcome (createTableRow wcwidth EMOJI_CORRECTIONS columns widths)
  | CreateTableSeparatorTool widths style =>
      let widths := default [] widths in
      let style := default StyleMiddle style in
      tool_outcome (createTableSeparator widths style)
  | CombineHorizontalTool boxes gap =>
      let boxes := default [] boxes in
      let gap := js_or_num gap 2 in
      tool_outcome (combineHorizontal wcwidth EMOJI_CORRECTIONS boxes gap)
  | WrapFrameTool content width title =>
      let content := js_or_str content [] in
      let width := js_or_num width 80 in
      tool_outcome (wrapFrame wcwidth EMOJI_CORRECTIONS content width title)
  | OtherTool name => UnknownTool name
  end.

(** The requests on which the handler lets a RangeError through. *)
Definition request_bad_size (request : ToolRequest) : Prop :=
  match request with
  | BatchRenderTool components _ =>
      Exists (fun comp => ~ sizes_ok comp) (default [] components)
  | CreateBoxTool _ _ width => js_or_num width 40 < 2
  | CreateTableSeparatorTool widths _ => Exists (fun w => w < -2) (default [] widths)
  | CombineHorizontalTool _ gap => js_or_num gap 2 < 0
  | _ => False
  end.

End Handler.

(** The entries that [loadEmojiConfig] loads: those of the global file when
    it is usable, else those of the local file when that one is; none when
    neither is. *)
Definition usable_entries (global local : config_file)
  : option (list (jsstring * Z)) :=
  match global with
  | Corrections entries => Some entries
  | _ => match local with
         | Corrections entries => Some entries
         | _ => None
         end
  end.

(** The correction that the width model applies to a cluster without an
    entry: none to a single code point, 1 to a selector or keycap cluster. *)
Definition default_correction (c : cluster) : Z :=
  match c with
  | Single _ => 0
  | _ => 1
  end.

(** All keywords and all keyword sections of [generateGuidelines]. *)
Definition all_keywords : list jsstring :=
  [kw_ko_header; kw_header; kw_ko_navigation; kw_ko_logo;
   kw_ko_sidebar; kw_sidebar; kw_ko_menu;
   kw_ko_dashboard; kw_dashboard; kw_ko_metric; kw_ko_statistics;
   kw_ko_table; kw_table; kw_ko_list; kw_ko_list_loan;
   kw_ko_chart; kw_chart; kw_ko_graph;
   kw_ko_form; kw_form; kw_ko_input; kw_ko_search;
   kw_ko_card; kw_card; kw_ko_footer; kw_footer].

Definition keyword_sections : list jsstring :=
  [section_header; section_sidebar; section_dashboard; section_table;
   section_chart; section_form; section_card; section_footer].

Definition default_sections : list jsstring :=
  [section_default_header; section_default_main; section_default_footer].

(** * Proofs *)

(** ** The loops compute with the segmentation *)

Lemma segment_unfold chars :
  segment chars =
  match chars with
  | [] => []
  | char :: rest =>
      match rest with
      | nextChar :: rest2 =>
          if is_cp VS16 nextChar then
            match rest2 with
            | thirdChar :: rest3 =>
                if is_cp KEYCAP thirdChar
                then Keycap char nextChar thirdChar :: segment rest3
                else Selector char nextChar :: segment rest2
            | [] => Selector char nextChar :: segment rest2
            end
          else Single char :: segment rest
      | [] => [Single char]
      end
  end.
Proof. destruct chars; reflexivity. Qed.

Lemma segment_next char rest :
  segment (char :: rest)
  = (next_cluster char rest).1 :: segment (next_cluster char rest).2.
Proof.
  rewrite (segment_unfold (char :: rest)). unfold next_cluster.
  destruct rest as [|nextChar [|thirdChar rest3]]; lazy beta iota;
    repeat case_match; reflexivity.
Qed.

Lemma next_cluster_rest char rest :
  (next_cluster char rest).2
  = drop (length (cluster_chars (next_cluster char rest).1) - 1) rest.
Proof.
  destruct rest as [|nextChar [|thirdChar rest3]]; cbn [next_cluster];
    repeat case_match; reflexivity.
Qed.

Lemma cluster_chars_length c : (1 <= length (cluster_chars c) <= 3)%nat.
Proof. destruct c; simpl; lia. Qed.

Lemma drop_cons_lookups {A} (l : list A) i x rest :
  drop i l = x :: rest ->
  l !! i = Some x /\ l !! (i + 1)%nat = rest !! 0%nat
  /\ l !! (i + 2)%nat = rest !! 1%nat /\ (i < length l)%nat.
Proof.
  intros Hd.
  assert (Hk : forall k, l !! (i + k)%nat = (x :: rest) !! k).
  { intros k. rewrite <- Hd. symmetry. apply lookup_drop. }
  pose proof (Hk 0%nat) as H0. rewrite Nat.add_0_r in H0.
  repeat split.
  - exact H0.
  - exact (Hk 1%nat).
  - exact (Hk 2%nat).
  - apply lookup_lt_is_Some. exists x. exact H0.
Qed.

(** ** Code points: [spread] *)

Lemma spread_unfold text :
  spread text =
  match text with
  | [] => []
  | u :: rest =>
      match rest with
      | v :: rest' =>
          if is_high_surrogate u && is_low_surrogate v
          then [u; v] :: spread rest'
          else [u] :: spread rest
      | [] => [[u]]
      end
  end.
Proof. destruct text; reflexivity. Qed.

(** Induction along the recursion of [spread]. *)
Lemma spread_ind (P : jsstring -> Prop) :
  P [] ->
  (forall u, P [u]) ->
  (forall u v rest,
      is_high_surrogate u && is_low_surrogate v = true -> P rest -> P (u :: v :: rest)) ->
  (forall u v rest,
      is_high_surrogate u && is_low_surrogate v = false -> P (v :: rest) -> P (u :: v :: rest)) ->
  forall text, P text.
Proof.
  intros Hnil Hone Hpair Hsingle text.
  assert (H : P text /\ forall u, P (u :: text)); [|tauto].
  induction text as [|v rest [IH1 IH2]]; [split; auto|].
  split; [apply IH2|]. intros u.
  destruct (is_high_surrogate u && is_low_surrogate v) eqn:E; auto.
Qed.

(** The first code unit of the first code point is the first code unit. *)
Lemma spread_head text :
  head (spread text) ≫= head = head text.
Proof.
  destruct text as [|u [|v rest]]; [reflexivity..|].
  rewrite spread_unfold. case_match; reflexivity.
Qed.

Lemma concat_spread text : concat (spread text) = text.
Proof.
  induction text as [| u | u v rest E IH | u v rest E IH] using spread_ind;
    [reflexivity..| |]; rewrite spread_unfold, E; cbn [concat app]; congruence.
Qed.

Lemma spread_app s t :
  not_low t -> spread (s ++ t) = spread s ++ spread t.
Proof.
  intros Ht.
  induction s as [| u | u v rest E IH | u v rest E IH] using spread_ind.
  - reflexivity.
  - cbn [app]. rewrite (spread_unfold (u :: t)).
    destruct t as [|v t']; [reflexivity|].
    cbn in Ht. rewrite Ht, andb_false_r. reflexivity.
  - cbn [app]. rewrite (spread_unfold (u :: v :: _)), E, IH.
    rewrite (spread_unfold (u :: v :: rest)), E. reflexivity.
  - cbn [app]. rewrite (spread_unfold (u :: v :: _)), E.
    change (v :: rest ++ t) with ((v :: rest) ++ t). rewrite IH.
    rewrite (spread_unfold (u :: v :: rest)), E. reflexivity.
Qed.

Lemma spread_cons_bmp u t :
  is_high_surrogate u = false -> spread (u :: t) = [u] :: spread t.
Proof.
  intros Hu. rewrite spread_unfold. destruct t as [|v t']; [reflexivity|].
  rewrite Hu. reflexivity.
Qed.

(** Taking whole code points from the front and reading them again gives
    the same code points. *)
Lemma spread_concat_take k text :
  spread (concat (take k (spread text))) = take k (spread text).
Proof.
  revert k.
  induction text as [| u | u v rest E IH | u v rest E IH] using spread_ind;
    intros k.
  - destruct k; reflexivity.
  - destruct k as [|k]; [reflexivity|]. cbn. destruct k; reflexivity.
  - rewrite (spread_unfold (u :: v :: rest)), E.
    destruct k as [|k]; [reflexivity|]. cbn [take concat app].
    rewrite spread_unfold, E, IH. reflexivity.
  - rewrite (spread_unfold (u :: v :: rest)), E.
    destruct k as [|k]; [reflexivity|]. cbn [take concat app].
    specialize (IH k). rewrite spread_unfold.
    destruct (concat (take k (spread (v :: rest)))) as [|v' t] eqn:Ec.
    + rewrite <- IH. reflexivity.
    + assert (v' = v) as ->.
      { pose proof (spread_head (v' :: t)) as Hh. rewrite IH in Hh.
        pose proof (spread_head (v :: rest)) as Hh'.
        destruct k as [|k]; [discriminate Ec|].
        destruct (spread (v :: rest)) as [|c cs]; [discriminate Ec|].
        cbn in Hh, Hh'. congruence. }
      rewrite E, IH. reflexivity.
Qed.

Lemma drop_cons_drop {A} (l : list A) i x rest k :
  drop i l = x :: rest -> drop (i + S k) l = drop k rest.
Proof. intros Hd. rewrite <- drop_drop, Hd. reflexivity. Qed.

(** ** Clusters: [segment] *)

(** Induction along the recursion of [segment]. *)
Lemma segment_ind (P : list jsstring -> Prop) :
  P [] ->
  (forall char rest, P (next_cluster char rest).2 -> P (char :: rest)) ->
  forall chars, P chars.
Proof.
  intros Hnil Hcons chars.
  assert (H : forall n chars, (length chars <= n)%nat -> P chars).
  { clear chars. induction n as [|n IH]; intros [|char rest] Hlen; auto.
    - simpl in Hlen. lia.
    - apply Hcons, IH. rewrite next_cluster_rest, length_drop.
      simpl in Hlen. lia. }
  apply (H (length chars)). lia.
Qed.

(** A code point after which a cluster boundary stays where it is: neither
    the variation selector nor the keycap mark. *)
Lemma next_cluster_app char rest ys :
  plain_start ys ->
  next_cluster char (rest ++ ys)
  = ((next_cluster char rest).1, (next_cluster char rest).2 ++ ys).
Proof.
  intros Hys. unfold next_cluster.
  destruct rest as [|nextChar [|thirdChar rest3]]; cbn [app].
  - destruct ys as [|y ys']; [reflexivity|]. destruct Hys as [-> _]. reflexivity.
  - destruct (is_cp VS16 nextChar); [|reflexivity].
    destruct ys as [|y ys']; [reflexivity|]. destruct Hys as [_ ->]. reflexivity.
  - repeat case_match; reflexivity.
Qed.

Lemma segment_app xs ys :
  plain_start ys -> segment (xs ++ ys) = segment xs ++ segment ys.
Proof.
  intros Hys. induction xs as [|char rest IH] using segment_ind; [reflexivity|].
  cbn [app]. rewrite !segment_next, next_cluster_app by assumption.
  cbn [fst snd]. rewrite IH. reflexivity.
Qed.

Lemma segment_cons_single char rest :
  match rest with [] => True | nextChar :: _ => is_cp VS16 nextChar = false end ->
  segment (char :: rest) = Single char :: segment rest.
Proof.
  intros H. rewrite segment_unfold. destruct rest as [|nextChar rest2]; [reflexivity|].
  rewrite H. reflexivity.
Qed.

(** The code points of a list of clusters. *)
Lemma segment_chars chars :
  concat (map cluster_chars (segment chars)) = chars.
Proof.
  induction chars as [|char rest IH] using segment_ind; [reflexivity|].
  rewrite segment_next. cbn [map concat]. rewrite IH. unfold next_cluster.
  destruct rest as [|nextChar [|thirdChar rest3]]; repeat case_match; reflexivity.
Qed.

Lemma next_cluster_first char rest :
  head (cluster_chars (next_cluster char rest).1) = Some char.
Proof.
  unfold next_cluster.
  destruct rest as [|nextChar [|thirdChar rest3]]; repeat case_match; reflexivity.
Qed.

(** The cluster found at [char] does not change when what follows it is
    replaced by something that starts the same way (or by nothing). *)
Lemma next_cluster_stable char rest ys :
  (ys = [] \/ head ys = head (next_cluster char rest).2) ->
  next_cluster char (tail (cluster_chars (next_cluster char rest).1) ++ ys)
  = ((next_cluster char rest).1, ys).
Proof.
  unfold next_cluster.
  destruct rest as [|nextChar [|thirdChar rest3]]; cbn -[is_cp].
  - intros [->|H]; [reflexivity|]. destruct ys; [reflexivity|discriminate].
  - destruct (is_cp VS16 nextChar) eqn:E; cbn -[is_cp].
    + rewrite E. intros [->|H]; [reflexivity|]. destruct ys; [reflexivity|discriminate].
    + intros [->|H]; [reflexivity|]. destruct ys as [|y ys']; [reflexivity|].
      cbn in H. injection H as ->. rewrite E. reflexivity.
  - destruct (is_cp VS16 nextChar) eqn:E; cbn -[is_cp].
    + destruct (is_cp KEYCAP thirdChar) eqn:E'; cbn -[is_cp]; rewrite E.
      * rewrite E'. reflexivity.
      * intros [->|H]; [reflexivity|]. destruct ys as [|y ys']; [reflexivity|].
        cbn in H. injection H as ->. rewrite E'. reflexivity.
    + intros [->|H]; [reflexivity|]. destruct ys as [|y ys']; [reflexivity|].
      cbn in H. injection H as ->. rewrite E. reflexivity.
Qed.

Lemma head_chars_take_segment k chars :
  let ys := concat (map cluster_chars (take k (segment chars))) in
  ys = [] \/ head ys = head chars.
Proof.
  destruct k as [|k]; [left; reflexivity|].
  destruct chars as [|char rest]; [left; reflexivity|]. right.
  rewrite segment_next. cbn [take map concat].
  pose proof (next_cluster_first char rest) as H.
  destruct (cluster_chars (next_cluster char rest).1); [discriminate|]. exact H.
Qed.

(** A prefix of the clusters of a text is the segmentation of its own
    code points: truncation at a cluster boundary never regroups them. *)
Lemma segment_take k chars :
  segment (concat (map cluster_chars (take k (segment chars))))
  = take k (segment chars).
Proof.
  revert chars. induction k as [|k IH]; intros chars; [reflexivity|].
  destruct chars as [|char rest]; [reflexivity|].
  rewrite segment_next. cbn [take map concat].
  pose proof (next_cluster_first char rest) as Hfirst.
  destruct (cluster_chars (next_cluster char rest).1) as [|c0 tl] eqn:Ecc;
    [discriminate|]. injection Hfirst as ->.
  cbn [app]. rewrite segment_next.
  pose proof (next_cluster_stable char rest
                (concat (map cluster_chars (take k (segment (next_cluster char rest).2))))
                (head_chars_take_segment k _)) as Hst.
  rewrite Ecc in Hst. cbn [tail] in Hst. rewrite Hst. cbn [fst snd].
  rewrite IH. reflexivity.
Qed.

(** The code points of a prefix of the clusters are a prefix of the code
    points. *)
Lemma chars_take_segment k chars :
  exists n, concat (map cluster_chars (take k (segment chars))) = take n chars.
Proof.
  set (p := concat (map cluster_chars (take k (segment chars)))).
  set (q := concat (map cluster_chars (drop k (segment chars)))).
  assert (H : p ++ q = chars).
  { unfold p, q. rewrite <- concat_app, <- map_app, take_drop. apply segment_chars. }
  exists (length p). clearbody p q. subst chars.
  rewrite take_app_length. reflexivity.
Qed.

Lemma texts_concat cs : texts cs = concat (concat (map cluster_chars cs)).
Proof.
  unfold texts, cluster_text. induction cs as [|c cs IH]; [reflexivity|].
  cbn [map concat]. rewrite concat_app, IH. reflexivity.
Qed.

(** The clusters of the text of a prefix of the clusters of [text]. *)
Lemma clusters_texts_take k text :
  clusters (texts (take k (clusters text))) = take k (clusters text).
Proof.
  unfold clusters. rewrite texts_concat.
  destruct (chars_take_segment k (spread text)) as [n Hn].
  rewrite Hn, spread_concat_take, <- Hn. apply segment_take.
Qed.

Section Loops.

Variable wcwidth : jsstring -> Z.
Variable EMOJI_CORRECTIONS : gmap jsstring Z.

Local Abbreviation cwidth := (clusterWidth wcwidth EMOJI_CORRECTIONS).
Local Abbreviation wsum := (widths_sum wcwidth EMOJI_CORRECTIONS).
Local Abbreviation fitW := (fit wcwidth EMOJI_CORRECTIONS).
Local Abbreviation gvw := (getVisualWidth wcwidth EMOJI_CORRECTIONS).
Local Abbreviation trunc := (truncateByVisualWidth wcwidth EMOJI_CORRECTIONS).
Local Abbreviation pad := (padText wcwidth EMOJI_CORRECTIONS).

Lemma getVisualWidth_body_cluster chars i totalWidth char rest :
  drop i chars = char :: rest ->
  getVisualWidth_body wcwidth EMOJI_CORRECTIONS chars i totalWidth
  = ((i + length (cluster_chars (next_cluster char rest).1))%nat,
     totalWidth + cwidth (next_cluster char rest).1).
Proof.
  intros Hd. destruct (drop_cons_lookups _ _ _ _ Hd) as (H0 & H1 & H2 & _).
  unfold getVisualWidth_body. rewrite H0, H1, H2.
  destruct rest as [|nextChar [|thirdChar rest3]];
    cbn -[is_code_point is_cp Z.add]; unfold is_cp.
  - destruct (EMOJI_CORRECTIONS !! char); reflexivity.
  - destruct (is_code_point VS16 (Some nextChar)); cbn -[Z.add].
    + rewrite ?app_nil_r. reflexivity.
    + destruct (EMOJI_CORRECTIONS !! char); reflexivity.
  - destruct (is_code_point VS16 (Some nextChar)); cbn -[is_code_point Z.add].
    + destruct (is_code_point KEYCAP (Some thirdChar)); cbn -[Z.add];
        rewrite ?app_nil_r, ?app_assoc; reflexivity.
    + destruct (EMOJI_CORRECTIONS !! char); reflexivity.
Qed.

Lemma getVisualWidth_loop_fuel fuel chars i totalWidth :
  (length chars - i <= fuel)%nat ->
  getVisualWidth_loop wcwidth EMOJI_CORRECTIONS fuel chars i totalWidth
  = totalWidth + wsum (segment (drop i chars)).
Proof.
  revert i totalWidth. induction fuel as [|fuel IH]; intros i totalWidth Hfuel.
  - rewrite drop_ge by lia. cbn. lia.
  - cbn [getVisualWidth_loop]. destruct (decide (i < length chars)%nat) as [Hi|Hi].
    + destruct (drop i chars) as [|char rest] eqn:Hd.
      { apply (f_equal length) in Hd. rewrite length_drop in Hd. simpl in Hd. lia. }
      rewrite (getVisualWidth_body_cluster _ _ _ _ _ Hd).
      pose proof (cluster_chars_length (next_cluster char rest).1) as Hlen.
      rewrite IH by lia. rewrite segment_next. cbn [widths_sum foldr].
      rewrite next_cluster_rest.
      replace (i + length (cluster_chars (next_cluster char rest).1))%nat
        with (i + S (length (cluster_chars (next_cluster char rest).1) - 1))%nat by lia.
      rewrite (drop_cons_drop _ _ _ _ _ Hd). unfold widths_sum. lia.
    + rewrite drop_ge by lia. cbn. lia.
Qed.

(** The visual width of a string is the sum of the widths of its clusters. *)
Lemma getVisualWidth_clusters text :
  gvw text = wsum (clusters text).
Proof.
  unfold getVisualWidth, clusters.
  destruct text as [|u rest]; [reflexivity|].
  rewrite getVisualWidth_loop_fuel by lia. rewrite drop_0. lia.
Qed.

Lemma truncate_body_cluster chars i char rest :
  drop i chars = char :: rest ->
  truncate_body wcwidth EMOJI_CORRECTIONS chars i
  = (cwidth (next_cluster char rest).1, cluster_text (next_cluster char rest).1,
     (i + (length (cluster_chars (next_cluster char rest).1) - 1))%nat).
Proof.
  intros Hd. destruct (drop_cons_lookups _ _ _ _ Hd) as (H0 & H1 & H2 & _).
  unfold truncate_body. rewrite H0, H1, H2. unfold cluster_text.
  destruct rest as [|nextChar [|thirdChar rest3]];
    cbn -[is_code_point is_cp Z.add]; unfold is_cp.
  - rewrite Nat.add_0_r, app_nil_r. destruct (EMOJI_CORRECTIONS !! char); reflexivity.
  - destruct (is_code_point VS16 (Some nextChar)); cbn -[Z.add].
    + rewrite ?app_nil_r. reflexivity.
    + rewrite Nat.add_0_r, app_nil_r. destruct (EMOJI_CORRECTIONS !! char); reflexivity.
  - destruct (is_code_point VS16 (Some nextChar)); cbn -[is_code_point Z.add].
    + destruct (is_code_point KEYCAP (Some thirdChar)); cbn -[Z.add];
        rewrite ?app_nil_r, ?app_assoc; reflexivity.
    + rewrite Nat.add_0_r, app_nil_r. destruct (EMOJI_CORRECTIONS !! char); reflexivity.
Qed.

Lemma truncate_loop_fuel fuel chars maxWidth i result currentWidth :
  (length chars - i <= fuel)%nat ->
  truncate_loop wcwidth EMOJI_CORRECTIONS fuel chars maxWidth i result currentWidth
  = result ++ texts (fitW maxWidth currentWidth (segment (drop i chars))).
Proof.
  revert i result currentWidth.
  induction fuel as [|fuel IH]; intros i result currentWidth Hfuel.
  - rewrite drop_ge by lia. cbn. rewrite app_nil_r. reflexivity.
  - cbn [truncate_loop]. destruct (decide (i < length chars)%nat) as [Hi|Hi].
    + destruct (drop i chars) as [|char rest] eqn:Hd.
      { apply (f_equal length) in Hd. rewrite length_drop in Hd. simpl in Hd. lia. }
      rewrite (truncate_body_cluster _ _ _ _ Hd).
      pose proof (cluster_chars_length (next_cluster char rest).1) as Hlen.
      rewrite segment_next. cbn [fit].
      destruct (currentWidth + cwidth (next_cluster char rest).1 >? maxWidth).
      * cbn. rewrite app_nil_r. reflexivity.
      * rewrite IH by lia. rewrite next_cluster_rest.
        replace (i + (length (cluster_chars (next_cluster char rest).1) - 1) + 1)%nat
          with (i + S (length (cluster_chars (next_cluster char rest).1) - 1))%nat by lia.
        rewrite (drop_cons_drop _ _ _ _ _ Hd). unfold texts. cbn [map concat].
        rewrite app_assoc. reflexivity.
    + rewrite drop_ge by lia. cbn. rewrite app_nil_r. reflexivity.
Qed.

(** The truncation keeps the clusters that fit, in order, from the start. *)
Lemma truncateByVisualWidth_clusters text maxWidth :
  trunc text maxWidth = texts (fitW maxWidth 0 (clusters text)).
Proof.
  unfold truncateByVisualWidth, clusters.
  destruct text as [|u rest]; [reflexivity|].
  rewrite truncate_loop_fuel by lia. rewrite drop_0. reflexivity.
Qed.

End Loops.

(** ** Widths of concatenations *)

Lemma codePointAt0_pair_large u v :
  is_high_surrogate u && is_low_surrogate v = true ->
  0x10000 <= 0x10000 + (u - 0xD800) * 0x400 + (v - 0xDC00).
Proof. unfold is_high_surrogate, is_low_surrogate. lia. Qed.

(** The first code point of a string is a BMP code point [cp] only when the
    string starts with the code unit [cp]. *)
Lemma is_cp_spread_head cp text :
  cp < 0x10000 -> head text <> Some cp ->
  match spread text with [] => True | c :: _ => is_cp cp c = false end.
Proof.
  intros Hcp Hhead. destruct text as [|u [|v rest]]; [exact I| |].
  - cbn. apply bool_decide_eq_false. cbn in Hhead. congruence.
  - rewrite spread_unfold. destruct (is_high_surrogate u && is_low_surrogate v) eqn:E.
    + unfold is_cp, is_code_point, codePointAt0. rewrite E.
      apply bool_decide_eq_false. pose proof (codePointAt0_pair_large u v E).
      intros [= Heq]. lia.
    + cbn. apply bool_decide_eq_false. cbn in Hhead. congruence.
Qed.

Lemma plain_start_spread text :
  head text <> Some VS16 -> head text <> Some KEYCAP -> plain_start (spread text).
Proof.
  intros H1 H2.
  pose proof (is_cp_spread_head VS16 text ltac:(reflexivity) H1) as H1'.
  pose proof (is_cp_spread_head KEYCAP text ltac:(reflexivity) H2) as H2'.
  unfold plain_start. destruct (spread text); auto.
Qed.

Lemma concat_replicate_singleton {A} n (x : A) :
  concat (replicate n [x]) = replicate n x.
Proof. induction n as [|n IH]; [reflexivity|]. cbn. congruence. Qed.

Lemma js_repeat_unit u count :
  0 <= count -> js_repeat [u] count = Normal (replicate (Z.to_nat count) u).
Proof.
  intros H. unfold js_repeat. destruct (Z.ltb_spec count 0); [lia|].
  rewrite concat_replicate_singleton. reflexivity.
Qed.

Lemma js_repeat_unit_max u n :
  js_repeat [u] (Z.max 0 n) = Normal (replicate (Z.to_nat n) u).
Proof.
  rewrite js_repeat_unit by lia. do 2 f_equal. lia.
Qed.

Lemma bmp_SPACE : bmp SPACE.
Proof. split; reflexivity. Qed.

Section Width.

Variable wcwidth : jsstring -> Z.
Variable EMOJI_CORRECTIONS : gmap jsstring Z.

Local Abbreviation cwidth := (clusterWidth wcwidth EMOJI_CORRECTIONS).
Local Abbreviation wsum := (widths_sum wcwidth EMOJI_CORRECTIONS).
Local Abbreviation fitW := (fit wcwidth EMOJI_CORRECTIONS).
Local Abbreviation gvw := (getVisualWidth wcwidth EMOJI_CORRECTIONS).
Local Abbreviation trunc := (truncateByVisualWidth wcwidth EMOJI_CORRECTIONS).
Local Abbreviation pad := (padText wcwidth EMOJI_CORRECTIONS).

Lemma widths_sum_app cs1 cs2 : wsum (cs1 ++ cs2) = wsum cs1 + wsum cs2.
Proof.
  unfold widths_sum. induction cs1 as [|c cs1 IH]; cbn [app foldr]; lia.
Qed.

(** Placing [b] after [a] adds the widths when [b] starts with a code unit
    that joins nothing before it. *)
Lemma getVisualWidth_app a b :
  not_low b -> plain_start (spread b) -> gvw (a ++ b) = gvw a + gvw b.
Proof.
  intros Hlow Hplain. rewrite !getVisualWidth_clusters. unfold clusters.
  rewrite spread_app, segment_app, widths_sum_app by assumption. reflexivity.
Qed.

(** A BMP code unit in front of [b] is a cluster of its own unless [b]
    starts with the variation selector. *)
Lemma getVisualWidth_cons g b :
  is_high_surrogate g = false -> head b <> Some VS16 ->
  gvw (g :: b) = cwidth (Single [g]) + gvw b.
Proof.
  intros Hg Hb. rewrite !getVisualWidth_clusters. unfold clusters.
  rewrite spread_cons_bmp by assumption.
  rewrite segment_cons_single; [reflexivity|].
  apply (is_cp_spread_head VS16 b); [reflexivity|assumption].
Qed.

Lemma getVisualWidth_nil : gvw [] = 0.
Proof. reflexivity. Qed.

Lemma getVisualWidth_replicate_app n g text :
  is_high_surrogate g = false -> g <> VS16 -> head text <> Some VS16 ->
  gvw (replicate n g ++ text) = Z.of_nat n * cwidth (Single [g]) + gvw text.
Proof.
  intros Hg Hne Htext. induction n as [|n IH]; [cbn [replicate app]; lia|].
  cbn [replicate app]. rewrite getVisualWidth_cons, IH; [lia|assumption|].
  destruct n; cbn [replicate app]; [assumption|]. cbn. congruence.
Qed.

Lemma getVisualWidth_replicate n g :
  is_high_surrogate g = false -> g <> VS16 ->
  gvw (replicate n g) = Z.of_nat n * cwidth (Single [g]).
Proof.
  intros Hg Hne. rewrite <- (app_nil_r (replicate n g)).
  rewrite getVisualWidth_replicate_app; [cbn; lia|assumption..|discriminate].
Qed.

Lemma getVisualWidth_app_replicate text n g :
  bmp g -> g <> VS16 -> g <> KEYCAP ->
  gvw (text ++ replicate n g) = gvw text + Z.of_nat n * cwidth (Single [g]).
Proof.
  intros [Hh Hl] H1 H2. rewrite getVisualWidth_app.
  - rewrite getVisualWidth_replicate by assumption. reflexivity.
  - destruct n; [exact I|exact Hl].
  - apply plain_start_spread; destruct n; cbn; congruence.
Qed.

(** *** The clusters that fit *)

Lemma fit_take maxWidth currentWidth cs :
  exists k, fitW maxWidth currentWidth cs = take k cs.
Proof.
  revert currentWidth. induction cs as [|c cs IH]; intros currentWidth.
  - exists 0%nat. reflexivity.
  - cbn [fit]. destruct (currentWidth + cwidth c >? maxWidth).
    + exists 0%nat. reflexivity.
    + destruct (IH (currentWidth + cwidth c)) as [k Hk]. exists (S k).
      cbn [take]. congruence.
Qed.

Lemma fit_bound maxWidth currentWidth cs :
  currentWidth <= maxWidth ->
  currentWidth + wsum (fitW maxWidth currentWidth cs) <= maxWidth.
Proof.
  revert currentWidth. induction cs as [|c cs IH]; intros currentWidth Hle.
  - cbn. lia.
  - cbn [fit]. destruct (Z.gtb_spec (currentWidth + cwidth c) maxWidth) as [Hgt|Hgt].
    + cbn. lia.
    + specialize (IH _ Hgt). unfold widths_sum in *. cbn [foldr]. lia.
Qed.

Lemma fit_idempotent maxWidth currentWidth cs :
  fitW maxWidth currentWidth (fitW maxWidth currentWidth cs)
  = fitW maxWidth currentWidth cs.
Proof.
  revert currentWidth. induction cs as [|c cs IH]; intros currentWidth; [reflexivity|].
  cbn [fit]. destruct (currentWidth + cwidth c >? maxWidth) eqn:E; [reflexivity|].
  cbn [fit]. rewrite E, IH. reflexivity.
Qed.

(** The clusters of the truncated text are the clusters that were kept. *)
Lemma clusters_truncate text maxWidth :
  clusters (trunc text maxWidth) = fitW maxWidth 0 (clusters text).
Proof.
  rewrite truncateByVisualWidth_clusters.
  destruct (fit_take maxWidth 0 (clusters text)) as [k Hk].
  rewrite Hk. apply clusters_texts_take.
Qed.

Lemma truncate_idempotent text maxWidth :
  trunc (trunc text maxWidth) maxWidth = trunc text maxWidth.
Proof.
  rewrite (truncateByVisualWidth_clusters _ _ (trunc text maxWidth)).
  rewrite clusters_truncate, fit_idempotent.
  symmetry. apply truncateByVisualWidth_clusters.
Qed.

(** *** Padding *)

Lemma padText_fits text targetWidth align :
  gvw text <= targetWidth ->
  pad text targetWidth align =
  Normal
    (let padding := targetWidth - gvw text in
     match align with
     | AlignRight => replicate (Z.to_nat padding) SPACE ++ text
     | AlignCenter =>
         replicate (Z.to_nat (padding / 2)) SPACE ++ text
           ++ replicate (Z.to_nat (padding - padding / 2)) SPACE
     | AlignLeft => text ++ replicate (Z.to_nat padding) SPACE
     end).
Proof.
  intros Hle. unfold padText.
  destruct (Z.ltb_spec (targetWidth - gvw text) 0) as [Hlt|Hge]; [lia|].
  assert (0 <= (targetWidth - gvw text) / 2) by (apply Z.div_pos; lia).
  assert ((targetWidth - gvw text) / 2 <= targetWidth - gvw text)
    by (apply Z.div_le_upper_bound; lia).
  destruct align; rewrite !js_repeat_unit by lia; reflexivity.
Qed.

Lemma padText_over text targetWidth align :
  targetWidth < gvw text ->
  pad text targetWidth align =
  Normal (trunc text targetWidth
            ++ replicate (Z.to_nat (targetWidth - gvw (trunc text targetWidth))) SPACE).
Proof.
  intros Hlt. unfold padText.
  destruct (Z.ltb_spec (targetWidth - gvw text) 0) as [_|Hge]; [|lia].
  rewrite js_repeat_unit_max. reflexivity.
Qed.

(** [padText] never throws. *)
Lemma padText_total text targetWidth align :
  exists padded, pad text targetWidth align = Normal padded.
Proof.
  destruct (Z.le_gt_cases (gvw text) targetWidth) as [H|H].
  - rewrite padText_fits by assumption. eauto.
  - rewrite padText_over by lia. eauto.
Qed.

Lemma getVisualWidth_truncate text maxWidth :
  gvw (trunc text maxWidth) = wsum (fitW maxWidth 0 (clusters text)).
Proof. rewrite getVisualWidth_clusters, clusters_truncate. reflexivity. Qed.

Lemma getVisualWidth_truncate_le text maxWidth :
  0 <= maxWidth -> gvw (trunc text maxWidth) <= maxWidth.
Proof.
  intros H. rewrite getVisualWidth_truncate.
  pose proof (fit_bound maxWidth 0 (clusters text) H). lia.
Qed.

Section SpaceOneColumn.

Hypothesis Hspace : space_is_one_column wcwidth EMOJI_CORRECTIONS.

Lemma getVisualWidth_app_spaces text n :
  gvw (text ++ replicate n SPACE) = gvw text + Z.of_nat n.
Proof.
  rewrite getVisualWidth_app_replicate;
    [|exact bmp_SPACE|discriminate|discriminate].
  unfold space_is_one_column in Hspace. rewrite Hspace. lia.
Qed.

Lemma getVisualWidth_spaces_app n text :
  head text <> Some VS16 ->
  gvw (replicate n SPACE ++ text) = Z.of_nat n + gvw text.
Proof.
  intros H. rewrite getVisualWidth_replicate_app;
    [|reflexivity|discriminate|assumption].
  unfold space_is_one_column in Hspace. rewrite Hspace. lia.
Qed.

(** A text wider than the target is cut and filled up to the target. *)
Lemma padText_over_width text targetWidth align padded :
  targetWidth < gvw text ->
  pad text targetWidth align = Normal padded ->
  gvw padded = Z.max targetWidth (gvw (trunc text targetWidth)).
Proof.
  intros Hlt. rewrite padText_over by assumption. intros [= <-].
  rewrite getVisualWidth_app_spaces. lia.
Qed.

Lemma padText_left_width text targetWidth padded :
  gvw text <= targetWidth ->
  pad text targetWidth AlignLeft = Normal padded ->
  gvw padded = targetWidth.
Proof.
  intros Hle. rewrite padText_fits by assumption. intros [= <-].
  rewrite getVisualWidth_app_spaces. lia.
Qed.

(** Padding to the left reaches the target width exactly. *)
Lemma padText_left_exact text targetWidth padded :
  0 <= targetWidth ->
  pad text targetWidth AlignLeft = Normal padded ->
  gvw padded = targetWidth.
Proof.
  intros Hw Hp. destruct (Z.le_gt_cases (gvw text) targetWidth) as [Hle|Hgt].
  - eapply padText_left_width; eassumption.
  - rewrite (padText_over_width _ _ _ _ Hgt Hp).
    pose proof (getVisualWidth_truncate_le text targetWidth Hw). lia.
Qed.

(** C1 (amended).  For every text and every target width [w >= 0], padding
    returns a string of visual width exactly [w] when the alignment is left,
    and for the right and centre alignments when the text does not begin
    with U+FE0F (a space put in front of such a text forms one cluster with
    the selector).  This covers the case [width(text) > w], where the text
    is cut at a cluster boundary and the deficit is filled with spaces.  The
    environment is the one in which a space takes one column. *)
Theorem padText_exact_width text targetWidth align :
  0 <= targetWidth ->
  align = AlignLeft \/ head text <> Some VS16 ->
  exists padded,
    padText wcwidth EMOJI_CORRECTIONS text targetWidth align = Normal padded
    /\ getVisualWidth wcwidth EMOJI_CORRECTIONS padded = targetWidth.
Proof.
  intros Hw Hal.
  destruct (padText_total text targetWidth align) as [padded Hp].
  exists padded. split; [assumption|].
  destruct (Z.le_gt_cases (gvw text) targetWidth) as [Hle|Hgt].
  - assert (0 <= (targetWidth - gvw text) / 2) by (apply Z.div_pos; lia).
    assert ((targetWidth - gvw text) / 2 <= targetWidth - gvw text)
      by (apply Z.div_le_upper_bound; lia).
    destruct align.
    + eapply padText_left_width; eassumption.
    + destruct Hal as [|Hhead]; [discriminate|].
      rewrite padText_fits in Hp by assumption. injection Hp as <-.
      cbv zeta. rewrite getVisualWidth_spaces_app by assumption. lia.
    + destruct Hal as [|Hhead]; [discriminate|].
      rewrite padText_fits in Hp by assumption. injection Hp as <-.
      cbv zeta. rewrite getVisualWidth_spaces_app, getVisualWidth_app_spaces; [lia|].
      destruct text; [|assumption].
      destruct (Z.to_nat _); cbn; unfold SPACE, VS16; congruence.
  - rewrite (padText_over_width _ _ _ _ Hgt Hp).
    pose proof (getVisualWidth_truncate_le text targetWidth Hw). lia.
Qed.


End SpaceOneColumn.

(** C4 (amended).  For every string and every maximal width [w >= 0] the
    truncated string has visual width at most [w]; for every [w], negative
    or not, the truncated string is the text of a prefix of the grapheme
    clusters of the string, and it segments into exactly these clusters:
    no cluster of two or three code points is split. *)
Theorem truncateByVisualWidth_whole_clusters text maxWidth :
  (0 <= maxWidth ->
   getVisualWidth wcwidth EMOJI_CORRECTIONS
     (truncateByVisualWidth wcwidth EMOJI_CORRECTIONS text maxWidth) <= maxWidth)
  /\ exists k,
      truncateByVisualWidth wcwidth EMOJI_CORRECTIONS text maxWidth
      = texts (take k (clusters text))
      /\ clusters (truncateByVisualWidth wcwidth EMOJI_CORRECTIONS text maxWidth)
         = take k (clusters text).
Proof.
  split; [apply getVisualWidth_truncate_le|].
  destruct (fit_take maxWidth 0 (clusters text)) as [k Hk]. exists k.
  rewrite clusters_truncate, truncateByVisualWidth_clusters, Hk. auto.
Qed.

Lemma widths_sum_nonneg cs :
  Forall (fun c => 0 <= cwidth c) cs -> 0 <= wsum cs.
Proof.
  intros Hall. unfold widths_sum.
  induction Hall as [|c cs Hc _ IH]; cbn [foldr]; lia.
Qed.


(** With a base width function that is never negative and a table without
    negative corrections, every cluster has a non-negative width. *)
Lemma clusterWidth_nonneg c :
  (forall s, 0 <= wcwidth s) ->
  map_Forall (fun _ correction => 0 <= correction) EMOJI_CORRECTIONS ->
  0 <= cwidth c.
Proof.
  intros Hwc Htbl. unfold clusterWidth.
  destruct c as [char|char nextChar|char nextChar thirdChar].
  - destruct (EMOJI_CORRECTIONS !! char) eqn:E.
    + pose proof (Htbl _ _ E). pose proof (Hwc char). cbn in *. lia.
    + apply Hwc.
  - destruct (EMOJI_CORRECTIONS !! cluster_text _) eqn:E; cbn [default].
    + pose proof (Htbl _ _ E). pose proof (Hwc (cluster_text (Selector char nextChar))).
      cbn in *. lia.
    + pose proof (Hwc (cluster_text (Selector char nextChar))). lia.
  - destruct (EMOJI_CORRECTIONS !! cluster_text _) eqn:E; cbn [default].
    + pose proof (Htbl _ _ E).
      pose proof (Hwc (cluster_text (Keycap char nextChar thirdChar))). cbn in *. lia.
    + pose proof (Hwc (cluster_text (Keycap char nextChar thirdChar))). lia.
Qed.

Lemma getVisualWidth_nonneg_table text :
  (forall s, 0 <= wcwidth s) ->
  map_Forall (fun _ correction => 0 <= correction) EMOJI_CORRECTIONS ->
  0 <= gvw text.
Proof.
  intros Hwc Htbl. rewrite getVisualWidth_clusters. apply widths_sum_nonneg.
  apply Forall_forall. intros c _. apply clusterWidth_nonneg; assumption.
Qed.

(** C7 (amended).  Where the walk of the width model stands on a variation
    selector or a keycap mark (so that no base before it has taken it), and
    the next code point is not U+FE0F, the loop takes this single code point
    as a cluster and advances by one, consuming nothing after it; at the
    start of a string this reads: the mark is a cluster of its own and the
    rest of the string is segmented as it is alone. *)
Theorem lone_mark_is_single_cluster mark :
  mark = VS16 \/ mark = KEYCAP ->
  (forall chars i totalWidth,
      chars !! i = Some [mark] ->
      is_code_point VS16 (chars !! (i + 1)%nat) = false ->
      getVisualWidth_body wcwidth EMOJI_CORRECTIONS chars i totalWidth
      = ((i + 1)%nat,
         totalWidth + clusterWidth wcwidth EMOJI_CORRECTIONS (Single [mark])))
  /\ (forall rest,
        head rest <> Some VS16 ->
        clusters (mark :: rest) = Single [mark] :: clusters rest
        /\ getVisualWidth wcwidth EMOJI_CORRECTIONS (mark :: rest)
           = clusterWidth wcwidth EMOJI_CORRECTIONS (Single [mark])
             + getVisualWidth wcwidth EMOJI_CORRECTIONS rest).
Proof.
  intros Hmark. split.
  - intros chars i totalWidth Hi Hnext. unfold getVisualWidth_body.
    rewrite Hi, Hnext. cbn -[Z.add].
    destruct (EMOJI_CORRECTIONS !! [mark]); reflexivity.
  - intros rest Hrest.
    assert (Hh : is_high_surrogate mark = false) by (destruct Hmark; subst; reflexivity).
    split; [|apply getVisualWidth_cons; assumption].
    unfold clusters. rewrite spread_cons_bmp by assumption.
    apply segment_cons_single.
    apply (is_cp_spread_head VS16 rest); [reflexivity|assumption].
Qed.

End Width.

(** ** Loops over arrays *)

Lemma mapC_Normal {A B} (f : A -> completion B) (g : A -> B) xs :
  (forall x, x ∈ xs -> f x = Normal (g x)) -> mapC f xs = Normal (map g xs).
Proof.
  induction xs as [|x xs IH]; intros Hf; [reflexivity|].
  cbn [mapC map]. rewrite (Hf x) by left. cbn.
  rewrite IH by (intros y Hy; apply Hf; right; exact Hy). reflexivity.
Qed.

Lemma mapC_total {A B} (f : A -> completion B) xs :
  (forall x, x ∈ xs -> exists y, f x = Normal y) ->
  exists ys, mapC f xs = Normal ys
             /\ Forall2 (fun x y => f x = Normal y) xs ys.
Proof.
  induction xs as [|x xs IH]; intros Hf.
  - exists []. split; [reflexivity|constructor].
  - destruct (Hf x ltac:(left)) as [y Hy].
    destruct IH as (ys & Hys & Hall); [intros z Hz; apply Hf; right; exact Hz|].
    exists (y :: ys). cbn [mapC]. rewrite Hy. cbn. rewrite Hys. cbn.
    split; [reflexivity|constructor; assumption].
Qed.

Lemma mapiC_from_total {A B} (f : A -> nat -> completion B) i0 xs :
  (forall x i, exists y, f x i = Normal y) ->
  exists ys, mapiC_from f i0 xs = Normal ys
             /\ length ys = length xs
             /\ forall i x, xs !! i = Some x ->
                   exists y, ys !! i = Some y /\ f x (i0 + i)%nat = Normal y.
Proof.
  intros Hf. revert i0. induction xs as [|x xs IH]; intros i0.
  - exists []. split; [reflexivity|]. split; [reflexivity|].
    intros i x H. discriminate.
  - destruct (Hf x i0) as [y Hy]. destruct (IH (S i0)) as (ys & Hys & Hlen & Hat).
    exists (y :: ys). cbn [mapiC_from]. rewrite Hy. cbn. rewrite Hys. cbn.
    split; [reflexivity|]. split; [cbn; lia|].
    intros [|i] x' Hx'.
    + injection Hx' as <-. exists y. rewrite Nat.add_0_r. auto.
    + destruct (Hat i x' Hx') as (y' & Hy' & Hfy'). exists y'.
      replace (i0 + S i)%nat with (S i0 + i)%nat by lia. auto.
Qed.

(** A [for ... of] loop that appends one piece to a string per element. *)
Lemma forOfC_append {A} (f : A -> completion jsstring) (g : jsstring -> jsstring)
    xs (acc : jsstring) :
  forOfC (fun acc x => cell ← f x; mret (acc ++ g cell)) xs acc
  = (cells ← mapC f xs; mret (acc ++ concat (map g cells))).
Proof.
  revert acc. induction xs as [|x xs IH]; intros acc.
  - cbn. rewrite app_nil_r. reflexivity.
  - cbn [forOfC mapC]. destruct (f x) as [cell|e]; cbn; [|reflexivity].
    rewrite IH. destruct (mapC f xs) as [cells|e]; cbn; [|reflexivity].
    rewrite app_assoc. reflexivity.
Qed.

(** Joining rows with a separator, seen as rows that end with it. *)
Lemma js_join_snoc sep rows last :
  js_join sep (rows ++ [last]) = concat (map (fun r => r ++ sep) rows) ++ last.
Proof.
  induction rows as [|r rows IH]; [reflexivity|].
  cbn [app map concat]. rewrite <- !app_assoc, <- IH.
  destruct rows; reflexivity.
Qed.

Section TableRow.

Variable wcwidth : jsstring -> Z.
Variable EMOJI_CORRECTIONS : gmap jsstring Z.

Local Abbreviation pad := (padText wcwidth EMOJI_CORRECTIONS).


Lemma createTableRow_cells (columns : list jsstring) (widths : list Z) :
  exists cells,
    mapiC_from (fun col i => pad col (js_or_num (widths !! i) 10) AlignLeft) 0 columns
    = Normal cells
    /\ length cells = length columns
    /\ forall i col,
         columns !! i = Some col ->
         exists cell,
           cells !! i = Some cell
           /\ pad col (js_or_num (widths !! i) 10) AlignLeft = Normal cell.
Proof. apply mapiC_from_total. intros col i. apply padText_total. Qed.

Lemma createTableRow_total columns widths :
  exists row, createTableRow wcwidth EMOJI_CORRECTIONS columns widths = Normal row.
Proof.
  unfold createTableRow.
  destruct (createTableRow_cells columns widths) as (cells & -> & _). eauto.
Qed.


End TableRow.

(** ** Boxes *)

Lemma head_app_ne {A} (x y : list A) (a : A) :
  head x <> Some a -> (x = [] -> head y <> Some a) -> head (x ++ y) <> Some a.
Proof. destruct x; cbn; auto. Qed.

Lemma head_prefix_ne {A} (x y : list A) (a : A) :
  x `prefix_of` y -> head y <> Some a -> head x <> Some a.
Proof.
  intros [k ->]. destruct x; cbn; [discriminate|auto].
Qed.

(** Side conditions of the width lemmas on strings built from glyphs. *)
Ltac glyph_side :=
  lazymatch goal with
  | |- _ ∈ _ => set_unfold; auto 10
  | |- not_low _ => reflexivity
  | |- plain_start _ => apply plain_start_spread; discriminate
  | |- head _ <> _ =>
      try match goal with
          | |- context [replicate ?n _] => destruct n
          end;
      cbn;
      repeat (apply head_app_ne; [|intros _]);
      try assumption;
      cbn; unfold SPACE, DASH, VBAR, VS16; try discriminate
  end.

Section Box.

Variable wcwidth : jsstring -> Z.
Variable EMOJI_CORRECTIONS : gmap jsstring Z.

Local Abbreviation cwidth := (clusterWidth wcwidth EMOJI_CORRECTIONS).
Local Abbreviation gvw := (getVisualWidth wcwidth EMOJI_CORRECTIONS).
Local Abbreviation trunc := (truncateByVisualWidth wcwidth EMOJI_CORRECTIONS).
Local Abbreviation pad := (padText wcwidth EMOJI_CORRECTIONS).

(** The truncated text is a prefix of the text. *)
Lemma truncate_prefix text maxWidth : trunc text maxWidth `prefix_of` text.
Proof.
  rewrite truncateByVisualWidth_clusters.
  destruct (fit_take wcwidth EMOJI_CORRECTIONS maxWidth 0 (clusters text)) as [k ->].
  rewrite texts_concat. unfold clusters.
  destruct (chars_take_segment k (spread text)) as [n ->].
  exists (concat (drop n (spread text))).
  rewrite <- concat_app, take_drop, concat_spread. reflexivity.
Qed.

Lemma padText_left_head text targetWidth cell :
  pad text targetWidth AlignLeft = Normal cell ->
  head text <> Some VS16 -> head cell <> Some VS16.
Proof.
  intros Hp Hhead.
  destruct (Z.le_gt_cases (gvw text) targetWidth) as [Hle|Hgt].
  - rewrite padText_fits in Hp by assumption. injection Hp as <-. cbv zeta.
    apply head_app_ne; [assumption|]. intros _.
    destruct (Z.to_nat _); cbn; unfold SPACE, VS16; congruence.
  - rewrite padText_over in Hp by assumption. injection Hp as <-.
    apply head_app_ne; [eapply head_prefix_ne; [apply truncate_prefix|assumption]|].
    intros _. destruct (Z.to_nat _); cbn; unfold SPACE, VS16; congruence.
Qed.

(** The rows that the loop over the content lines appends. *)
Lemma box_rows_loop lines innerWidth result :
  forOfC (fun result line =>
            cell ← pad line innerWidth AlignLeft;
            mret (result ++ [VBAR; SPACE] ++ cell ++ [SPACE; VBAR; NEWLINE]))
         lines result
  = (cells ← mapC (fun line => pad line innerWidth AlignLeft) lines;
     mret (result ++ concat (map (fun cell => box_row cell ++ [NEWLINE]) cells))).
Proof.
  pose proof (forOfC_append (fun line => pad line innerWidth AlignLeft)
                (fun cell => [VBAR; SPACE] ++ cell ++ [SPACE; VBAR; NEWLINE])
                lines result) as H.
  cbv beta in H. rewrite H.
  destruct (mapC _ lines) as [cells|e]; [|reflexivity]. cbn.
  do 3 f_equal. apply map_ext. intros cell. unfold box_row.
  rewrite <- !app_assoc. reflexivity.
Qed.

Lemma padText_cells lines innerWidth :
  exists cells,
    mapC (fun line => pad line innerWidth AlignLeft) lines = Normal cells
    /\ Forall2 (fun line cell => pad line innerWidth AlignLeft = Normal cell) lines cells.
Proof. apply mapC_total. intros line _. apply padText_total. Qed.

(** The shape of a box: it needs [width >= 2], else the bottom border has
    a negative length and [repeat] throws. *)
Lemma createBox_shape title lines width :
  2 <= width ->
  exists cells,
    Forall2 (fun line cell => pad line (width - 4) AlignLeft = Normal cell) lines cells
    /\ createBox wcwidth EMOJI_CORRECTIONS title lines width
       = Normal (js_join [NEWLINE]
                   ((box_top title (Z.to_nat (Z.max 0 (width - 5 - gvw title)))
                     :: map box_row cells)
                    ++ [box_bottom (Z.to_nat (width - 2))])).
Proof.
  intros Hw. destruct (padText_cells lines (width - 4)) as (cells & Hcells & Hall).
  exists cells. split; [assumption|]. unfold createBox.
  rewrite js_repeat_unit_max. cbn [mbind completion_bind].
  rewrite box_rows_loop, Hcells. cbn [mbind completion_bind mret completion_ret].
  rewrite js_repeat_unit by lia. cbn [mbind completion_bind mret completion_ret].
  f_equal. rewrite js_join_snoc. cbn [map concat]. unfold box_top, box_bottom.
  replace (width - 2 - gvw title - 3) with (width - 5 - gvw title) by lia.
  replace (Z.to_nat (Z.max 0 (width - 5 - gvw title)))
    with (Z.to_nat (width - 5 - gvw title)) by lia.
  rewrite <- !app_assoc, map_map. reflexivity.
Qed.

Section OneColumnGlyphs.

Hypothesis Hglyphs : box_glyphs_one_column wcwidth EMOJI_CORRECTIONS.

Lemma glyph_width g :
  g ∈ [SPACE; DASH; VBAR; 0x250C; 0x2510; 0x2514; 0x2518] -> cwidth (Single [g]) = 1.
Proof.
  intros Hin. unfold box_glyphs_one_column in Hglyphs.
  rewrite Forall_forall in Hglyphs. apply (Hglyphs g Hin).
Qed.

Lemma space_one_column : space_is_one_column wcwidth EMOJI_CORRECTIONS.
Proof. apply glyph_width. left. Qed.

Lemma getVisualWidth_glyph_cons g b :
  g ∈ [SPACE; DASH; VBAR; 0x250C; 0x2510; 0x2514; 0x2518] ->
  head b <> Some VS16 ->
  gvw (g :: b) = 1 + gvw b.
Proof.
  intros Hin Hb. rewrite getVisualWidth_cons, glyph_width by
    (try assumption; set_unfold in Hin; intuition (subst; reflexivity)).
  reflexivity.
Qed.





End OneColumnGlyphs.



End Box.

(** ** Lines *)

Lemma split_lines_nonempty s : split_lines s <> [].
Proof.
  induction s as [|u rest IH]; [discriminate|]. cbn [split_lines].
  destruct (u =? NEWLINE); [discriminate|].
  destruct (split_lines rest); discriminate.
Qed.

Lemma split_lines_app_newline a rest :
  NEWLINE ∉ a -> split_lines (a ++ NEWLINE :: rest) = a :: split_lines rest.
Proof.
  induction a as [|u a IH]; intros Hnl; [reflexivity|].
  cbn [app split_lines]. destruct (Z.eqb_spec u NEWLINE) as [->|Hne].
  - exfalso. apply Hnl. left.
  - rewrite IH; [reflexivity|]. intros Hin. apply Hnl. right. exact Hin.
Qed.

Lemma split_lines_one_line a : NEWLINE ∉ a -> split_lines a = [a].
Proof.
  induction a as [|u a IH]; intros Hnl; [reflexivity|].
  cbn [split_lines]. destruct (Z.eqb_spec u NEWLINE) as [->|Hne].
  - exfalso. apply Hnl. left.
  - rewrite IH; [reflexivity|]. intros Hin. apply Hnl. right. exact Hin.
Qed.

(** No line of a split string holds a line feed. *)
Lemma split_lines_no_newline s : Forall (fun line => NEWLINE ∉ line) (split_lines s).
Proof.
  induction s as [|u rest IH]; [repeat constructor; apply not_elem_of_nil|].
  cbn [split_lines]. destruct (Z.eqb_spec u NEWLINE) as [->|Hne].
  - constructor; [apply not_elem_of_nil|assumption].
  - destruct (split_lines rest) as [|l ls].
    + repeat constructor. apply not_elem_of_cons. split; [congruence|apply not_elem_of_nil].
    + inversion IH as [|? ? Hl Hls]; subst.
      constructor; [|assumption]. apply not_elem_of_cons. split; [congruence|assumption].
Qed.

(** Splitting what was joined with line feeds gives the rows back. *)
Lemma split_lines_join rows :
  rows <> [] -> Forall (fun row => NEWLINE ∉ row) rows ->
  split_lines (js_join [NEWLINE] rows) = rows.
Proof.
  induction rows as [|r rows IH]; intros Hne Hall; [congruence|].
  inversion Hall as [|? ? Hr Hrows]; subst.
  destruct rows as [|r' rows'].
  - cbn. apply split_lines_one_line. assumption.
  - change (js_join [NEWLINE] (r :: r' :: rows'))
      with (r ++ NEWLINE :: js_join [NEWLINE] (r' :: rows')).
    rewrite split_lines_app_newline by assumption.
    rewrite IH; [reflexivity|discriminate|assumption].
Qed.

Lemma trimEnd_prefix s : trimEnd s `prefix_of` s.
Proof.
  induction s as [|u rest [k IH]]; [exists []; reflexivity|].
  cbn [trimEnd]. destruct (trimEnd rest) as [|t ts] eqn:E.
  - destruct (is_js_space u); [apply prefix_nil|].
    exists rest. reflexivity.
  - exists k. cbn. f_equal. exact IH.
Qed.

Lemma js_join_no_newline sep parts :
  NEWLINE ∉ sep -> Forall (fun part => NEWLINE ∉ part) parts ->
  NEWLINE ∉ js_join sep parts.
Proof.
  intros Hsep Hall. induction Hall as [|p ps Hp Hps IH]; [apply not_elem_of_nil|].
  destruct ps as [|p' ps']; [exact Hp|].
  change (js_join sep (p :: p' :: ps')) with (p ++ sep ++ js_join sep (p' :: ps')).
  rewrite !elem_of_app. tauto.
Qed.

Lemma js_max0_nonneg xs : 0 <= js_max0 xs.
Proof. unfold js_max0. induction xs as [|x xs IH]; cbn [foldr]; lia. Qed.

Lemma js_max0_upper xs x : x ∈ xs -> x <= js_max0 xs.
Proof.
  unfold js_max0. induction xs as [|y xs IH]; intros Hin; [inversion Hin|].
  cbn [foldr]. apply elem_of_cons in Hin as [->|Hin]; [lia|].
  specialize (IH Hin). lia.
Qed.

Lemma mapC_seq_lookup {A B} (l : list A) (f : nat -> completion B) (g : A -> B) k :
  (forall j x, l !! j = Some x -> f (k + j)%nat = Normal (g x)) ->
  mapC f (seq k (length l)) = Normal (map g l).
Proof.
  revert k. induction l as [|x l IH]; intros k Hf; [reflexivity|].
  cbn [length seq mapC map]. rewrite <- (Nat.add_0_r k) at 1.
  rewrite (Hf 0%nat x eq_refl). cbn.
  rewrite (IH (S k)); [reflexivity|].
  intros j y Hy. replace (S k + j)%nat with (k + S j)%nat by lia. apply Hf. exact Hy.
Qed.

(** ** Horizontal combination *)

Section Combine.

Variable wcwidth : jsstring -> Z.
Variable EMOJI_CORRECTIONS : gmap jsstring Z.

Local Abbreviation gvw := (getVisualWidth wcwidth EMOJI_CORRECTIONS).
Local Abbreviation pad := (padText wcwidth EMOJI_CORRECTIONS).
Local Abbreviation bwidth := (block_width wcwidth EMOJI_CORRECTIONS).
Local Abbreviation bpart := (block_part wcwidth EMOJI_CORRECTIONS).

Lemma js_or_str_default (o : option jsstring) : js_or_str o [] = default [] o.
Proof. destruct o as [[|u s]|]; reflexivity. Qed.

Lemma block_line_fits box i :
  gvw (default [] (block_lines box !! i)) <= bwidth box.
Proof.
  unfold block_width. destruct (block_lines box !! i) as [line|] eqn:E; cbn [default].
  - apply js_max0_upper, list_elem_of_fmap. exists line. split; [reflexivity|].
    eapply list_elem_of_lookup_2. exact E.
  - apply js_max0_nonneg.
Qed.

(** The inner loop: row [i] takes one part from every block. *)
Lemma rowParts_of_blocks boxes i :
  let boxLines := boxLines_of boxes in
  rowParts_of wcwidth EMOJI_CORRECTIONS boxLines
    (boxWidths_of wcwidth EMOJI_CORRECTIONS boxLines) i
  = Normal (map (fun box => bpart box i) boxes).
Proof.
  cbv zeta. unfold rowParts_of, boxLines_of, boxWidths_of.
  rewrite length_map. apply mapC_seq_lookup. intros j box Hbox.
  cbn [Nat.add]. rewrite !list_lookup_fmap, Hbox. cbn [fmap option_fmap option_map mbind option_bind default].
  rewrite js_or_str_default.
  rewrite padText_fits by apply block_line_fits. reflexivity.
Qed.

Lemma combineHorizontal_rows_blocks boxes gap :
  0 <= gap ->
  combineHorizontal_rows wcwidth EMOJI_CORRECTIONS boxes gap
  = Normal (map (fun i => js_join (replicate (Z.to_nat gap) SPACE)
                            (map (fun box => bpart box i) boxes))
                (seq 0 (maxLines_of (boxLines_of boxes)))).
Proof.
  intros Hgap. unfold combineHorizontal_rows.
  rewrite js_repeat_unit by assumption. cbn [mbind completion_bind].
  apply mapC_Normal. intros i _.
  rewrite rowParts_of_blocks. reflexivity.
Qed.

(** The number of rows is the number of lines of the tallest block. *)
Lemma maxLines_of_tallest boxes :
  maxLines_of (boxLines_of boxes)
  = max_list (map (fun box => length (split_lines box)) boxes).
Proof.
  unfold maxLines_of, boxLines_of. induction boxes as [|box boxes IH]; [reflexivity|].
  cbn [map foldr max_list]. rewrite IH, length_map. reflexivity.
Qed.

Lemma block_part_no_newline box i : NEWLINE ∉ bpart box i.
Proof.
  unfold block_part. apply not_elem_of_app. split.
  - destruct (block_lines box !! i) as [line|] eqn:E; cbn [default];
      [|apply not_elem_of_nil].
    unfold block_lines in E. rewrite list_lookup_fmap in E.
    destruct (split_lines box !! i) as [raw|] eqn:Eraw; [|discriminate].
    injection E as <-. intros Hin.
    pose proof (split_lines_no_newline box) as Hall.
    rewrite Forall_forall in Hall.
    apply (Hall raw); [eapply list_elem_of_lookup_2; exact Eraw|].
    destruct (trimEnd_prefix raw) as [k Hk]. rewrite Hk. apply elem_of_app. left. exact Hin.
  - intros Hin. apply elem_of_replicate in Hin as [Heq _]. discriminate Heq.
Qed.

Lemma combineHorizontal_total boxes gap :
  0 <= gap ->
  exists combined, combineHorizontal wcwidth EMOJI_CORRECTIONS boxes gap = Normal combined.
Proof.
  intros Hgap. unfold combineHorizontal.
  rewrite combineHorizontal_rows_blocks by assumption. eauto.
Qed.

(** C8 (amended).  For every list of blocks and every gap [>= 0] (a
    negative gap makes [repeat] throw), the combination is a sequence of
    rows joined by line feeds, as many as the tallest block has lines; when
    there is a block, the result has exactly these rows as its lines.  Row
    [i] joins, with the gap between them, one part per block: line [i] of
    the block without its trailing white space, or the empty line when the
    block has no line [i], filled with spaces up to the width of the block,
    which is the greatest visual width of its trimmed lines.  A missing line
    thus gives a part made of spaces only, and every part of a block has the
    width of the block, in an environment in which a space takes one
    column. *)
Theorem combineHorizontal_rectangular boxes gap :
  0 <= gap ->
  exists rows,
    combineHorizontal wcwidth EMOJI_CORRECTIONS boxes gap
    = Normal (js_join [NEWLINE] rows)
    /\ length rows = max_list (map (fun box => length (split_lines box)) boxes)
    /\ (boxes <> [] -> split_lines (js_join [NEWLINE] rows) = rows)
    /\ (forall i, (i < length rows)%nat ->
          rows !! i = Some (js_join (replicate (Z.to_nat gap) SPACE)
                              (map (fun box =>
                                      block_part wcwidth EMOJI_CORRECTIONS box i)
                                   boxes)))
    /\ (forall i box, (length (split_lines box) <= i)%nat ->
          block_part wcwidth EMOJI_CORRECTIONS box i
          = replicate (Z.to_nat (block_width wcwidth EMOJI_CORRECTIONS box)) SPACE)
    /\ (space_is_one_column wcwidth EMOJI_CORRECTIONS ->
        forall i box,
          getVisualWidth wcwidth EMOJI_CORRECTIONS
            (block_part wcwidth EMOJI_CORRECTIONS box i)
          = block_width wcwidth EMOJI_CORRECTIONS box).
Proof.
  intros Hgap.
  set (row := fun i => js_join (replicate (Z.to_nat gap) SPACE)
                         (map (fun box => bpart box i) boxes)).
  set (n := maxLines_of (boxLines_of boxes)).
  exists (map row (seq 0 n)).
  assert (Hlen : length (map row (seq 0 n))
                 = max_list (map (fun box => length (split_lines box)) boxes)).
  { rewrite length_map, length_seq. apply maxLines_of_tallest. }
  split; [|split; [exact Hlen|split; [|split; [|split]]]].
  - unfold combineHorizontal. rewrite combineHorizontal_rows_blocks by assumption.
    reflexivity.
  - intros Hne. apply split_lines_join.
    + intros Hnil. apply (f_equal length) in Hnil. rewrite Hlen in Hnil.
      destruct boxes as [|box boxes']; [congruence|].
      pose proof (split_lines_nonempty box) as Hbox.
      simpl in Hnil. unfold id in Hnil.
      destruct (split_lines box); [congruence|]. simpl in Hnil. lia.
    + apply Forall_map, Forall_forall. intros i _. unfold row.
      apply js_join_no_newline.
      * intros Hin. apply elem_of_replicate in Hin as [Heq _]. discriminate Heq.
      * apply Forall_map, Forall_forall. intros box _. apply block_part_no_newline.
  - intros i Hi. rewrite length_map, length_seq in Hi.
    rewrite list_lookup_fmap, lookup_seq_lt by assumption. reflexivity.
  - intros i box Hshort. unfold block_part.
    rewrite (lookup_ge_None_2 (block_lines box) i)
      by (unfold block_lines; rewrite length_map; exact Hshort).
    cbn [default app]. rewrite getVisualWidth_nil. do 2 f_equal. lia.
  - intros Hspace i box. unfold block_part.
    rewrite getVisualWidth_app_spaces by assumption.
    pose proof (block_line_fits box i). lia.
Qed.

End Combine.

(** ** The batch renderer *)

(** A loop that pushes one result per element onto an array. *)
Lemma push_loop {A B} (f : list B -> A -> completion B) xs acc :
  (forall acc x, x ∈ xs -> exists r, f acc x = Normal r) ->
  exists out,
    forOfC (fun results x => r ← f results x; mret (results ++ [r])) xs acc
    = Normal (acc ++ out)
    /\ length out = length xs
    /\ forall i x, xs !! i = Some x ->
          exists r, out !! i = Some r /\ f (acc ++ take i out) x = Normal r.
Proof.
  revert acc. induction xs as [|x xs IH]; intros acc Hf.
  - exists []. rewrite app_nil_r. split; [reflexivity|]. split; [reflexivity|].
    intros i x H. discriminate.
  - destruct (Hf acc x ltac:(left)) as [r Hr].
    destruct (IH (acc ++ [r])) as (out & Hout & Hlen & Hat).
    { intros acc' y Hy. apply Hf. right. exact Hy. }
    exists (r :: out). cbn [forOfC]. rewrite Hr. cbn [mbind completion_bind mret completion_ret].
    rewrite Hout, <- app_assoc. split; [reflexivity|]. split; [cbn; lia|].
    intros [|i] y Hy.
    + injection Hy as <-. exists r. cbn [take]. rewrite app_nil_r. auto.
    + destruct (Hat i y Hy) as (r' & Hr' & Hfr'). exists r'.
      cbn [take]. rewrite <- app_assoc in Hfr'. auto.
Qed.

Section BatchProofs.

Variable wcwidth : jsstring -> Z.
Variable EMOJI_CORRECTIONS : gmap jsstring Z.

Local Abbreviation gvw := (getVisualWidth wcwidth EMOJI_CORRECTIONS).
Local Abbreviation pad := (padText wcwidth EMOJI_CORRECTIONS).

Lemma createTableSeparator_total widths style :
  Forall (fun w => -2 <= w) widths ->
  exists sep, createTableSeparator widths style = Normal sep.
Proof.
  intros Hall. unfold createTableSeparator.
  assert (Hsegs : mapC (fun w => js_repeat [DASH] (w + 2)) widths
                  = Normal (map (fun w => replicate (Z.to_nat (w + 2)) DASH) widths)).
  { apply mapC_Normal. intros w Hw. rewrite Forall_forall in Hall.
    specialize (Hall w Hw). apply js_repeat_unit. lia. }
  destruct style; cbn [separator_chars]; rewrite Hsegs; eauto.
Qed.

(** A frame never fails: it is at least 4 wide, whatever width is asked. *)
Lemma wrapFrame_total content width title :
  exists frame, wrapFrame wcwidth EMOJI_CORRECTIONS content width title = Normal frame.
Proof.
  unfold wrapFrame. cbv zeta.
  set (trimmedLines := map trimEnd (split_lines content)).
  pose proof (js_max0_nonneg (map gvw trimmedLines)) as Hmax.
  set (actualWidth := Z.max width (js_max0 (map gvw trimmedLines) + 4)).
  assert (Hwide : 4 <= actualWidth) by (unfold actualWidth; lia).
  destruct (padText_cells wcwidth EMOJI_CORRECTIONS trimmedLines (actualWidth - 4))
    as (cells & Hcells & _).
  destruct title as [[|u rest]|]; lazy beta iota;
    rewrite ?js_repeat_unit_max, ?js_repeat_unit by lia;
    cbn [mbind completion_bind mret completion_ret];
    rewrite box_rows_loop, Hcells; cbn [mbind completion_bind mret completion_ret];
    eauto.
Qed.

(** An instruction with sound sizes renders, whatever it refers to. *)
Lemma render_total results comp :
  sizes_ok comp ->
  exists r, render wcwidth EMOJI_CORRECTIONS results comp = Normal r.
Proof.
  intros Hok. destruct comp as [text width align | title lines width | columns widths
                               | widths style | items gap | contentIndex width title
                               | text]; cbn [render sizes_ok] in *.
  - apply padText_total.
  - destruct (createBox_shape wcwidth EMOJI_CORRECTIONS title lines _ Hok)
      as (cells & _ & Hbox). eauto.
  - apply createTableRow_total.
  - apply createTableSeparator_total. assumption.
  - apply combineHorizontal_total. exact Hok.
  - apply wrapFrame_total.
  - eauto.
Qed.

(** The look-up made by the renderer is the resolution of the reference. *)
Lemma js_index_resolve results i idx :
  (i <= length results)%nat ->
  js_or_str (js_index (take i results) idx) [] = resolve results i idx.
Proof.
  intros Hi. unfold js_index, resolve. rewrite js_or_str_default.
  destruct (Z.ltb_spec idx 0) as [Hneg|Hpos].
  - destruct (decide (0 <= idx < Z.of_nat i)); [lia|reflexivity].
  - destruct (decide (0 <= idx < Z.of_nat i)) as [Hin|Hout].
    + rewrite lookup_take_lt by lia. reflexivity.
    + rewrite lookup_take_ge by lia. reflexivity.
Qed.

(** C3 (amended).  For every instruction list whose instructions have
    sound sizes (no box narrower than 2, no separator column under -2, no
    negative gap: these make [repeat] throw, references or not), the batch
    returns one result per instruction, in order.  A reference made by
    instruction [i], be it an item of a horizontal combination or the
    content of a frame, stands for the result at that index when the index
    is one of the [i] results produced so far, and for the empty string
    when it is out of these bounds: the instruction is rendered from these
    strings and neither skipped nor failed. *)
Theorem batchRender_lenient components :
  Forall sizes_ok components ->
  exists results,
    batchRender wcwidth EMOJI_CORRECTIONS components = Normal results
    /\ length results = length components
    /\ (forall i items gap,
          components !! i = Some (CombineHorizontalComponent items gap) ->
          exists r,
            results !! i = Some r
            /\ combineHorizontal wcwidth EMOJI_CORRECTIONS
                 (map (resolve results i) items) (js_or_num gap 2) = Normal r)
    /\ (forall i contentIndex width title,
          components !! i = Some (WrapFrameComponent contentIndex width title) ->
          exists r,
            results !! i = Some r
            /\ wrapFrame wcwidth EMOJI_CORRECTIONS
                 (resolve results i contentIndex) width title = Normal r)
    /\ (forall i idx, ~ (0 <= idx < Z.of_nat i) -> resolve results i idx = []).
Proof.
  intros Hok. unfold batchRender.
  destruct (push_loop (render wcwidth EMOJI_CORRECTIONS) components [])
    as (results & Hrun & Hlen & Hat).
  { intros acc comp Hin. apply render_total.
    rewrite Forall_forall in Hok. apply Hok. exact Hin. }
  cbn [app] in Hrun, Hat. exists results.
  split; [exact Hrun|]. split; [exact Hlen|].
  assert (Hbound : forall i comp, components !! i = Some comp -> (i <= length results)%nat).
  { intros i comp Hi. apply lookup_lt_Some in Hi. lia. }
  split; [|split].
  - intros i items gap Hi. destruct (Hat i _ Hi) as (r & Hr & Hrender).
    exists r. split; [exact Hr|]. cbn [render] in Hrender.
    rewrite <- Hrender. f_equal. apply map_ext. intros idx.
    symmetry. apply js_index_resolve. eapply Hbound. exact Hi.
  - intros i contentIndex width title Hi. destruct (Hat i _ Hi) as (r & Hr & Hrender).
    exists r. split; [exact Hr|]. cbn [render] in Hrender.
    rewrite <- Hrender. f_equal.
    symmetry. apply js_index_resolve. eapply Hbound. exact Hi.
  - intros i idx Hout. unfold resolve.
    destruct (decide (0 <= idx < Z.of_nat i)); [contradiction|reflexivity].
Qed.

End BatchProofs.

(** * The built-in environment

    The theorems above hold for every base width function and every
    correction table.  Here they are applied, and the claims that fail are
    refuted, with the built-in table and the base width function
    [wcwidth_ref]. *)

Lemma wcwidth_unit_nonneg u : 0 <= wcwidth_unit u.
Proof. unfold wcwidth_unit. repeat case_match; lia. Qed.

Lemma wcwidth_ref_nonneg s : 0 <= wcwidth_ref s.
Proof.
  unfold wcwidth_ref. induction s as [|u s IH]; cbn [foldr]; [lia|].
  pose proof (wcwidth_unit_nonneg u). lia.
Qed.

Lemma default_space_is_one_column :
  space_is_one_column wcwidth_ref DEFAULT_EMOJI_CORRECTIONS.
Proof. vm_compute. reflexivity. Qed.

Lemma default_table_nonneg :
  map_Forall (fun _ correction => 0 <= correction) DEFAULT_EMOJI_CORRECTIONS.
Proof. compute_done. Qed.

(** With the built-in table no string has a negative width. *)
Lemma getVisualWidth_default_nonneg text :
  0 <= getVisualWidth wcwidth_ref DEFAULT_EMOJI_CORRECTIONS text.
Proof.
  apply getVisualWidth_nonneg_table;
    [apply wcwidth_ref_nonneg|apply default_table_nonneg].
Qed.

(** The examples of the specification. *)
Example padText_center_example :
  padText wcwidth_ref DEFAULT_EMOJI_CORRECTIONS [0x54; 0x65; 0x73; 0x74] 10 AlignCenter
  = Normal [SPACE; SPACE; SPACE; 0x54; 0x65; 0x73; 0x74; SPACE; SPACE; SPACE].
Proof. vm_compute. reflexivity. Qed.

Example createTableSeparator_top_example :
  createTableSeparator [4; 4] StyleTop
  = Normal ([0x250C] ++ replicate 6 DASH ++ [0x252C] ++ replicate 6 DASH ++ [0x2510]).
Proof. vm_compute. reflexivity. Qed.

Example createTableRow_example :
  createTableRow wcwidth_ref DEFAULT_EMOJI_CORRECTIONS [[0x61; 0x62]; [0x63]; [0x64]] [3; 0]
  = Normal ([VBAR; SPACE; 0x61; 0x62; SPACE; SPACE; VBAR; SPACE; 0x63]
              ++ replicate 10 SPACE ++ [VBAR; SPACE; 0x64] ++ replicate 10 SPACE
              ++ [VBAR]).
Proof. vm_compute. reflexivity. Qed.

(** C1, refuted as stated: right-aligned in 3 columns, the lone selector
    U+FE0F comes out 4 columns wide, because the last space in front of it
    forms a selector cluster with it, which gets the default correction. *)
Lemma padText_exact_width_fails_on_leading_selector :
  padText wcwidth_ref DEFAULT_EMOJI_CORRECTIONS [VS16] 3 AlignRight
  = Normal [SPACE; SPACE; SPACE; VS16]
  /\ getVisualWidth wcwidth_ref DEFAULT_EMOJI_CORRECTIONS [SPACE; SPACE; SPACE; VS16] = 4
  /\ 4 <> 3.
Proof.
  split; [vm_compute; reflexivity|]. split; [vm_compute; reflexivity|lia].
Qed.

Lemma padText_exact_width_witness :
  let text := [0x54; 0x65; 0x73; 0x74] in
  space_is_one_column wcwidth_ref DEFAULT_EMOJI_CORRECTIONS
  /\ 0 <= 10
  /\ (AlignCenter = AlignLeft \/ head text <> Some VS16)
  /\ exists padded,
      padText wcwidth_ref DEFAULT_EMOJI_CORRECTIONS text 10 AlignCenter = Normal padded
      /\ getVisualWidth wcwidth_ref DEFAULT_EMOJI_CORRECTIONS padded = 10.
Proof.
  intros text.
  pose proof default_space_is_one_column as H1.
  assert (H2 : 0 <= 10) by lia.
  assert (H3 : AlignCenter = AlignLeft \/ head text <> Some VS16)
    by (right; vm_compute; discriminate).
  split; [exact H1|]. split; [exact H2|]. split; [exact H3|].
  exact (padText_exact_width wcwidth_ref DEFAULT_EMOJI_CORRECTIONS H1 text 10
           AlignCenter H2 H3).
Defined.


(** C4, refuted as stated: with the maximal width -1 nothing is kept, and
    the empty result has width 0, which is more than -1. *)
Lemma truncateByVisualWidth_negative_width :
  truncateByVisualWidth wcwidth_ref DEFAULT_EMOJI_CORRECTIONS [0x61] (-1) = []
  /\ ~ getVisualWidth wcwidth_ref DEFAULT_EMOJI_CORRECTIONS
         (truncateByVisualWidth wcwidth_ref DEFAULT_EMOJI_CORRECTIONS [0x61] (-1))
       <= -1.
Proof. split; [vm_compute; reflexivity|vm_compute; intros H; apply H; reflexivity]. Qed.

Lemma truncateByVisualWidth_whole_clusters_witness :
  let text := [0x61; 0x31; 0xFE0F; 0x20E3; 0x62] in
  0 <= 2
  /\ getVisualWidth wcwidth_ref DEFAULT_EMOJI_CORRECTIONS
       (truncateByVisualWidth wcwidth_ref DEFAULT_EMOJI_CORRECTIONS text 2) <= 2.
Proof.
  intros text. assert (H : 0 <= 2) by lia. split; [exact H|].
  exact (proj1 (truncateByVisualWidth_whole_clusters wcwidth_ref
                  DEFAULT_EMOJI_CORRECTIONS text 2) H).
Defined.



(** C5.  The keycap string "1" + U+FE0F + U+20E3 is one grapheme cluster
    of three code points, and with the built-in table its visual width is
    the base width of the whole cluster plus 1, whatever the base width
    function is. *)
Theorem keycap_is_one_cluster :
  clusters [0x31; VS16; KEYCAP] = [Keycap [0x31] [VS16] [KEYCAP]]
  /\ forall wcwidth,
      getVisualWidth wcwidth DEFAULT_EMOJI_CORRECTIONS [0x31; VS16; KEYCAP]
      = wcwidth [0x31; VS16; KEYCAP] + 1.
Proof.
  split; [reflexivity|]. intros wcwidth.
  rewrite getVisualWidth_clusters.
  change (clusters [0x31; VS16; KEYCAP]) with [Keycap [0x31] [VS16] [KEYCAP]].
  cbn [widths_sum foldr clusterWidth cluster_text cluster_chars concat app].
  replace (DEFAULT_EMOJI_CORRECTIONS !! [0x31; VS16; KEYCAP]) with (Some 1)
    by (vm_compute; reflexivity).
  change (default 1 (Some 1)) with 1. lia.
Qed.

(** C7, refuted as stated: a variation selector at the start of a string
    that is followed by a second one takes it into its cluster: the walk
    advances by two code points, and the string has one selector cluster
    before the letter. *)
Lemma lone_selector_consumes_selector :
  clusters [VS16; VS16; 0x61] = [Selector [VS16] [VS16]; Single [0x61]]
  /\ getVisualWidth_body wcwidth_ref DEFAULT_EMOJI_CORRECTIONS
       (spread [VS16; VS16; 0x61]) 0 0 = (2%nat, 1).
Proof. split; vm_compute; reflexivity. Qed.

Lemma lone_mark_is_single_cluster_witness :
  (KEYCAP = VS16 \/ KEYCAP = KEYCAP)
  /\ head [0x61] <> Some VS16
  /\ clusters [KEYCAP; 0x61] = [Single [KEYCAP]; Single [0x61]].
Proof.
  assert (H1 : KEYCAP = VS16 \/ KEYCAP = KEYCAP) by (right; reflexivity).
  assert (H2 : head [0x61] <> Some VS16) by (vm_compute; discriminate).
  split; [exact H1|]. split; [exact H2|].
  exact (proj1 (proj2 (lone_mark_is_single_cluster wcwidth_ref
                         DEFAULT_EMOJI_CORRECTIONS KEYCAP H1) [0x61] H2)).
Defined.

Lemma default_box_glyphs_one_column :
  box_glyphs_one_column wcwidth_ref DEFAULT_EMOJI_CORRECTIONS.
Proof.
  unfold box_glyphs_one_column.
  repeat (apply Forall_cons; split; [vm_compute; reflexivity|]). constructor.
Qed.



(** C8, refuted as stated: with the gap -1 the combination of two blocks
    throws a RangeError and produces no result. *)
Lemma combineHorizontal_negative_gap_throws :
  combineHorizontal wcwidth_ref DEFAULT_EMOJI_CORRECTIONS [[0x61]; [0x62]] (-1)
  = Throw RangeError.
Proof. vm_compute. reflexivity. Qed.

Lemma combineHorizontal_rectangular_witness :
  let boxes := [[0x61; NEWLINE; 0x62; 0x63; SPACE]; [0xD55C]] in
  0 <= 2
  /\ exists rows,
       combineHorizontal wcwidth_ref DEFAULT_EMOJI_CORRECTIONS boxes 2
       = Normal (js_join [NEWLINE] rows)
       /\ length rows = 2%nat
       /\ split_lines (js_join [NEWLINE] rows) = rows
       /\ rows !! 1%nat = Some [0x62; 0x63; SPACE; SPACE; SPACE; SPACE].
Proof.
  intros boxes. assert (H : 0 <= 2) by lia. split; [exact H|].
  destruct (combineHorizontal_rectangular wcwidth_ref DEFAULT_EMOJI_CORRECTIONS boxes 2 H)
    as (rows & Hrows & Hlen & Hsplit & Hrow & _).
  exists rows. split; [exact Hrows|].
  assert (Hlen' : length rows = 2%nat) by (rewrite Hlen; vm_compute; reflexivity).
  split; [exact Hlen'|]. split; [apply Hsplit; discriminate|].
  rewrite Hrow by lia. vm_compute. reflexivity.
Defined.

(** C3, refuted as stated: a batch whose only instruction combines the
    out-of-range reference 5 with the gap -1 throws a RangeError, and so
    does a batch that draws a box of width 1 before it: no result sequence
    is returned. *)
Lemma batchRender_throws_on_bad_size :
  batchRender wcwidth_ref DEFAULT_EMOJI_CORRECTIONS
    [CombineHorizontalComponent [5] (Some (-1))] = Throw RangeError
  /\ batchRender wcwidth_ref DEFAULT_EMOJI_CORRECTIONS
       [BoxComponent [0x61] [] (Some 1); CombineHorizontalComponent [5] None]
     = Throw RangeError.
Proof. split; vm_compute; reflexivity. Qed.

Lemma batchRender_lenient_witness :
  let components :=
    [RawTextComponent [0x61; NEWLINE; 0x62; 0x63];
     CombineHorizontalComponent [0; 7; -1] None;
     WrapFrameComponent 9 6 None] in
  Forall sizes_ok components
  /\ exists results,
       batchRender wcwidth_ref DEFAULT_EMOJI_CORRECTIONS components = Normal results
       /\ length results = 3%nat
       /\ results !! 1%nat
          = Some [0x61; SPACE; SPACE; SPACE; SPACE; SPACE; NEWLINE;
                  0x62; 0x63; SPACE; SPACE; SPACE; SPACE].
Proof.
  intros components.
  assert (H : Forall sizes_ok components).
  { repeat (apply Forall_cons; split; [vm_compute; try exact I; discriminate|]).
    constructor. }
  split; [exact H|].
  destruct (batchRender_lenient wcwidth_ref DEFAULT_EMOJI_CORRECTIONS components H)
    as (results & Hrun & Hlen & _).
  exists results. split; [exact Hrun|]. split; [exact Hlen|].
  vm_compute in Hrun. injection Hrun as <-. reflexivity.
Defined.

(** * Further properties of the layout code *)

Lemma texts_clusters text : texts (clusters text) = text.
Proof.
  unfold clusters. rewrite texts_concat, segment_chars. apply concat_spread.
Qed.

Lemma texts_app cs1 cs2 : texts (cs1 ++ cs2) = texts cs1 ++ texts cs2.
Proof. unfold texts. rewrite map_app, concat_app. reflexivity. Qed.

Lemma starts_plain_spec t :
  starts_plain t -> not_low t /\ plain_start (spread t).
Proof.
  destruct t as [|u t']; [intros _; split; exact I|].
  intros (Hlow & Hvs & Hkc). split; [exact Hlow|].
  apply plain_start_spread; cbn; congruence.
Qed.

Section MoreWidth.

Variable wcwidth : jsstring -> Z.
Variable EMOJI_CORRECTIONS : gmap jsstring Z.

Local Abbreviation cwidth := (clusterWidth wcwidth EMOJI_CORRECTIONS).
Local Abbreviation wsum := (widths_sum wcwidth EMOJI_CORRECTIONS).
Local Abbreviation fitW := (fit wcwidth EMOJI_CORRECTIONS).
Local Abbreviation gvw := (getVisualWidth wcwidth EMOJI_CORRECTIONS).
Local Abbreviation trunc := (truncateByVisualWidth wcwidth EMOJI_CORRECTIONS).
Local Abbreviation pad := (padText wcwidth EMOJI_CORRECTIONS).

(** X1.  Widths add up over a concatenation whose second part starts
    plainly: when [b] is empty or starts with a code unit that is neither a
    low surrogate, nor U+FE0F, nor U+20E3, the visual width of [a ++ b] is
    the width of [a] plus the width of [b], and the clusters of [a ++ b] are
    those of [a] followed by those of [b]. *)
Theorem getVisualWidth_concat a b :
  starts_plain b ->
  clusters (a ++ b) = clusters a ++ clusters b
  /\ getVisualWidth wcwidth EMOJI_CORRECTIONS (a ++ b)
     = getVisualWidth wcwidth EMOJI_CORRECTIONS a
       + getVisualWidth wcwidth EMOJI_CORRECTIONS b.
Proof.
  intros Hb. destruct (starts_plain_spec b Hb) as [Hlow Hplain]. split.
  - unfold clusters. rewrite spread_app, segment_app by assumption. reflexivity.
  - apply getVisualWidth_app; assumption.
Qed.

(** X2.  The walk of the width model loses nothing and counts nothing
    twice: the texts of the clusters of a string, put together in order,
    are the string, and the visual width is the sum of the widths of these
    clusters. *)
Theorem getVisualWidth_partition text :
  texts (clusters text) = text
  /\ getVisualWidth wcwidth EMOJI_CORRECTIONS text
     = widths_sum wcwidth EMOJI_CORRECTIONS (clusters text).
Proof. split; [apply texts_clusters|apply getVisualWidth_clusters]. Qed.

(** *** Truncation *)

Lemma fit_all maxWidth currentWidth cs :
  Forall (fun c => 0 <= cwidth c) cs ->
  currentWidth + wsum cs <= maxWidth ->
  fitW maxWidth currentWidth cs = cs.
Proof.
  intros Hall. revert currentWidth.
  induction Hall as [|c cs Hc Hcs IH]; intros currentWidth Hle; [reflexivity|].
  cbn [fit]. pose proof (widths_sum_nonneg wcwidth EMOJI_CORRECTIONS cs Hcs).
  unfold widths_sum in *. cbn [foldr] in Hle.
  destruct (Z.gtb_spec (currentWidth + cwidth c) maxWidth) as [Hgt|_]; [lia|].
  rewrite IH by lia. reflexivity.
Qed.

Lemma fit_prefix_mono w1 w2 currentWidth cs :
  w1 <= w2 -> fitW w1 currentWidth cs `prefix_of` fitW w2 currentWidth cs.
Proof.
  intros Hle. revert currentWidth. induction cs as [|c cs IH]; intros currentWidth.
  - apply prefix_nil.
  - cbn [fit].
    destruct (Z.gtb_spec (currentWidth + cwidth c) w1) as [H1|H1];
      [apply prefix_nil|].
    destruct (Z.gtb_spec (currentWidth + cwidth c) w2) as [H2|H2]; [lia|].
    apply prefix_cons, IH.
Qed.

(** The clusters that fit end where the next one would overflow. *)
Lemma fit_greedy maxWidth currentWidth cs :
  fitW maxWidth currentWidth cs = cs
  \/ exists c rest,
       cs = fitW maxWidth currentWidth cs ++ c :: rest
       /\ maxWidth < currentWidth + wsum (fitW maxWidth currentWidth cs) + cwidth c.
Proof.
  revert currentWidth. induction cs as [|c cs IH]; intros currentWidth;
    [left; reflexivity|].
  cbn [fit]. destruct (Z.gtb_spec (currentWidth + cwidth c) maxWidth) as [Hgt|Hle].
  - right. exists c, cs. split; [reflexivity|]. cbn. lia.
  - destruct (IH (currentWidth + cwidth c)) as [Heq|(c' & rest & Heq & Hover)].
    + left. congruence.
    + right. exists c', rest. split; [cbn [app]; congruence|].
      unfold widths_sum in *. cbn [foldr]. lia.
Qed.

(** X3.  The truncated string is a prefix of the string, code unit by
    code unit: truncation only cuts the end off. *)
Theorem truncateByVisualWidth_prefix text maxWidth :
  truncateByVisualWidth wcwidth EMOJI_CORRECTIONS text maxWidth `prefix_of` text.
Proof. apply truncate_prefix. Qed.

(** X4.  Truncating twice to the same width is truncating once. *)
Theorem truncateByVisualWidth_idempotent text maxWidth :
  truncateByVisualWidth wcwidth EMOJI_CORRECTIONS
    (truncateByVisualWidth wcwidth EMOJI_CORRECTIONS text maxWidth) maxWidth
  = truncateByVisualWidth wcwidth EMOJI_CORRECTIONS text maxWidth.
Proof. apply truncate_idempotent. Qed.

(** X5.  A larger maximal width keeps at least as much: for [w1 <= w2]
    the string truncated to [w1] is a prefix of the string truncated to
    [w2]. *)
Theorem truncateByVisualWidth_monotone text w1 w2 :
  w1 <= w2 ->
  truncateByVisualWidth wcwidth EMOJI_CORRECTIONS text w1
  `prefix_of` truncateByVisualWidth wcwidth EMOJI_CORRECTIONS text w2.
Proof.
  intros Hle. rewrite !truncateByVisualWidth_clusters.
  destruct (fit_prefix_mono w1 w2 0 (clusters text) Hle) as [k Hk].
  rewrite Hk, texts_app. exists (texts k). reflexivity.
Qed.

(** X6.  A string that fits is returned unchanged: when no cluster of the
    string has a negative width and the visual width of the string is at
    most the maximal width, the truncation is the string itself. *)
Theorem truncateByVisualWidth_fits_unchanged text maxWidth :
  Forall (fun c => 0 <= clusterWidth wcwidth EMOJI_CORRECTIONS c) (clusters text) ->
  getVisualWidth wcwidth EMOJI_CORRECTIONS text <= maxWidth ->
  truncateByVisualWidth wcwidth EMOJI_CORRECTIONS text maxWidth = text.
Proof.
  intros Hall Hle. rewrite truncateByVisualWidth_clusters.
  rewrite getVisualWidth_clusters in Hle.
  rewrite fit_all by (try assumption; lia). apply texts_clusters.
Qed.

(** X7.  Truncation is greedy: the result is the text of the clusters
    kept, and either all clusters of the string are kept or the first
    cluster left out would bring the running width above the maximal
    width. *)
Theorem truncateByVisualWidth_greedy text maxWidth :
  exists kept,
    truncateByVisualWidth wcwidth EMOJI_CORRECTIONS text maxWidth = texts kept
    /\ (clusters text = kept
        \/ exists c rest,
             clusters text = kept ++ c :: rest
             /\ maxWidth < widths_sum wcwidth EMOJI_CORRECTIONS kept
                           + clusterWidth wcwidth EMOJI_CORRECTIONS c).
Proof.
  exists (fitW maxWidth 0 (clusters text)).
  split; [apply truncateByVisualWidth_clusters|].
  destruct (fit_greedy maxWidth 0 (clusters text)) as [Heq|(c & rest & Heq & Hover)].
  - left. congruence.
  - right. exists c, rest. split; [exact Heq|lia].
Qed.

(** X8.  With a negative maximal width nothing is kept, when no cluster
    has a negative width. *)
Theorem truncateByVisualWidth_negative_empty text maxWidth :
  widths_nonneg wcwidth EMOJI_CORRECTIONS ->
  maxWidth < 0 ->
  truncateByVisualWidth wcwidth EMOJI_CORRECTIONS text maxWidth = [].
Proof.
  intros Hnn Hneg. rewrite truncateByVisualWidth_clusters.
  destruct (clusters text) as [|c cs]; [reflexivity|].
  cbn [fit]. pose proof (Hnn c).
  destruct (Z.gtb_spec (0 + cwidth c) maxWidth); [reflexivity|lia].
Qed.

End MoreWidth.

(** ** Padding *)

Lemma js_repeat_negative s count :
  count < 0 -> js_repeat s count = Throw RangeError.
Proof. intros H. unfold js_repeat. destruct (Z.ltb_spec count 0); [reflexivity|lia]. Qed.

Section MorePadding.

Variable wcwidth : jsstring -> Z.
Variable EMOJI_CORRECTIONS : gmap jsstring Z.

Local Abbreviation cwidth := (clusterWidth wcwidth EMOJI_CORRECTIONS).
Local Abbreviation wsum := (widths_sum wcwidth EMOJI_CORRECTIONS).
Local Abbreviation gvw := (getVisualWidth wcwidth EMOJI_CORRECTIONS).
Local Abbreviation trunc := (truncateByVisualWidth wcwidth EMOJI_CORRECTIONS).
Local Abbreviation pad := (padText wcwidth EMOJI_CORRECTIONS).

Lemma getVisualWidth_nonneg_env text :
  widths_nonneg wcwidth EMOJI_CORRECTIONS -> 0 <= gvw text.
Proof.
  intros Hnn. rewrite getVisualWidth_clusters. apply widths_sum_nonneg.
  apply Forall_forall. intros c _. apply Hnn.
Qed.

Lemma truncate_negative text maxWidth :
  widths_nonneg wcwidth EMOJI_CORRECTIONS -> maxWidth < 0 -> trunc text maxWidth = [].
Proof.
  intros Hnn Hneg. rewrite truncateByVisualWidth_clusters.
  destruct (clusters text) as [|c cs]; [reflexivity|].
  cbn [fit]. pose proof (Hnn c).
  destruct (Z.gtb_spec (0 + cwidth c) maxWidth); [reflexivity|lia].
Qed.

Lemma padText_negative text targetWidth align :
  widths_nonneg wcwidth EMOJI_CORRECTIONS -> targetWidth < 0 ->
  pad text targetWidth align = Normal [].
Proof.
  intros Hnn Hneg. pose proof (getVisualWidth_nonneg_env text Hnn).
  rewrite padText_over by lia. rewrite truncate_negative by assumption.
  rewrite getVisualWidth_nil.
  replace (Z.to_nat (targetWidth - 0)) with 0%nat by lia. reflexivity.
Qed.


(** X10.  A text that fits is kept whole: the result is the text with
    spaces around it, as many in all as columns are missing; none before it
    for the left alignment, none after it for the right alignment, and for
    the centre alignment the spaces after it are as many as those before it
    or one more. *)
Theorem padText_keeps_fitting_text text targetWidth align :
  getVisualWidth wcwidth EMOJI_CORRECTIONS text <= targetWidth ->
  exists before after,
    padText wcwidth EMOJI_CORRECTIONS text targetWidth align
    = Normal (replicate before SPACE ++ text ++ replicate after SPACE)
    /\ Z.of_nat before + Z.of_nat after
       = targetWidth - getVisualWidth wcwidth EMOJI_CORRECTIONS text
    /\ match align with
       | AlignLeft => before = 0%nat
       | AlignRight => after = 0%nat
       | AlignCenter => (before <= after <= before + 1)%nat
       end.
Proof.
  intros Hle. rewrite padText_fits by assumption. cbv zeta.
  set (padding := targetWidth - gvw text).
  assert (0 <= padding) by (unfold padding; lia).
  assert (0 <= padding / 2) by (apply Z.div_pos; lia).
  assert (2 * (padding / 2) <= padding < 2 * (padding / 2) + 2).
  { pose proof (Z.div_mod padding 2 ltac:(lia)).
    pose proof (Z.mod_pos_bound padding 2 ltac:(lia)). lia. }
  destruct align.
  - exists 0%nat, (Z.to_nat padding). cbn [replicate app]. split; [reflexivity|].
    split; [lia|reflexivity].
  - exists (Z.to_nat padding), 0%nat. cbn [replicate]. rewrite app_nil_r.
    split; [reflexivity|]. split; [lia|reflexivity].
  - exists (Z.to_nat (padding / 2)), (Z.to_nat (padding - padding / 2)).
    split; [reflexivity|]. split; lia.
Qed.

(** X11.  A text wider than the target is cut, whatever the alignment:
    the result is the truncated text followed by spaces only, the same for
    the three alignments. *)
Theorem padText_over_ignores_align text targetWidth align :
  targetWidth < getVisualWidth wcwidth EMOJI_CORRECTIONS text ->
  padText wcwidth EMOJI_CORRECTIONS text targetWidth align
  = padText wcwidth EMOJI_CORRECTIONS text targetWidth AlignLeft
  /\ exists fill,
      padText wcwidth EMOJI_CORRECTIONS text targetWidth align
      = Normal (truncateByVisualWidth wcwidth EMOJI_CORRECTIONS text targetWidth
                  ++ replicate fill SPACE).
Proof.
  intros Hlt. rewrite !padText_over by assumption. split; [reflexivity|]. eauto.
Qed.

(** X12.  Padding to a negative width gives the empty string, when no
    cluster has a negative width. *)
Theorem padText_negative_width_empty text targetWidth align :
  widths_nonneg wcwidth EMOJI_CORRECTIONS ->
  targetWidth < 0 ->
  padText wcwidth EMOJI_CORRECTIONS text targetWidth align = Normal [].
Proof. apply padText_negative. Qed.

End MorePadding.

(** ** Strings of one-column glyphs *)

Section PlainUnits.

Variable wcwidth : jsstring -> Z.
Variable EMOJI_CORRECTIONS : gmap jsstring Z.

Local Abbreviation cwidth := (clusterWidth wcwidth EMOJI_CORRECTIONS).
Local Abbreviation gvw := (getVisualWidth wcwidth EMOJI_CORRECTIONS).

(** A string of BMP code units that take one column each, none of them
    the variation selector, is as wide as it is long. *)
Lemma getVisualWidth_units s :
  Forall (fun u => is_high_surrogate u = false /\ u <> VS16
                   /\ one_column wcwidth EMOJI_CORRECTIONS u) s ->
  gvw s = Z.of_nat (length s).
Proof.
  induction 1 as [|u s (Hh & Hvs & Hone) Hs IH]; [reflexivity|].
  rewrite getVisualWidth_cons; [|exact Hh|].
  - unfold one_column in Hone. rewrite Hone, IH. cbn [length]. lia.
  - destruct Hs as [|v s' (_ & Hv & _) _]; cbn; congruence.
Qed.

End PlainUnits.

Lemma length_js_join_units (sep : jsstring) (parts : list jsstring) :
  Z.of_nat (length (js_join sep parts))
  = sum_Z (map (fun p => Z.of_nat (length p)) parts)
    + Z.of_nat (length sep) * Z.of_nat (Nat.pred (length parts)).
Proof.
  induction parts as [|p parts IH]; [cbn; lia|].
  destruct parts as [|p' parts'].
  - cbn. lia.
  - change (js_join sep (p :: p' :: parts'))
      with (p ++ sep ++ js_join sep (p' :: parts')).
    rewrite !length_app, !Nat2Z.inj_add, IH. cbn [map sum_Z foldr length Nat.pred].
    unfold sum_Z. lia.
Qed.

Lemma mapC_throws {A B} (f : A -> completion B) xs :
  Exists (fun x => f x = Throw RangeError) xs -> mapC f xs = Throw RangeError.
Proof.
  induction 1 as [x xs Hx|x xs _ IH]; cbn [mapC].
  - rewrite Hx. reflexivity.
  - destruct (f x) as [y|[]]; cbn; [|reflexivity]. rewrite IH. reflexivity.
Qed.

(** ** Separators, boxes and frames *)

Section MoreDrawing.

Variable wcwidth : jsstring -> Z.
Variable EMOJI_CORRECTIONS : gmap jsstring Z.

Local Abbreviation cwidth := (clusterWidth wcwidth EMOJI_CORRECTIONS).
Local Abbreviation gvw := (getVisualWidth wcwidth EMOJI_CORRECTIONS).
Local Abbreviation pad := (padText wcwidth EMOJI_CORRECTIONS).

Lemma createTableSeparator_segments widths style :
  Forall (fun w => -2 <= w) widths ->
  createTableSeparator widths style
  = Normal (let '(c_left, c_mid, c_right, _) := separator_chars style in
            c_left ++ js_join c_mid (map (fun w => replicate (Z.to_nat (w + 2)) DASH) widths)
              ++ c_right).
Proof.
  intros Hall. unfold createTableSeparator.
  assert (Hsegs : mapC (fun w => js_repeat [DASH] (w + 2)) widths
                  = Normal (map (fun w => replicate (Z.to_nat (w + 2)) DASH) widths)).
  { apply mapC_Normal. intros w Hw. rewrite Forall_forall in Hall.
    specialize (Hall w Hw). apply js_repeat_unit. lia. }
  destruct style; cbn [separator_chars]; rewrite Hsegs; reflexivity.
Qed.

Lemma createTableSeparator_throws widths style :
  Exists (fun w => w < -2) widths ->
  createTableSeparator widths style = Throw RangeError.
Proof.
  intros Hex. unfold createTableSeparator.
  assert (Hsegs : mapC (fun w => js_repeat [DASH] (w + 2)) widths = Throw RangeError).
  { apply mapC_throws. eapply Exists_impl; [exact Hex|].
    intros w Hw. apply js_repeat_negative. cbn in Hw. lia. }
  destruct style; cbn [separator_chars]; rewrite Hsegs; reflexivity.
Qed.

(** X13.  A table separator throws a RangeError exactly when one of the
    column widths is below -2 (its dash run would have a negative
    length). *)
Theorem createTableSeparator_error widths style :
  createTableSeparator widths style = Throw RangeError
  <-> Exists (fun w => w < -2) widths.
Proof.
  split; [|apply createTableSeparator_throws].
  intros Hthrow.
  destruct (decide (Forall (fun w => -2 <= w) widths)) as [Hall|Hnot].
  - rewrite createTableSeparator_segments in Hthrow by assumption. discriminate.
  - apply not_Forall_Exists in Hnot; [|intros w; apply _].
    eapply Exists_impl; [exact Hnot|]. cbn. intros w Hw. lia.
Qed.

Lemma separator_units (P : Z -> Prop) (mid : Z) (widths : list Z) :
  P mid -> P DASH ->
  Forall P (js_join [mid] (map (fun w => replicate (Z.to_nat (w + 2)) DASH) widths)).
Proof.
  intros Hmid Hdash. induction widths as [|w ws IH]; [constructor|].
  destruct ws as [|w' ws'].
  - cbn [map js_join]. apply Forall_replicate. exact Hdash.
  - change (Forall P (replicate (Z.to_nat (w + 2)) DASH ++ [mid]
                        ++ js_join [mid]
                             (map (fun w => replicate (Z.to_nat (w + 2)) DASH)
                                  (w' :: ws')))).
    apply Forall_app. split; [apply Forall_replicate; exact Hdash|].
    apply Forall_app. split; [repeat constructor; exact Hmid|exact IH].
Qed.

(** X14.  The visual width of a table separator: with column widths of
    at least -2 and glyphs of one column each, it is 2 for no column, and
    for [n >= 1] columns the sum of the widths plus [3 n + 1]. *)
Theorem createTableSeparator_width widths style :
  separator_glyphs_one_column wcwidth EMOJI_CORRECTIONS style ->
  Forall (fun w => -2 <= w) widths ->
  exists sep,
    createTableSeparator widths style = Normal sep
    /\ getVisualWidth wcwidth EMOJI_CORRECTIONS sep
       = 2 + sum_Z (map (fun w => w + 2) widths)
         + Z.of_nat (Nat.pred (length widths)).
Proof.
  intros Henv Hall. eexists. split; [apply createTableSeparator_segments; exact Hall|].
  assert (Hsum : sum_Z (map (fun p : jsstring => Z.of_nat (length p))
                         (map (fun w => replicate (Z.to_nat (w + 2)) DASH) widths))
                 = sum_Z (map (fun w => w + 2) widths)).
  { clear Henv. induction Hall as [|w ws Hw _ IH]; [reflexivity|].
    cbn [map sum_Z foldr]. unfold sum_Z in IH. rewrite IH, length_replicate. lia. }
  set (P := fun u => is_high_surrogate u = false /\ u <> VS16
                     /\ one_column wcwidth EMOJI_CORRECTIONS u).
  assert (Hglyph : forall g, one_column wcwidth EMOJI_CORRECTIONS g ->
                     is_high_surrogate g = false -> g <> VS16 -> P g)
    by (intros g H1 H2 H3; repeat split; assumption).
  unfold separator_glyphs_one_column in Henv.
  destruct style; cbn [separator_chars app] in *;
    inversion Henv as [|? ? Hl Henv1]; subst;
    inversion Henv1 as [|? ? Hm Henv2]; subst;
    inversion Henv2 as [|? ? Hr Henv3]; subst;
    inversion Henv3 as [|? ? Hd _]; subst.
  all: rewrite getVisualWidth_units;
    [ rewrite length_cons, length_app, length_cons, Nat2Z.inj_succ, Nat2Z.inj_add,
        length_js_join_units, Hsum, length_map; cbn [length]; lia
    | fold P; apply Forall_cons; split; [apply Hglyph; [assumption|reflexivity|discriminate]|];
      apply Forall_app; split;
        [apply separator_units; apply Hglyph; (assumption || reflexivity || discriminate)
        |repeat constructor; (assumption || reflexivity || discriminate)] ].
Qed.

End MoreDrawing.

Section MoreTables.

Variable wcwidth : jsstring -> Z.
Variable EMOJI_CORRECTIONS : gmap jsstring Z.

Local Abbreviation gvw := (getVisualWidth wcwidth EMOJI_CORRECTIONS).
Local Abbreviation pad := (padText wcwidth EMOJI_CORRECTIONS).

Hypothesis Hglyphs : box_glyphs_one_column wcwidth EMOJI_CORRECTIONS.

Lemma head_js_join_cells cell cells :
  head cell <> Some VS16 ->
  head (js_join [SPACE; VBAR; SPACE] (cell :: cells) ++ [SPACE; VBAR]) <> Some VS16.
Proof.
  intros Hcell. destruct cells as [|cell' cells'].
  - cbn [js_join]. apply head_app_ne; [assumption|]. intros _. discriminate.
  - change (js_join [SPACE; VBAR; SPACE] (cell :: cell' :: cells'))
      with (cell ++ [SPACE; VBAR; SPACE] ++ js_join [SPACE; VBAR; SPACE] (cell' :: cells')).
    rewrite <- app_assoc. apply head_app_ne; [assumption|]. intros _. discriminate.
Qed.

(** The cells of a row, joined and closed, when each cell has its width
    and does not start with the selector. *)
Lemma joined_cells_width cells ws :
  Forall2 (fun cell w => gvw cell = w /\ head cell <> Some VS16) cells ws ->
  cells <> [] ->
  gvw (js_join [SPACE; VBAR; SPACE] cells ++ [SPACE; VBAR])
  = sum_Z ws + 3 * Z.of_nat (length ws) - 1.
Proof.
  induction 1 as [|cell w cells ws [Hw Hhead] Hrest IH]; intros Hne; [congruence|].
  destruct Hrest as [|cell' w' cells' ws' Hcell' Hrest'].
  - cbn [js_join sum_Z foldr length].
    rewrite getVisualWidth_app by glyph_side.
    rewrite !(getVisualWidth_glyph_cons _ _ Hglyphs) by glyph_side.
    rewrite getVisualWidth_nil. lia.
  - change (js_join [SPACE; VBAR; SPACE] (cell :: cell' :: cells'))
      with (cell ++ [SPACE; VBAR; SPACE] ++ js_join [SPACE; VBAR; SPACE] (cell' :: cells')).
    rewrite <- !app_assoc. cbn [app].
    rewrite getVisualWidth_app by glyph_side.
    rewrite !(getVisualWidth_glyph_cons _ _ Hglyphs)
      by first [solve [glyph_side] | solve [apply head_js_join_cells; apply Hcell']].
    rewrite IH by discriminate.
    cbn [sum_Z foldr length]. unfold sum_Z. lia.
Qed.

(** The width of a table row whose columns all have a declared width
    above 0. *)
Lemma createTableRow_width (columns : list jsstring) (widths : list Z) :
  columns <> [] ->
  length columns = length widths ->
  Forall (fun w => 0 < w) widths ->
  Forall (fun col => head col <> Some VS16) columns ->
  exists row,
    createTableRow wcwidth EMOJI_CORRECTIONS columns widths = Normal row
    /\ gvw row = sum_Z widths + 3 * Z.of_nat (length widths) + 1.
Proof.
  intros Hne Hlen Hpos Hheads. unfold createTableRow.
  destruct (createTableRow_cells wcwidth EMOJI_CORRECTIONS columns widths)
    as (cells & -> & Hclen & Hat).
  eexists. split; [reflexivity|]. cbn [app].
  assert (Hcells : Forall2 (fun cell w => gvw cell = w /\ head cell <> Some VS16)
                           cells widths).
  { apply Forall2_same_length_lookup_2; [congruence|].
    intros i cell w Hcell Hw.
    assert (exists col, columns !! i = Some col) as [col Hcol].
    { apply lookup_lt_is_Some. apply lookup_lt_Some in Hw. lia. }
    destruct (Hat i col Hcol) as (cell' & Hcell' & Hpad).
    rewrite Hcell in Hcell'. injection Hcell' as <-.
    rewrite Hw in Hpad. cbn [js_or_num] in Hpad.
    rewrite Forall_forall in Hpos. rewrite Forall_forall in Hheads.
    assert (0 < w) by (apply Hpos; eapply list_elem_of_lookup_2; exact Hw).
    destruct (Z.eqb_spec w 0) as [|_]; [lia|].
    split.
    - eapply (padText_left_exact _ _ (space_one_column _ _ Hglyphs)); [|exact Hpad]. lia.
    - eapply padText_left_head; [exact Hpad|].
      apply Hheads. eapply list_elem_of_lookup_2. exact Hcol. }
  assert (Hcne : cells <> []).
  { intros ->. destruct columns; [congruence|discriminate]. }
  assert (Hjoin : head (js_join [SPACE; VBAR; SPACE] cells ++ [SPACE; VBAR]) <> Some VS16).
  { destruct cells as [|cell cells']; [congruence|].
    inversion Hcells as [|? ? ? ? [_ Hh] _]; subst.
    apply head_js_join_cells. exact Hh. }
  rewrite !(getVisualWidth_glyph_cons _ _ Hglyphs)
    by first [solve [glyph_side] | exact Hjoin].
  rewrite (joined_cells_width cells widths Hcells Hcne). lia.
Qed.

(** X15.  A table row and a table separator drawn from the same widths
    line up: for at least one column, as many widths as columns, every
    width above 0 and no column text beginning with U+FE0F, the row and the
    separator (of any style) have the same visual width, the sum of the
    widths plus [3 n + 1].  The glyphs and the space take one column. *)
Theorem createTableRow_matches_separator
    (columns : list jsstring) (widths : list Z) (style : Style) :
  separator_glyphs_one_column wcwidth EMOJI_CORRECTIONS style ->
  columns <> [] ->
  length columns = length widths ->
  Forall (fun w => 0 < w) widths ->
  Forall (fun col => head col <> Some VS16) columns ->
  exists row sep,
    createTableRow wcwidth EMOJI_CORRECTIONS columns widths = Normal row
    /\ createTableSeparator widths style = Normal sep
    /\ getVisualWidth wcwidth EMOJI_CORRECTIONS row
       = sum_Z widths + 3 * Z.of_nat (length widths) + 1
    /\ getVisualWidth wcwidth EMOJI_CORRECTIONS sep
       = getVisualWidth wcwidth EMOJI_CORRECTIONS row.
Proof.
  intros Hsep Hne Hlen Hpos Hheads.
  destruct (createTableRow_width columns widths Hne Hlen Hpos Hheads)
    as (row & Hrow & Hrw).
  assert (Hall : Forall (fun w => -2 <= w) widths)
    by (eapply Forall_impl; [exact Hpos|]; cbn; intros; lia).
  exists row. eexists. split; [exact Hrow|].
  split; [apply createTableSeparator_segments; exact Hall|].
  split; [exact Hrw|]. rewrite Hrw.
  assert (Hsum : sum_Z (map (fun p : jsstring => Z.of_nat (length p))
                         (map (fun w => replicate (Z.to_nat (w + 2)) DASH) widths))
                 = sum_Z widths + 2 * Z.of_nat (length widths)).
  { clear -Hall. induction Hall as [|w ws Hw _ IH]; [reflexivity|].
    cbn [map sum_Z foldr length]. unfold sum_Z in IH. rewrite IH, length_replicate. lia. }
  assert (Hn : (1 <= length widths)%nat).
  { rewrite <- Hlen. destruct columns; [congruence|cbn; lia]. }
  set (P := fun u => is_high_surrogate u = false /\ u <> VS16
                     /\ one_column wcwidth EMOJI_CORRECTIONS u).
  assert (Hglyph : forall g, one_column wcwidth EMOJI_CORRECTIONS g ->
                     is_high_surrogate g = false -> g <> VS16 -> P g)
    by (intros g H1 H2 H3; repeat split; assumption).
  unfold separator_glyphs_one_column in Hsep.
  destruct style; cbn [separator_chars app] in *;
    inversion Hsep as [|? ? Hl Henv1]; subst;
    inversion Henv1 as [|? ? Hm Henv2]; subst;
    inversion Henv2 as [|? ? Hr Henv3]; subst;
    inversion Henv3 as [|? ? Hd _]; subst.
  all: rewrite getVisualWidth_units;
    [ rewrite length_cons, length_app, length_cons, Nat2Z.inj_succ, Nat2Z.inj_add,
        length_js_join_units, Hsum, length_map; cbn [length]; lia
    | fold P; apply Forall_cons; split; [apply Hglyph; [assumption|reflexivity|discriminate]|];
      apply Forall_app; split;
        [apply separator_units; apply Hglyph; (assumption || reflexivity || discriminate)
        |repeat constructor; (assumption || reflexivity || discriminate)] ].
Qed.

End MoreTables.

Section MoreBoxes.

Variable wcwidth : jsstring -> Z.
Variable EMOJI_CORRECTIONS : gmap jsstring Z.

Local Abbreviation gvw := (getVisualWidth wcwidth EMOJI_CORRECTIONS).
Local Abbreviation pad := (padText wcwidth EMOJI_CORRECTIONS).
Local Abbreviation fwidth := (frame_width wcwidth EMOJI_CORRECTIONS).
Local Abbreviation fcell := (frame_cell wcwidth EMOJI_CORRECTIONS).
Local Abbreviation fborder := (frame_border wcwidth EMOJI_CORRECTIONS).

Lemma createBox_throws title lines width :
  width < 2 -> createBox wcwidth EMOJI_CORRECTIONS title lines width = Throw RangeError.
Proof.
  intros Hw. unfold createBox.
  rewrite js_repeat_unit_max. cbn [mbind completion_bind].
  rewrite box_rows_loop.
  destruct (padText_cells wcwidth EMOJI_CORRECTIONS lines (width - 4)) as (cells & -> & _).
  cbn [mbind completion_bind mret completion_ret].
  rewrite js_repeat_negative by lia. reflexivity.
Qed.

(** X16.  A box throws a RangeError exactly when its width is below 2:
    the bottom border has [width - 2] dashes, and its count is not floored
    as the one of the top border is. *)
Theorem createBox_error title lines width :
  createBox wcwidth EMOJI_CORRECTIONS title lines width = Throw RangeError
  <-> width < 2.
Proof.
  split; [|apply createBox_throws].
  intros Hthrow. destruct (Z.lt_ge_cases width 2) as [|Hge]; [assumption|].
  destruct (createBox_shape wcwidth EMOJI_CORRECTIONS title lines width Hge)
    as (cells & _ & Hbox).
  rewrite Hbox in Hthrow. discriminate.
Qed.

(** X17.  A box of width 2 or 3 shows none of its content: its inner
    width is negative, so that every content row is the two bars with two
    spaces between them, whatever the line is, and the top border has no
    dash.  No cluster is taken to have a negative width. *)
Theorem createBox_narrow_drops_content title lines width :
  widths_nonneg wcwidth EMOJI_CORRECTIONS ->
  2 <= width < 4 ->
  createBox wcwidth EMOJI_CORRECTIONS title lines width
  = Normal (js_join [NEWLINE]
              ((box_top title 0 :: map (fun _ => [VBAR; SPACE; SPACE; VBAR]) lines)
               ++ [box_bottom (Z.to_nat (width - 2))])).
Proof.
  intros Hnn [Hlo Hhi].
  destruct (createBox_shape wcwidth EMOJI_CORRECTIONS title lines width Hlo)
    as (cells & Hcells & ->).
  pose proof (getVisualWidth_nonneg_env wcwidth EMOJI_CORRECTIONS title Hnn).
  replace (Z.to_nat (Z.max 0 (width - 5 - gvw title))) with 0%nat by lia.
  do 4 f_equal.
  induction Hcells as [|line cell lines cells Hcell _ IH]; [reflexivity|].
  cbn [map]. rewrite IH. f_equal.
  rewrite padText_negative in Hcell by (try assumption; lia).
  injection Hcell as <-. reflexivity.
Qed.

(** *** Frames *)

Lemma frame_line_fits content width line :
  line ∈ frame_lines content -> gvw line + 4 <= fwidth content width.
Proof.
  intros Hin. unfold frame_width.
  pose proof (js_max0_upper (map gvw (frame_lines content)) (gvw line)
                ltac:(apply list_elem_of_fmap; eauto)). lia.
Qed.

Lemma frame_width_wide content width : 4 <= fwidth content width.
Proof.
  unfold frame_width.
  pose proof (js_max0_nonneg (map gvw (frame_lines content))). lia.
Qed.

Lemma wrapFrame_shape content width title :
  wrapFrame wcwidth EMOJI_CORRECTIONS content width title
  = Normal (js_join [NEWLINE]
              ((fborder content width title
                :: map (fun line => box_row (fcell content width line))
                       (frame_lines content))
               ++ [box_bottom (Z.to_nat (fwidth content width - 2))])).
Proof.
  unfold wrapFrame. cbv zeta.
  fold (frame_lines content). fold (fwidth content width).
  pose proof (frame_width_wide content width) as Hwide.
  assert (Hcells : mapC (fun line => pad line (fwidth content width - 4) AlignLeft)
                        (frame_lines content)
                   = Normal (map (fcell content width) (frame_lines content))).
  { apply mapC_Normal. intros line Hin.
    pose proof (frame_line_fits content width line Hin).
    rewrite padText_fits by lia. reflexivity. }
  assert (Hrest : forall top : jsstring,
    (forOfC (fun result line =>
               cell ← pad line (fwidth content width - 4) AlignLeft;
               mret (result ++ [VBAR; SPACE] ++ cell ++ [SPACE; VBAR; NEWLINE]))
            (frame_lines content) (top ++ [NEWLINE])
       ≫= fun result =>
            mret (result ++ [0x2514]
                    ++ replicate (Z.to_nat (fwidth content width - 2)) DASH ++ [0x2518]))
    = Normal (js_join [NEWLINE]
                ((top :: map (fun line => box_row (fcell content width line))
                             (frame_lines content))
                 ++ [box_bottom (Z.to_nat (fwidth content width - 2))]))).
  { intros top. rewrite box_rows_loop, Hcells.
    cbn [mbind completion_bind mret completion_ret].
    f_equal. rewrite js_join_snoc. cbn [map concat]. unfold box_bottom.
    rewrite !map_map, <- !app_assoc. reflexivity. }
  rewrite (js_repeat_unit DASH (fwidth content width - 2)) by lia.
  destruct title as [[|u rest]|]; lazy beta iota; cbn [frame_border].
  - cbn [mbind completion_bind mret completion_ret].
    replace ([0x250C] ++ replicate (Z.to_nat (fwidth content width - 2)) DASH
               ++ [0x2510; NEWLINE])
      with (frame_top (Z.to_nat (fwidth content width - 2)) ++ [NEWLINE])
      by (unfold frame_top; rewrite <- !app_assoc; reflexivity).
    apply Hrest.
  - rewrite js_repeat_unit_max. cbn [mbind completion_bind mret completion_ret].
    replace (fwidth content width - 2 - gvw (u :: rest) - 3)
      with (fwidth content width - 5 - gvw (u :: rest)) by lia.
    replace ([0x250C; DASH; SPACE] ++ (u :: rest) ++ [SPACE]
               ++ replicate (Z.to_nat (fwidth content width - 5 - gvw (u :: rest))) DASH
               ++ [0x2510; NEWLINE])
      with (box_top (u :: rest)
              (Z.to_nat (fwidth content width - 5 - gvw (u :: rest))) ++ [NEWLINE])
      by (unfold box_top; rewrite <- !app_assoc; reflexivity).
    apply Hrest.
  - cbn [mbind completion_bind mret completion_ret].
    replace ([0x250C] ++ replicate (Z.to_nat (fwidth content width - 2)) DASH
               ++ [0x2510; NEWLINE])
      with (frame_top (Z.to_nat (fwidth content width - 2)) ++ [NEWLINE])
      by (unfold frame_top; rewrite <- !app_assoc; reflexivity).
    apply Hrest.
Qed.

(** X18.  A frame never throws and never clips its content: whatever
    width is asked, the frame is its top border, one row per content line
    and its bottom border; its width is the asked one or, when that is too
    small, the width of the widest line (without trailing white space) plus
    4, and every content row holds its whole line, filled with spaces. *)
Theorem wrapFrame_grows_to_fit content width title :
  wrapFrame wcwidth EMOJI_CORRECTIONS content width title
  = Normal (js_join [NEWLINE]
              ((frame_border wcwidth EMOJI_CORRECTIONS content width title
                :: map (fun line =>
                          box_row (frame_cell wcwidth EMOJI_CORRECTIONS content width line))
                       (frame_lines content))
               ++ [box_bottom
                     (Z.to_nat (frame_width wcwidth EMOJI_CORRECTIONS content width - 2))]))
  /\ width <= frame_width wcwidth EMOJI_CORRECTIONS content width
  /\ forall line,
       line ∈ frame_lines content ->
       getVisualWidth wcwidth EMOJI_CORRECTIONS line + 4
       <= frame_width wcwidth EMOJI_CORRECTIONS content width.
Proof.
  split; [apply wrapFrame_shape|]. split; [unfold frame_width; lia|].
  apply frame_line_fits.
Qed.

End MoreBoxes.

Section FrameRows.

Variable wcwidth : jsstring -> Z.
Variable EMOJI_CORRECTIONS : gmap jsstring Z.

Local Abbreviation gvw := (getVisualWidth wcwidth EMOJI_CORRECTIONS).
Local Abbreviation fwidth := (frame_width wcwidth EMOJI_CORRECTIONS).
Local Abbreviation fcell := (frame_cell wcwidth EMOJI_CORRECTIONS).

Hypothesis Hglyphs : box_glyphs_one_column wcwidth EMOJI_CORRECTIONS.




End FrameRows.

(** ** Horizontal combination, further *)

Lemma starts_plain_app a b :
  starts_plain a -> starts_plain b -> starts_plain (a ++ b).
Proof. destruct a; cbn; auto. Qed.

Lemma starts_plain_prefix a b :
  a `prefix_of` b -> starts_plain b -> starts_plain a.
Proof. intros [k ->]. destruct a; cbn; auto. Qed.

Lemma starts_plain_spaces n : starts_plain (replicate n SPACE).
Proof. destruct n; cbn; [exact I|]. repeat split; discriminate. Qed.

Lemma starts_plain_js_join sep parts :
  starts_plain sep -> Forall starts_plain parts -> starts_plain (js_join sep parts).
Proof.
  intros Hsep Hall. induction Hall as [|p ps Hp Hps IH]; [exact I|].
  destruct ps as [|p' ps']; [exact Hp|].
  change (js_join sep (p :: p' :: ps')) with (p ++ sep ++ js_join sep (p' :: ps')).
  auto using starts_plain_app.
Qed.

Section MoreCombine.

Variable wcwidth : jsstring -> Z.
Variable EMOJI_CORRECTIONS : gmap jsstring Z.

Local Abbreviation gvw := (getVisualWidth wcwidth EMOJI_CORRECTIONS).
Local Abbreviation bwidth := (block_width wcwidth EMOJI_CORRECTIONS).
Local Abbreviation bpart := (block_part wcwidth EMOJI_CORRECTIONS).

Lemma getVisualWidth_plain_app a b :
  starts_plain b -> gvw (a ++ b) = gvw a + gvw b.
Proof.
  intros Hb. destruct (starts_plain_spec b Hb). apply getVisualWidth_app; assumption.
Qed.

Lemma getVisualWidth_js_join sep parts :
  starts_plain sep -> Forall starts_plain parts ->
  gvw (js_join sep parts)
  = sum_Z (map gvw parts) + gvw sep * Z.of_nat (Nat.pred (length parts)).
Proof.
  intros Hsep Hall. induction Hall as [|p ps Hp Hps IH]; [cbn; lia|].
  destruct ps as [|p' ps']; [cbn; lia|].
  change (js_join sep (p :: p' :: ps')) with (p ++ sep ++ js_join sep (p' :: ps')).
  rewrite !getVisualWidth_plain_app, IH
    by auto using starts_plain_app, starts_plain_js_join.
  cbn [map sum_Z foldr length Nat.pred]. unfold sum_Z. lia.
Qed.

Lemma combineHorizontal_throws boxes gap :
  gap < 0 -> combineHorizontal wcwidth EMOJI_CORRECTIONS boxes gap = Throw RangeError.
Proof.
  intros Hgap. unfold combineHorizontal, combineHorizontal_rows.
  rewrite js_repeat_negative by assumption. reflexivity.
Qed.

(** X20.  A horizontal combination throws a RangeError exactly when the
    gap is negative, whatever the blocks are (even for no block at all). *)
Theorem combineHorizontal_error boxes gap :
  combineHorizontal wcwidth EMOJI_CORRECTIONS boxes gap = Throw RangeError
  <-> gap < 0.
Proof.
  split; [|apply combineHorizontal_throws].
  intros Hthrow. destruct (Z.lt_ge_cases gap 0) as [|Hge]; [assumption|].
  destruct (combineHorizontal_total wcwidth EMOJI_CORRECTIONS boxes gap Hge) as [r Hr].
  rewrite Hr in Hthrow. discriminate.
Qed.

Lemma block_part_plain box i :
  Forall starts_plain (split_lines box) -> starts_plain (bpart box i).
Proof.
  intros Hall. unfold block_part.
  destruct (block_lines box !! i) as [line|] eqn:E; cbn [default].
  - apply starts_plain_app; [|apply starts_plain_spaces].
    unfold block_lines in E. rewrite list_lookup_fmap in E.
    destruct (split_lines box !! i) as [raw|] eqn:Eraw; [|discriminate].
    injection E as <-. eapply starts_plain_prefix; [apply trimEnd_prefix|].
    rewrite Forall_forall in Hall. apply Hall. eapply list_elem_of_lookup_2. exact Eraw.
  - cbn [app]. apply starts_plain_spaces.
Qed.

(** X21.  The combination is a rectangle: for a gap of at least 0 and
    blocks none of whose lines begins with a low surrogate, U+FE0F or
    U+20E3, every row of the result has the same visual width, the sum of
    the widths of the blocks plus the gap between each two neighbours.  A
    space takes one column. *)
Theorem combineHorizontal_rows_same_width boxes gap :
  space_is_one_column wcwidth EMOJI_CORRECTIONS ->
  0 <= gap ->
  Forall (fun box => Forall starts_plain (split_lines box)) boxes ->
  exists rows,
    combineHorizontal wcwidth EMOJI_CORRECTIONS boxes gap
    = Normal (js_join [NEWLINE] rows)
    /\ Forall (fun row =>
                 getVisualWidth wcwidth EMOJI_CORRECTIONS row
                 = sum_Z (map (block_width wcwidth EMOJI_CORRECTIONS) boxes)
                   + gap * Z.of_nat (Nat.pred (length boxes))) rows.
Proof.
  intros Hspace Hgap Hplain. eexists. split.
  - unfold combineHorizontal. rewrite combineHorizontal_rows_blocks by assumption.
    reflexivity.
  - apply Forall_map, Forall_forall. intros i _. cbn.
    rewrite getVisualWidth_js_join.
    + rewrite length_map, map_map.
      rewrite (getVisualWidth_replicate _ _ _ SPACE) by (reflexivity || discriminate).
      unfold space_is_one_column in Hspace. rewrite Hspace.
      replace (map (fun box => gvw (bpart box i)) boxes) with (map bwidth boxes); [lia|].
      apply map_ext. intros box. unfold block_part.
      rewrite getVisualWidth_app_spaces by assumption.
      pose proof (block_line_fits wcwidth EMOJI_CORRECTIONS box i). lia.
    + apply starts_plain_spaces.
    + apply Forall_map, Forall_forall. intros box Hin. cbn.
      apply block_part_plain. rewrite Forall_forall in Hplain. apply Hplain. exact Hin.
Qed.

End MoreCombine.

(** ** The batch renderer, further *)

Lemma forOfC_app {A S} (f : S -> A -> completion S) xs ys acc :
  forOfC f (xs ++ ys) acc = (acc' ← forOfC f xs acc; forOfC f ys acc').
Proof.
  revert acc. induction xs as [|x xs IH]; intros acc; [reflexivity|].
  cbn [app forOfC]. destruct (f acc x) as [acc'|e]; cbn; [apply IH|reflexivity].
Qed.

(** A loop that pushes one result per element only appends: it returns
    what it started from, followed by one result per element. *)
Lemma push_loop_appends {A B} (f : list B -> A -> completion B) xs acc results :
  forOfC (fun results x => r ← f results x; mret (results ++ [r])) xs acc
  = Normal results ->
  exists out, results = acc ++ out /\ length out = length xs.
Proof.
  revert acc. induction xs as [|x xs IH]; intros acc Hrun.
  - injection Hrun as <-. exists []. rewrite app_nil_r. auto.
  - cbn [forOfC] in Hrun. destruct (f acc x) as [r|e]; [|discriminate].
    cbn [mbind completion_bind mret completion_ret] in Hrun.
    destruct (IH _ Hrun) as (out & -> & Hlen). exists (r :: out).
    rewrite <- app_assoc. split; [reflexivity|cbn; lia].
Qed.

Lemma Forall_or_Exists_not {A} (P : A -> Prop) (l : list A) :
  (forall x, P x \/ ~ P x) -> Forall P l \/ Exists (fun x => ~ P x) l.
Proof.
  intros Hdec. induction l as [|x l [IH|IH]].
  - left. constructor.
  - destruct (Hdec x); [left; constructor; assumption|right; left; assumption].
  - right. right. exact IH.
Qed.

Lemma sizes_ok_dec comp : sizes_ok comp \/ ~ sizes_ok comp.
Proof.
  destruct comp; cbn [sizes_ok]; try (left; exact I).
  - destruct (Z.le_gt_cases 2 (js_or_num width 40)); [left|right]; lia.
  - destruct (decide (Forall (fun w => -2 <= w) widths)); [left|right]; assumption.
  - destruct (Z.le_gt_cases 0 (js_or_num gap 2)); [left|right]; lia.
Qed.

Section MoreBatch.

Variable wcwidth : jsstring -> Z.
Variable EMOJI_CORRECTIONS : gmap jsstring Z.

Lemma render_throws results comp :
  ~ sizes_ok comp ->
  render wcwidth EMOJI_CORRECTIONS results comp = Throw RangeError.
Proof.
  intros Hbad. destruct comp; cbn [render sizes_ok] in *; try (exfalso; apply Hbad; exact I).
  - apply createBox_throws. lia.
  - apply createTableSeparator_throws.
    apply not_Forall_Exists in Hbad; [|intros w; apply _].
    eapply Exists_impl; [exact Hbad|]. cbn. intros w Hw. lia.
  - apply combineHorizontal_throws. lia.
Qed.

Lemma batch_loop_throws components acc :
  Exists (fun comp => ~ sizes_ok comp) components ->
  forOfC (fun results comp =>
            r ← render wcwidth EMOJI_CORRECTIONS results comp; mret (results ++ [r]))
         components acc
  = Throw RangeError.
Proof.
  intros Hex. revert acc. induction Hex as [comp comps Hbad|comp comps _ IH]; intros acc.
  - cbn [forOfC]. rewrite render_throws by assumption. reflexivity.
  - cbn [forOfC].
    destruct (render wcwidth EMOJI_CORRECTIONS acc comp) as [r|[]]; cbn; [apply IH|reflexivity].
Qed.

(** X22.  A batch throws a RangeError exactly when one of its
    instructions has an unsound size (a box narrower than 2 after the
    default of 40, a separator column below -2, a negative gap); no
    reference, valid or not, makes it throw. *)
Theorem batchRender_error components :
  batchRender wcwidth EMOJI_CORRECTIONS components = Throw RangeError
  <-> Exists (fun comp => ~ sizes_ok comp) components.
Proof.
  split; [|apply batch_loop_throws].
  intros Hthrow.
  destruct (Forall_or_Exists_not sizes_ok components sizes_ok_dec) as [Hall|Hex];
    [exfalso|exact Hex].
  - unfold batchRender in Hthrow.
    destruct (push_loop (render wcwidth EMOJI_CORRECTIONS) components [])
      as (results & Hrun & _).
    { intros acc comp Hin. apply render_total.
      rewrite Forall_forall in Hall. apply Hall. exact Hin. }
    rewrite Hrun in Hthrow. discriminate.
Qed.

(** X23.  Results never depend on later instructions: when a batch
    returns, the batch of any prefix of its instructions returns the
    corresponding prefix of its results. *)
Theorem batchRender_prefix xs ys results :
  batchRender wcwidth EMOJI_CORRECTIONS (xs ++ ys) = Normal results ->
  batchRender wcwidth EMOJI_CORRECTIONS xs = Normal (take (length xs) results).
Proof.
  unfold batchRender. rewrite forOfC_app.
  destruct (forOfC _ xs []) as [results1|e] eqn:E1; [|discriminate].
  cbn [mbind completion_bind]. intros Hrun.
  destruct (push_loop_appends _ _ _ _ E1) as (out1 & -> & Hlen1).
  destruct (push_loop_appends _ _ _ _ Hrun) as (out2 & -> & _).
  cbn [app]. rewrite take_app_length' by congruence. reflexivity.
Qed.

End MoreBatch.

(** ** Loading the correction table *)

Lemma fold_left_insert_lookup (entries : list (jsstring * Z)) (m : gmap jsstring Z) key :
  fold_left (fun corrections kv => <[kv.1 := kv.2]> corrections) entries m !! key
  = match last_entry key entries with
    | Some v => Some v
    | None => m !! key
    end.
Proof.
  revert m. induction entries as [|[k v] rest IH]; intros m; [reflexivity|].
  cbn [fold_left last_entry fst snd]. rewrite IH.
  destruct (last_entry key rest) as [later|]; [reflexivity|].
  destruct (decide (k = key)) as [->|Hne].
  - apply lookup_insert_eq.
  - apply lookup_insert_ne. exact Hne.
Qed.

(** X24.  The table is loaded from the global file when that one is
    usable, else from the local file when that one is, else it is the
    built-in table; a missing file and a file that cannot be read or parsed
    are passed over alike.  A loaded table holds, for every key, the
    correction of the last entry with this key in the file and nothing
    else: the built-in entries are not merged in. *)
Theorem loadEmojiConfig_precedence global local key :
  loadEmojiConfig global local !! key
  = match usable_entries global local with
    | Some entries => last_entry key entries
    | None => DEFAULT_EMOJI_CORRECTIONS !! key
    end.
Proof.
  unfold loadEmojiConfig, usable_entries.
  destruct global as [| |entries]; cbn [loadEmojiConfig_from];
    try (destruct local as [| |entries]; cbn [loadEmojiConfig_from]);
    try reflexivity;
    rewrite fold_left_insert_lookup, lookup_empty;
    destruct (last_entry key entries); reflexivity.
Qed.

(** X25.  Once a configuration file is loaded, only its entries count:
    the visual width of a text that is one cluster is its base width plus
    the correction of its last entry in the file, or, without an entry,
    plus 0 for a single code point and plus 1 for a selector or keycap
    cluster, whatever the built-in table says about it. *)
Theorem getVisualWidth_loaded_cluster wcwidth global local entries text c :
  usable_entries global local = Some entries ->
  clusters text = [c] ->
  getVisualWidth wcwidth (loadEmojiConfig global local) text
  = wcwidth text + default (default_correction c) (last_entry text entries).
Proof.
  intros Husable Hc. rewrite getVisualWidth_clusters, Hc.
  pose proof (texts_clusters text) as Htext. rewrite Hc in Htext.
  unfold texts in Htext. cbn [map concat] in Htext. rewrite app_nil_r in Htext.
  assert (Hlookup : loadEmojiConfig global local !! text = last_entry text entries).
  { unfold loadEmojiConfig. unfold usable_entries in Husable.
    destruct global as [| |e]; cbn [loadEmojiConfig_from];
      try (destruct local as [| |e]; cbn [loadEmojiConfig_from]);
      try discriminate; injection Husable as ->;
      rewrite fold_left_insert_lookup, lookup_empty;
      destruct (last_entry text entries); reflexivity. }
  cbn [widths_sum foldr]. unfold clusterWidth.
  destruct c as [char|char nextChar|char nextChar thirdChar];
    cbn [default_correction].
  - unfold cluster_text in Htext. cbn [cluster_chars concat] in Htext.
    rewrite app_nil_r in Htext.
    subst char. rewrite Hlookup.
    destruct (last_entry text entries); simpl; lia.
  - rewrite Htext, Hlookup. simpl. lia.
  - rewrite Htext, Hlookup. simpl. lia.
Qed.

(** ** The tool handler *)

Lemma tool_outcome_throws (c : completion jsstring) :
  tool_outcome c = ToolThrows RangeError <-> c = Throw RangeError.
Proof.
  destruct c as [text|[]]; cbn [tool_outcome]; split; intros H;
    first [reflexivity | discriminate].
Qed.

Lemma tool_outcome_returns (c : completion jsstring) :
  (exists text, c = Normal text) ->
  ~ tool_outcome c = ToolThrows RangeError.
Proof. intros [text ->]. discriminate. Qed.

Section ToolHandler.

Variable wcwidth : jsstring -> Z.
Variable EMOJI_CORRECTIONS : gmap jsstring Z.
Variable toLowerCase : jsstring -> jsstring.

Lemma batchRender_returns components :
  Forall sizes_ok components ->
  exists results, batchRender wcwidth EMOJI_CORRECTIONS components = Normal results.
Proof.
  intros Hall. unfold batchRender.
  destruct (push_loop (render wcwidth EMOJI_CORRECTIONS) components [])
    as (results & Hrun & _).
  { intros acc comp Hin. apply render_total.
    rewrite Forall_forall in Hall. apply Hall. exact Hin. }
  rewrite Hrun. eauto.
Qed.

(** X26.  The tool handler lets a RangeError of a layout function
    through, and it does so exactly on these requests: [batch_render] with
    an instruction of unsound size, [create_box] with a width below 2
    (after the default of 40 for a missing or zero width),
    [create_table_separator] with a column width below -2 and
    [combine_horizontal] with a negative gap.  The tools
    [create_ui_prototype], [pad_text], [create_table_row] and [wrap_frame]
    never do, whatever their arguments are. *)
Theorem callTool_range_error request :
  callTool wcwidth EMOJI_CORRECTIONS toLowerCase request = ToolThrows RangeError
  <-> request_bad_size request.
Proof.
  destruct request as [requirements concept width | components returnIndex
                      | text width align | title lines width | columns widths
                      | widths style | boxes gap | content width title | name];
    cbn [callTool request_bad_size]; cbv zeta.
  - split; [discriminate | intros []].
  - destruct (Forall_or_Exists_not sizes_ok (default [] components) sizes_ok_dec)
      as [Hall|Hex].
    + destruct (batchRender_returns _ Hall) as [results ->].
      split.
      * destruct returnIndex as [idx|]; [|discriminate].
        destruct (js_index results idx) as [[|u result]|]; discriminate.
      * intros Hex. exfalso. apply Exists_exists in Hex as (comp & Hin & Hbad).
        rewrite Forall_forall in Hall. exact (Hbad (Hall comp Hin)).
    + unfold batchRender. rewrite batch_loop_throws by exact Hex.
      split; [intros _; exact Hex | reflexivity].
  - split; [|intros []].
    apply tool_outcome_returns, padText_total.
  - rewrite tool_outcome_throws.
    destruct (Z.lt_ge_cases (js_or_num width 40) 2) as [Hlt|Hge].
    + split; [intros _; exact Hlt | intros _; apply createBox_throws; exact Hlt].
    + destruct (createBox_shape wcwidth EMOJI_CORRECTIONS (js_or_str title [])
                  (default [] lines) _ Hge) as (cells & _ & ->).
      split; [discriminate | lia].
  - split; [|intros []].
    apply tool_outcome_returns, createTableRow_total.
  - rewrite tool_outcome_throws.
    destruct (decide (Forall (fun w => -2 <= w) (default [] widths))) as [Hall|Hnot].
    + rewrite createTableSeparator_segments by assumption.
      split; [discriminate|].
      intros Hex. exfalso. apply Exists_exists in Hex as (w & Hin & Hw).
      rewrite Forall_forall in Hall. specialize (Hall w Hin). cbn in Hall. lia.
    + assert (Hex : Exists (fun w => w < -2) (default [] widths)).
      { apply not_Forall_Exists in Hnot; [|intros w; apply _].
        eapply Exists_impl; [exact Hnot|]. cbn. intros w Hw. lia. }
      split; [intros _; exact Hex | intros _; apply createTableSeparator_throws; exact Hex].
  - rewrite tool_outcome_throws.
    destruct (Z.lt_ge_cases (js_or_num gap 2) 0) as [Hlt|Hge].
    + split; [intros _; exact Hlt | intros _; apply combineHorizontal_throws; exact Hlt].
    + destruct (combineHorizontal_total wcwidth EMOJI_CORRECTIONS (default [] boxes) _ Hge)
        as [combined ->].
      split; [discriminate | lia].
  - split; [|intros []].
    apply tool_outcome_returns, wrapFrame_total.
  - split; [discriminate | intros []].
Qed.

(** X27.  [batch_render] with a [returnIndex]: when the batch returns,
    the result at this index is returned alone if there is one and it is
    not the empty string; an index outside of the results (negative, or
    not below their number) and an empty result give the same answer as no
    [returnIndex] at all, the listing of all results. *)
Theorem callTool_batch_returnIndex components idx results :
  batchRender wcwidth EMOJI_CORRECTIONS (default [] components) = Normal results ->
  callTool wcwidth EMOJI_CORRECTIONS toLowerCase (BatchRenderTool components (Some idx))
  = if decide (0 <= idx < Z.of_nat (length results)
               /\ results !! Z.to_nat idx <> Some [])
    then ToolText (default [] (results !! Z.to_nat idx))
    else callTool wcwidth EMOJI_CORRECTIONS toLowerCase (BatchRenderTool components None).
Proof.
  intros Hrun. cbn [callTool]. cbv zeta. rewrite Hrun. unfold js_index.
  destruct (Z.ltb_spec idx 0) as [Hneg|Hpos].
  - rewrite decide_False by lia. reflexivity.
  - destruct (results !! Z.to_nat idx) as [result|] eqn:Hlook.
    + apply lookup_lt_Some in Hlook as Hlt.
      destruct result as [|u result].
      * rewrite decide_False; [reflexivity|]. intros [_ Hne]. apply Hne. reflexivity.
      * rewrite decide_True; [reflexivity|]. split; [lia | discriminate].
    + apply lookup_ge_None in Hlook.
      rewrite decide_False by lia. reflexivity.
Qed.

(** X28.  [pad_text] with alignment left, or without an alignment,
    returns a text that is exactly as wide as asked, and 10 columns wide
    when the width is missing or 0 (a space being one column wide, and the
    width not negative). *)
Theorem callTool_pad_text_width text width align :
  space_is_one_column wcwidth EMOJI_CORRECTIONS ->
  0 <= js_or_num width 10 ->
  default AlignLeft align = AlignLeft ->
  exists padded,
    callTool wcwidth EMOJI_CORRECTIONS toLowerCase (PadTextTool text width align)
    = ToolText padded
    /\ getVisualWidth wcwidth EMOJI_CORRECTIONS padded = js_or_num width 10.
Proof.
  intros Hspace Hw Halign. cbn [callTool]. cbv zeta. rewrite Halign.
  destruct (padText_total wcwidth EMOJI_CORRECTIONS (js_or_str text [])
              (js_or_num width 10) AlignLeft) as [padded Hpad].
  exists padded. rewrite Hpad. split; [reflexivity|].
  eapply padText_left_exact; eassumption.
Qed.

End ToolHandler.

(** ** The guidelines *)




Lemma sections_cases (c1 c2 c3 c4 c5 c6 c7 c8 : bool) :
  let suggestedSections : list jsstring := [] in
  let suggestedSections :=
    if c1 then suggestedSections ++ [section_header] else suggestedSections in
  let suggestedSections :=
    if c2 then suggestedSections ++ [section_sidebar] else suggestedSections in
  let suggestedSections :=
    if c3 then suggestedSections ++ [section_dashboard] else suggestedSections in
  let suggestedSections :=
    if c4 then suggestedSections ++ [section_table] else suggestedSections in
  let suggestedSections :=
    if c5 then suggestedSections ++ [section_chart] else suggestedSections in
  let suggestedSections :=
    if c6 then suggestedSections ++ [section_form] else suggestedSections in
  let suggestedSections :=
    if c7 then suggestedSections ++ [section_card] else suggestedSections in
  let suggestedSections :=
    if c8 then suggestedSections ++ [section_footer] else suggestedSections in
  let sections :=
    if (length suggestedSections =? 0)%nat
    then suggestedSections
           ++ [section_default_header; section_default_main; section_default_footer]
    else suggestedSections in
  (c1 || c2 || c3 || c4 || c5 || c6 || c7 || c8 = false
   /\ sections = default_sections)
  \/ (c1 || c2 || c3 || c4 || c5 || c6 || c7 || c8 = true
      /\ sections <> []
      /\ sections `sublist_of` keyword_sections).
Proof.
  unfold keyword_sections.
  destruct c1, c2, c3, c4, c5, c6, c7, c8; cbn [app length Nat.eqb orb];
    first
      [ left; split; reflexivity
      | right; split; [reflexivity|]; split; [discriminate|];
        repeat first [ apply sublist_nil | apply sublist_skip | apply sublist_cons ] ].
Qed.

Lemma existsb_false_Forall {A} (f : A -> bool) (l : list A) :
  existsb f l = false -> Forall (fun x => f x = false) l.
Proof.
  induction l as [|x l IH]; cbn [existsb]; intros H; [constructor|].
  apply orb_false_elim in H as [Hx Hl]. constructor; [exact Hx | exact (IH Hl)].
Qed.

Lemma existsb_true_Exists {A} (f : A -> bool) (l : list A) :
  existsb f l = true -> Exists (fun x => f x = true) l.
Proof.
  induction l as [|x l IH]; cbn [existsb]; intros H; [discriminate|].
  apply orb_true_iff in H as [Hx|Hl]; [left; exact Hx | right; exact (IH Hl)].
Qed.

Section MoreGuidelines.

Variable toLowerCase : jsstring -> jsstring.

(** X29.  The suggested sections are never empty.  When none of the 26
    keywords occurs in the (lower-cased) requirements they are the three
    default sections; when one occurs they are a selection of the eight
    keyword sections, in the fixed order of the source whatever the order
    of the keywords in the requirements is, each at most once. *)
Theorem suggestedSections_of_cases keywords :
  (Forall (fun kw => js_includes keywords kw = false) all_keywords
   /\ suggestedSections_of keywords = default_sections)
  \/ (Exists (fun kw => js_includes keywords kw = true) all_keywords
      /\ suggestedSections_of keywords <> []
      /\ suggestedSections_of keywords `sublist_of` keyword_sections).
Proof.
  unfold suggestedSections_of. cbv zeta.
  set (includes := js_includes keywords).
  pose proof (sections_cases
    (includes kw_ko_header || includes kw_header || includes kw_ko_navigation
     || includes kw_ko_logo)
    (includes kw_ko_sidebar || includes kw_sidebar || includes kw_ko_menu)
    (includes kw_ko_dashboard || includes kw_dashboard || includes kw_ko_metric
     || includes kw_ko_statistics)
    (includes kw_ko_table || includes kw_table || includes kw_ko_list
     || includes kw_ko_list_loan)
    (includes kw_ko_chart || includes kw_chart || includes kw_ko_graph)
    (includes kw_ko_form || includes kw_form || includes kw_ko_input
     || includes kw_ko_search)
    (includes kw_ko_card || includes kw_card)
    (includes kw_ko_footer || includes kw_footer)) as Hcases.
  cbv zeta in Hcases.
  assert (Hor : forall b,
    includes kw_ko_header || includes kw_header || includes kw_ko_navigation
      || includes kw_ko_logo
    || (includes kw_ko_sidebar || includes kw_sidebar || includes kw_ko_menu)
    || (includes kw_ko_dashboard || includes kw_dashboard || includes kw_ko_metric
        || includes kw_ko_statistics)
    || (includes kw_ko_table || includes kw_table || includes kw_ko_list
        || includes kw_ko_list_loan)
    || (includes kw_ko_chart || includes kw_chart || includes kw_ko_graph)
    || (includes kw_ko_form || includes kw_form || includes kw_ko_input
        || includes kw_ko_search)
    || (includes kw_ko_card || includes kw_card)
    || (includes kw_ko_footer || includes kw_footer) = b ->
    existsb includes all_keywords = b).
  { intros b <-. unfold all_keywords. cbn [existsb].
    rewrite <- !orb_assoc, orb_false_r. reflexivity. }
  destruct Hcases as [[Hnone Hsections]|(Hsome & Hne & Hsub)].
  - left. split; [|exact Hsections].
    apply existsb_false_Forall, Hor, Hnone.
  - right. split; [|split; assumption].
    apply existsb_true_Exists, Hor, Hsome.
Qed.


End MoreGuidelines.

(** ** The further properties in the built-in environment *)

Lemma default_widths_nonneg : widths_nonneg wcwidth_ref DEFAULT_EMOJI_CORRECTIONS.
Proof.
  intros c. apply clusterWidth_nonneg;
    [apply wcwidth_ref_nonneg | apply default_table_nonneg].
Qed.

Lemma default_separator_glyphs_one_column style :
  separator_glyphs_one_column wcwidth_ref DEFAULT_EMOJI_CORRECTIONS style.
Proof.
  destruct style; unfold separator_glyphs_one_column; cbn [separator_chars app];
    repeat (apply Forall_cons; split; [vm_compute; reflexivity|]); constructor.
Qed.

Lemma getVisualWidth_concat_witness :
  let a := [0xD55C; 0x31; 0xFE0F; 0x20E3] in
  let b := [0x61; 0x62] in
  starts_plain b
  /\ clusters (a ++ b) = clusters a ++ clusters b
  /\ getVisualWidth wcwidth_ref DEFAULT_EMOJI_CORRECTIONS (a ++ b)
     = getVisualWidth wcwidth_ref DEFAULT_EMOJI_CORRECTIONS a
       + getVisualWidth wcwidth_ref DEFAULT_EMOJI_CORRECTIONS b.
Proof.
  intros a b.
  assert (H : starts_plain b).
  { split; [reflexivity|]. split; vm_compute; discriminate. }
  split; [exact H|].
  exact (getVisualWidth_concat wcwidth_ref DEFAULT_EMOJI_CORRECTIONS a b H).
Defined.

Lemma truncateByVisualWidth_monotone_witness :
  let text := [0x61; 0xD55C; 0x62] in
  1 <= 3
  /\ truncateByVisualWidth wcwidth_ref DEFAULT_EMOJI_CORRECTIONS text 1
     `prefix_of` truncateByVisualWidth wcwidth_ref DEFAULT_EMOJI_CORRECTIONS text 3.
Proof.
  intros text. assert (H : 1 <= 3) by lia. split; [exact H|].
  exact (truncateByVisualWidth_monotone wcwidth_ref DEFAULT_EMOJI_CORRECTIONS text 1 3 H).
Defined.

Lemma truncateByVisualWidth_fits_unchanged_witness :
  let text := [0x61; 0x31; 0xFE0F; 0x20E3] in
  Forall (fun c => 0 <= clusterWidth wcwidth_ref DEFAULT_EMOJI_CORRECTIONS c)
         (clusters text)
  /\ getVisualWidth wcwidth_ref DEFAULT_EMOJI_CORRECTIONS text <= 5
  /\ truncateByVisualWidth wcwidth_ref DEFAULT_EMOJI_CORRECTIONS text 5 = text.
Proof.
  intros text.
  assert (H1 : Forall (fun c => 0 <= clusterWidth wcwidth_ref DEFAULT_EMOJI_CORRECTIONS c)
                      (clusters text)).
  { apply Forall_forall. intros c _. apply default_widths_nonneg. }
  assert (H2 : getVisualWidth wcwidth_ref DEFAULT_EMOJI_CORRECTIONS text <= 5).
  { vm_compute. discriminate. }
  split; [exact H1|]. split; [exact H2|].
  exact (truncateByVisualWidth_fits_unchanged wcwidth_ref DEFAULT_EMOJI_CORRECTIONS
           text 5 H1 H2).
Defined.

Lemma truncateByVisualWidth_negative_empty_witness :
  widths_nonneg wcwidth_ref DEFAULT_EMOJI_CORRECTIONS
  /\ -1 < 0
  /\ truncateByVisualWidth wcwidth_ref DEFAULT_EMOJI_CORRECTIONS [0x61; 0x62] (-1) = [].
Proof.
  pose proof default_widths_nonneg as H1. assert (H2 : -1 < 0) by lia.
  split; [exact H1|]. split; [exact H2|].
  exact (truncateByVisualWidth_negative_empty wcwidth_ref DEFAULT_EMOJI_CORRECTIONS
           [0x61; 0x62] (-1) H1 H2).
Defined.

Lemma padText_keeps_fitting_text_witness :
  let text := [0x61; 0x62] in
  getVisualWidth wcwidth_ref DEFAULT_EMOJI_CORRECTIONS text <= 5
  /\ exists before after,
      padText wcwidth_ref DEFAULT_EMOJI_CORRECTIONS text 5 AlignCenter
      = Normal (replicate before SPACE ++ text ++ replicate after SPACE)
      /\ Z.of_nat before + Z.of_nat after
         = 5 - getVisualWidth wcwidth_ref DEFAULT_EMOJI_CORRECTIONS text
      /\ (before <= after <= before + 1)%nat.
Proof.
  intros text.
  assert (H : getVisualWidth wcwidth_ref DEFAULT_EMOJI_CORRECTIONS text <= 5).
  { vm_compute. discriminate. }
  split; [exact H|].
  exact (padText_keeps_fitting_text wcwidth_ref DEFAULT_EMOJI_CORRECTIONS text 5
           AlignCenter H).
Defined.

Lemma padText_over_ignores_align_witness :
  let text := [0xD55C; 0xAE00; 0x61] in
  3 < getVisualWidth wcwidth_ref DEFAULT_EMOJI_CORRECTIONS text
  /\ padText wcwidth_ref DEFAULT_EMOJI_CORRECTIONS text 3 AlignRight
     = padText wcwidth_ref DEFAULT_EMOJI_CORRECTIONS text 3 AlignLeft
  /\ exists fill,
      padText wcwidth_ref DEFAULT_EMOJI_CORRECTIONS text 3 AlignRight
      = Normal (truncateByVisualWidth wcwidth_ref DEFAULT_EMOJI_CORRECTIONS text 3
                  ++ replicate fill SPACE).
Proof.
  intros text.
  assert (H : 3 < getVisualWidth wcwidth_ref DEFAULT_EMOJI_CORRECTIONS text).
  { vm_compute. reflexivity. }
  split; [exact H|].
  exact (padText_over_ignores_align wcwidth_ref DEFAULT_EMOJI_CORRECTIONS text 3
           AlignRight H).
Defined.

Lemma padText_negative_width_empty_witness :
  widths_nonneg wcwidth_ref DEFAULT_EMOJI_CORRECTIONS
  /\ -2 < 0
  /\ padText wcwidth_ref DEFAULT_EMOJI_CORRECTIONS [0x61] (-2) AlignCenter = Normal [].
Proof.
  pose proof default_widths_nonneg as H1. assert (H2 : -2 < 0) by lia.
  split; [exact H1|]. split; [exact H2|].
  exact (padText_negative_width_empty wcwidth_ref DEFAULT_EMOJI_CORRECTIONS
           [0x61] (-2) AlignCenter H1 H2).
Defined.

Lemma createTableSeparator_width_witness :
  let widths := [4; -1; 0] in
  separator_glyphs_one_column wcwidth_ref DEFAULT_EMOJI_CORRECTIONS StyleTop
  /\ Forall (fun w => -2 <= w) widths
  /\ exists sep,
      createTableSeparator widths StyleTop = Normal sep
      /\ getVisualWidth wcwidth_ref DEFAULT_EMOJI_CORRECTIONS sep
         = 2 + sum_Z (map (fun w => w + 2) widths) + Z.of_nat (Nat.pred (length widths)).
Proof.
  intros widths.
  pose proof (default_separator_glyphs_one_column StyleTop) as H1.
  assert (H2 : Forall (fun w => -2 <= w) widths).
  { repeat (apply Forall_cons; split; [cbn; lia|]). constructor. }
  split; [exact H1|]. split; [exact H2|].
  exact (createTableSeparator_width wcwidth_ref DEFAULT_EMOJI_CORRECTIONS widths
           StyleTop H1 H2).
Defined.

Lemma createTableRow_matches_separator_witness :
  let columns := [[0x61]; [0xD55C]] in
  let widths := [3; 4] in
  box_glyphs_one_column wcwidth_ref DEFAULT_EMOJI_CORRECTIONS
  /\ separator_glyphs_one_column wcwidth_ref DEFAULT_EMOJI_CORRECTIONS StyleMiddle
  /\ columns <> []
  /\ length columns = length widths
  /\ Forall (fun w => 0 < w) widths
  /\ Forall (fun col => head col <> Some VS16) columns
  /\ exists row sep,
      createTableRow wcwidth_ref DEFAULT_EMOJI_CORRECTIONS columns widths = Normal row
      /\ createTableSeparator widths StyleMiddle = Normal sep
      /\ getVisualWidth wcwidth_ref DEFAULT_EMOJI_CORRECTIONS row
         = sum_Z widths + 3 * Z.of_nat (length widths) + 1
      /\ getVisualWidth wcwidth_ref DEFAULT_EMOJI_CORRECTIONS sep
         = getVisualWidth wcwidth_ref DEFAULT_EMOJI_CORRECTIONS row.
Proof.
  intros columns widths.
  pose proof default_box_glyphs_one_column as H0.
  pose proof (default_separator_glyphs_one_column StyleMiddle) as H1.
  assert (H2 : columns <> []) by discriminate.
  assert (H3 : length columns = length widths) by reflexivity.
  assert (H4 : Forall (fun w => 0 < w) widths).
  { repeat (apply Forall_cons; split; [cbn; lia|]). constructor. }
  assert (H5 : Forall (fun col => head col <> Some VS16) columns).
  { repeat (apply Forall_cons; split; [vm_compute; discriminate|]). constructor. }
  split; [exact H0|]. split; [exact H1|]. split; [exact H2|]. split; [exact H3|].
  split; [exact H4|]. split; [exact H5|].
  exact (createTableRow_matches_separator wcwidth_ref DEFAULT_EMOJI_CORRECTIONS H0
           columns widths StyleMiddle H1 H2 H3 H4 H5).
Defined.

Lemma createBox_narrow_drops_content_witness :
  let title := [0x54] in
  let lines := [[0x61; 0x62; 0x63]; [0xD55C]] in
  widths_nonneg wcwidth_ref DEFAULT_EMOJI_CORRECTIONS
  /\ 2 <= 3 < 4
  /\ createBox wcwidth_ref DEFAULT_EMOJI_CORRECTIONS title lines 3
     = Normal (js_join [NEWLINE]
                 ((box_top title 0 :: map (fun _ => [VBAR; SPACE; SPACE; VBAR]) lines)
                  ++ [box_bottom (Z.to_nat (3 - 2))])).
Proof.
  intros title lines.
  pose proof default_widths_nonneg as H1. assert (H2 : 2 <= 3 < 4) by lia.
  split; [exact H1|]. split; [exact H2|].
  exact (createBox_narrow_drops_content wcwidth_ref DEFAULT_EMOJI_CORRECTIONS
           title lines 3 H1 H2).
Defined.


Lemma combineHorizontal_rows_same_width_witness :
  let boxes := [[0x61; 0x62; NEWLINE; 0x63]; [0xD55C]] in
  space_is_one_column wcwidth_ref DEFAULT_EMOJI_CORRECTIONS
  /\ 0 <= 2
  /\ Forall (fun box => Forall starts_plain (split_lines box)) boxes
  /\ exists rows,
      combineHorizontal wcwidth_ref DEFAULT_EMOJI_CORRECTIONS boxes 2
      = Normal (js_join [NEWLINE] rows)
      /\ Forall (fun row =>
                   getVisualWidth wcwidth_ref DEFAULT_EMOJI_CORRECTIONS row
                   = sum_Z (map (block_width wcwidth_ref DEFAULT_EMOJI_CORRECTIONS) boxes)
                     + 2 * Z.of_nat (Nat.pred (length boxes))) rows.
Proof.
  intros boxes.
  pose proof default_space_is_one_column as H1.
  assert (H2 : 0 <= 2) by lia.
  assert (H3 : Forall (fun box => Forall starts_plain (split_lines box)) boxes).
  { apply Forall_cons. split.
    - change (split_lines [0x61; 0x62; NEWLINE; 0x63]) with [[0x61; 0x62]; [0x63]].
      repeat (apply Forall_cons; split;
              [split; [reflexivity|split; vm_compute; discriminate]|]).
      constructor.
    - apply Forall_cons. split; [|constructor].
      change (split_lines [0xD55C]) with [[0xD55C]].
      repeat (apply Forall_cons; split;
              [split; [reflexivity|split; vm_compute; discriminate]|]).
      constructor. }
  split; [exact H1|]. split; [exact H2|]. split; [exact H3|].
  exact (combineHorizontal_rows_same_width wcwidth_ref DEFAULT_EMOJI_CORRECTIONS
           boxes 2 H1 H2 H3).
Defined.

Lemma batchRender_prefix_witness :
  let xs := [RawTextComponent [0x61]; PadTextComponent [0x62] 3 None] in
  let ys := [CombineHorizontalComponent [0; 1] None] in
  let results := [[0x61]; [0x62; SPACE; SPACE]; [0x61; SPACE; SPACE; 0x62]] in
  batchRender wcwidth_ref DEFAULT_EMOJI_CORRECTIONS (xs ++ ys) = Normal results
  /\ batchRender wcwidth_ref DEFAULT_EMOJI_CORRECTIONS xs
     = Normal (take (length xs) results).
Proof.
  intros xs ys results.
  assert (H : batchRender wcwidth_ref DEFAULT_EMOJI_CORRECTIONS (xs ++ ys)
              = Normal results).
  { vm_compute. reflexivity. }
  split; [exact H|].
  exact (batchRender_prefix wcwidth_ref DEFAULT_EMOJI_CORRECTIONS xs ys results H).
Defined.

Lemma getVisualWidth_loaded_cluster_witness :
  let entries := [([0x61], 3); ([0x62], 1); ([0x61], 5)] in
  let text := [0x61] in
  usable_entries Unusable (Corrections entries) = Some entries
  /\ clusters text = [Single text]
  /\ getVisualWidth wcwidth_ref (loadEmojiConfig Unusable (Corrections entries)) text
     = wcwidth_ref text
       + default (default_correction (Single text)) (last_entry text entries).
Proof.
  intros entries text.
  assert (H1 : usable_entries Unusable (Corrections entries) = Some entries)
    by reflexivity.
  assert (H2 : clusters text = [Single text]) by (vm_compute; reflexivity).
  split; [exact H1|]. split; [exact H2|].
  exact (getVisualWidth_loaded_cluster wcwidth_ref Unusable (Corrections entries)
           entries text (Single text) H1 H2).
Defined.

Lemma callTool_batch_returnIndex_witness :
  let components := Some [RawTextComponent [0x61]; RawTextComponent [0x62]] in
  let results := [[0x61]; [0x62]] in
  batchRender wcwidth_ref DEFAULT_EMOJI_CORRECTIONS (default [] components)
  = Normal results
  /\ callTool wcwidth_ref DEFAULT_EMOJI_CORRECTIONS (fun s => s)
       (BatchRenderTool components (Some 1))
     = if decide (0 <= 1 < Z.of_nat (length results)
                  /\ results !! Z.to_nat 1 <> Some [])
       then ToolText (default [] (results !! Z.to_nat 1))
       else callTool wcwidth_ref DEFAULT_EMOJI_CORRECTIONS (fun s => s)
              (BatchRenderTool components None).
Proof.
  intros components results.
  assert (H : batchRender wcwidth_ref DEFAULT_EMOJI_CORRECTIONS (default [] components)
              = Normal results).
  { vm_compute. reflexivity. }
  split; [exact H|].
  exact (callTool_batch_returnIndex wcwidth_ref DEFAULT_EMOJI_CORRECTIONS (fun s => s)
           components 1 results H).
Defined.

Lemma callTool_pad_text_width_witness :
  let text := Some [0x61; 0x62] in
  space_is_one_column wcwidth_ref DEFAULT_EMOJI_CORRECTIONS
  /\ 0 <= js_or_num None 10
  /\ default AlignLeft None = AlignLeft
  /\ exists padded,
      callTool wcwidth_ref DEFAULT_EMOJI_CORRECTIONS (fun s => s)
        (PadTextTool text None None)
      = ToolText padded
      /\ getVisualWidth wcwidth_ref DEFAULT_EMOJI_CORRECTIONS padded = js_or_num None 10.
Proof.
  intros text.
  pose proof default_space_is_one_column as H1.
  assert (H2 : 0 <= js_or_num None 10) by (cbn; lia).
  assert (H3 : default AlignLeft None = AlignLeft) by reflexivity.
  split; [exact H1|]. split; [exact H2|]. split; [exact H3|].
  exact (callTool_pad_text_width wcwidth_ref DEFAULT_EMOJI_CORRECTIONS (fun s => s)
           text None None H1 H2 H3).
Defined.
